(** * LLM-Tools benchmark: artifact extraction, sandboxed evaluation, job runner

    A shallow embedding of
      - [src/artifact_extractor.py]                          (class [ArtifactExtractor]),
      - [llm-benchmark/src/evaluators/code_executor.py]      (class [CodeExecutor]),
      - [src/job_runner.py]                                  (class [JobRunner]),
    and the properties of the design document that concern them.

    Python [str] values are modelled by [string]; a character stands for a
    code point below 256 (Latin-1), which fixes what [str.lower],
    [str.strip], [\w] and [\s] do.  Python dictionaries whose insertion
    order is observed ([files], [model_scores]) are association lists with
    in-place update; the job registry, whose order is never observed by the
    modelled operations, is a [gmap].  The scores the leaderboard averages
    are Python ints (unbounded, [Z]); what [/] makes of two ints is a
    binary64 float ([spec_float] with precision 53), the one nearest to the
    exact quotient.  Paths are pure POSIX paths. *)

From Stdlib Require Import ZArith QArith Qabs Lqa Ascii String.
From Stdlib Require Import Floats.SpecFloat.
From stdpp Require Import base gmap strings list fin_maps pretty sorting.

Set Default Proof Using "Type".
Set Warnings "-clear-no-such-hyp".
Local Open Scope string_scope.
Local Open Scope list_scope.

(* ===================================================================== *)
(** * Python string primitives *)
(* ===================================================================== *)

Module PyStr.

Definition code (c : ascii) : nat := nat_of_ascii c.

Definition between (lo hi n : nat) : bool := (lo <=? n)%nat && (n <=? hi)%nat.

(** [str.isspace] on one character (code points below 256). *)
Definition is_space (c : ascii) : bool :=
  let n := code c in
  between 9 13 n || between 28 32 n || (n =? 133)%nat || (n =? 160)%nat.

(** A character [\w] matches in a [str] pattern: alphanumeric or [_]. *)
Definition is_word (c : ascii) : bool :=
  let n := code c in
  between 48 57 n || between 65 90 n || between 97 122 n || (n =? 95)%nat
  || (n =? 170)%nat || (n =? 178)%nat || (n =? 179)%nat || (n =? 181)%nat
  || (n =? 185)%nat || (n =? 186)%nat || between 188 190 n
  || between 192 214 n || between 216 246 n || between 248 255 n.

(** [str.lower] on one character. *)
Definition lower_char (c : ascii) : ascii :=
  let n := code c in
  if between 65 90 n || between 192 214 n || between 216 222 n
  then ascii_of_nat (n + 32) else c.

Fixpoint lower (s : string) : string :=
  match s with
  | EmptyString => EmptyString
  | String c s' => String (lower_char c) (lower s')
  end.

Fixpoint lstrip (s : string) : string :=
  match s with
  | EmptyString => EmptyString
  | String c s' => if is_space c then lstrip s' else s
  end.

Fixpoint rstrip (s : string) : string :=
  match s with
  | EmptyString => EmptyString
  | String c s' =>
      match rstrip s' with
      | EmptyString => if is_space c then EmptyString else String c EmptyString
      | r => String c r
      end
  end.

(** [s.strip()] *)
Definition strip (s : string) : string := rstrip (lstrip s).

(** [s.startswith(p)] *)
Fixpoint startswith (p s : string) : bool :=
  match p, s with
  | EmptyString, _ => true
  | String a p', String b s' => if ascii_dec a b then startswith p' s' else false
  | String _ _, EmptyString => false
  end.

(** [sub in s] *)
Fixpoint contains (sub s : string) : bool :=
  startswith sub s ||
  match s with
  | EmptyString => false
  | String _ s' => contains sub s'
  end.

(** [s.find(sub)]: offset of the first occurrence. *)
Fixpoint find (sub s : string) : option nat :=
  if startswith sub s then Some 0%nat
  else match s with
       | EmptyString => None
       | String _ s' => S <$> find sub s'
       end.

Fixpoint drop (n : nat) (s : string) : string :=
  match n, s with
  | O, _ => s
  | S n', String _ s' => drop n' s'
  | S _, EmptyString => EmptyString
  end.

(** [s[:n]] *)
Fixpoint take (n : nat) (s : string) : string :=
  match n, s with
  | S n', String c s' => String c (take n' s')
  | _, _ => EmptyString
  end.

(** [s.endswith(suf)] *)
Definition endswith (suf s : string) : bool :=
  (String.length suf <=? String.length s)%nat &&
  bool_decide (drop (String.length s - String.length suf) s = suf).

(** [sep.join(l)] *)
Fixpoint join (sep : string) (l : list string) : string :=
  match l with
  | [] => ""
  | [x] => x
  | x :: l' => x +:+ sep +:+ join sep l'
  end.

(** [s.replace(old, new)] for a non-empty [old] (every call site passes a
    literal tag): all non-overlapping occurrences, left to right.  [skip]
    counts the characters of a matched occurrence still to be dropped. *)
Fixpoint replace_go (old new : string) (skip : nat) (s : string) : string :=
  match s with
  | EmptyString => EmptyString
  | String c s' =>
      match skip with
      | S k => replace_go old new k s'
      | O =>
          if startswith old s
          then new +:+ replace_go old new (String.length old - 1) s'
          else String c (replace_go old new 0 s')
      end
  end.

Definition replace (old new s : string) : string := replace_go old new 0 s.

(** Truthiness of a string, and of an optional string ([None] or [str]). *)
Definition truthy (s : string) : bool := negb (bool_decide (s = "")).
Definition truthy_opt (o : option string) : bool :=
  match o with Some s => truthy s | None => false end.

Definition nl : string := String (ascii_of_nat 10) EmptyString.

End PyStr.

(* ===================================================================== *)
(** * The fragment of Python's [re] the sources use *)
(* ===================================================================== *)

(** A backtracking matcher with the priorities of [re]: alternatives left
    to right, greedy repetition longest first, lazy repetition shortest
    first, captures recorded on the successful path only.  Every repetition
    in the sources' patterns is over a single character class, so [Star]
    takes a class; [x+] is [x] followed by [x*], [x?] is [(x|)] and
    [x{1,6}] is unfolded by [upto]. *)

Module Re.

Inductive re : Type :=
| Eps
| Chr (p : ascii → bool)
| Seq (r1 r2 : re)
| Alt (r1 r2 : re)
| Star (greedy : bool) (p : ascii → bool)
| Grp (n : nat) (r : re).

Definition caps : Type := list (nat * string).

(** The outcome of a match: the captures and the unread input. *)
Definition outcome : Type := caps * string.

Fixpoint star (greedy : bool) (p : ascii → bool) (s : string)
    (k : string → option outcome) : option outcome :=
  match s with
  | EmptyString => k s
  | String c s' =>
      if greedy then
        if p c then
          match star greedy p s' k with
          | Some o => Some o
          | None => k s
          end
        else k s
      else
        match k s with
        | Some o => Some o
        | None => if p c then star greedy p s' k else None
        end
  end.

Fixpoint run (r : re) (s : string) (cs : caps)
    (k : string → caps → option outcome) : option outcome :=
  match r with
  | Eps => k s cs
  | Chr p =>
      match s with
      | String c s' => if p c then k s' cs else None
      | EmptyString => None
      end
  | Seq r1 r2 => run r1 s cs (λ s' cs', run r2 s' cs' k)
  | Alt r1 r2 =>
      match run r1 s cs k with
      | Some o => Some o
      | None => run r2 s cs k
      end
  | Star g p => star g p s (λ s', k s' cs)
  | Grp n r1 =>
      run r1 s cs
        (λ s' cs', k s' ((n, PyStr.take (String.length s - String.length s') s) :: cs'))
  end.

(** [pattern.match(s)] at the head of [s]. *)
Definition match_here (r : re) (s : string) : option outcome :=
  run r s [] (λ s' cs, Some (cs, s')).

(** [m.group(n)], the empty string for a group that took no part (which
    is what [findall] reports). *)
Fixpoint group (n : nat) (cs : caps) : string :=
  match cs with
  | [] => ""
  | (m, v) :: cs' => if (n =? m)%nat then v else group n cs'
  end.

(** [re.findall]: leftmost matches, scanning resumes where a match ended
    (one character further after an empty match, which none of the
    patterns below can produce). *)
Fixpoint findall_go (fuel : nat) (r : re) (s : string) : list caps :=
  match fuel with
  | O => []
  | S fuel' =>
      match match_here r s with
      | Some (cs, rest) =>
          if (String.length rest <? String.length s)%nat
          then cs :: findall_go fuel' r rest
          else cs :: match s with
                     | EmptyString => []
                     | String _ s' => findall_go fuel' r s'
                     end
      | None =>
          match s with
          | EmptyString => []
          | String _ s' => findall_go fuel' r s'
          end
      end
  end.

Definition findall (r : re) (s : string) : list caps :=
  findall_go (S (String.length s)) r s.

(** ** Pattern combinators *)

Definition any : ascii → bool := λ _, true.
Definition ch (a : ascii) : ascii → bool := λ c, bool_decide (c = a).
Definition not_nl : ascii → bool := λ c, negb (bool_decide (c = ascii_of_nat 10)).
(** a literal character under [re.IGNORECASE] *)
Definition chi (a : ascii) : ascii → bool :=
  λ c, bool_decide (PyStr.lower_char c = PyStr.lower_char a).

Fixpoint lit (s : string) : re :=
  match s with
  | EmptyString => Eps
  | String c s' => Seq (Chr (ch c)) (lit s')
  end.

Fixpoint liti (s : string) : re :=
  match s with
  | EmptyString => Eps
  | String c s' => Seq (Chr (chi c)) (liti s')
  end.

Definition opt (r : re) : re := Alt r Eps.
Definition plus (g : bool) (p : ascii → bool) : re := Seq (Chr p) (Star g p).

(** [r{1,n+1}], greedy *)
Fixpoint upto (n : nat) (r : re) : re :=
  match n with
  | O => r
  | S n' => Seq r (opt (upto n' r))
  end.

Fixpoint seqs (l : list re) : re :=
  match l with
  | [] => Eps
  | [r] => r
  | r :: l' => Seq r (seqs l')
  end.

Fixpoint alts (l : list re) : re :=
  match l with
  | [] => Eps
  | [r] => r
  | r :: l' => Alt r (alts l')
  end.

Definition sp_star : re := Star true PyStr.is_space.
Definition word_plus : re := plus true PyStr.is_word.
Definition fence : re := lit "```".
Definition newline : re := Chr (ch (ascii_of_nat 10)).
(** [(.*?)] under [re.DOTALL] *)
Definition lazy_body (n : nat) : re := Grp n (Star false any).

End Re.

(* ===================================================================== *)
(** * Insertion-ordered dictionaries *)
(* ===================================================================== *)

(** A Python [dict] keyed by strings: [d[k] = v] overwrites in place when
    [k] is present and appends otherwise, and iteration follows insertion
    order. *)

Module Dict.

Section Ops.
Context {V : Type}.

Fixpoint set (k : string) (v : V) (d : list (string * V)) : list (string * V) :=
  match d with
  | [] => [(k, v)]
  | (k', v') :: d' =>
      if decide (k = k') then (k, v) :: d' else (k', v') :: set k v d'
  end.

Fixpoint get (k : string) (d : list (string * V)) : option V :=
  match d with
  | [] => None
  | (k', v') :: d' => if decide (k = k') then Some v' else get k d'
  end.

(** [k in d] *)
Definition mem (k : string) (d : list (string * V)) : bool :=
  match get k d with Some _ => true | None => false end.

Definition keys (d : list (string * V)) : list string := d.*1.
Definition values (d : list (string * V)) : list V := d.*2.

End Ops.

End Dict.

Abbreviation files_t := (list (string * string)).

(* ===================================================================== *)
(** * Pure POSIX paths: [pathlib.Path(a) / b] and [str] *)
(* ===================================================================== *)

Module PyPath.

(** [s.split('/')] *)
Fixpoint split_slash (s : string) : list string :=
  match s with
  | EmptyString => [EmptyString]
  | String c s' =>
      if ascii_dec c "/" then EmptyString :: split_slash s'
      else match split_slash s' with
           | [] => [String c EmptyString]
           | x :: xs => String c x :: xs
           end
  end.

(** [s.lstrip('/')] *)
Fixpoint lstrip_slash (s : string) : string :=
  match s with
  | String c s' => if ascii_dec c "/" then lstrip_slash s' else s
  | EmptyString => EmptyString
  end.

(** A parsed pure POSIX path: the root ([""], ["/"] or ["//"]) and the
    names after it. *)
Record path : Type := Path { root : string; names : list string }.

(** [splitroot]: exactly two leading slashes are kept, any other number
    of them is one. *)
Definition splitroot (part : string) : string * string :=
  match part with
  | String c _ =>
      if ascii_dec c "/" then
        let stripped := lstrip_slash part in
        if (String.length part - String.length stripped =? 2)%nat
        then ("//", stripped) else ("/", stripped)
      else ("", part)
  | EmptyString => ("", part)
  end.

(** [PurePosixPath(part)]: empty names and [.] are dropped. *)
Definition parse (part : string) : path :=
  let '(root, rel) := splitroot part in
  Path root (filter (λ x, x ≠ "" ∧ x ≠ ".") (split_slash rel)).

(** [p / part]: a part with a root replaces [p]. *)
Definition join_path (p : path) (part : string) : path :=
  let q := parse part in
  if decide (root q = "") then Path (root p) (names p ++ names q) else q.

Fixpoint join_names (l : list string) : string :=
  match l with
  | [] => ""
  | [x] => x
  | x :: l' => x +:+ "/" +:+ join_names l'
  end.

(** [str(p)] *)
Definition path_str (p : path) : string :=
  match root p +:+ join_names (names p) with
  | EmptyString => "."
  | s => s
  end.

End PyPath.

(* ===================================================================== *)
(** * src/artifact_extractor.py *)
(* ===================================================================== *)

Module ArtifactExtractor.
Import PyStr Re.

(** [r'```(\w+):([^\n]+)\n(.*?)```'] *)
Definition pattern1 : re :=
  seqs [fence; Grp 1 word_plus; lit ":"; Grp 2 (plus true not_nl); newline;
        lazy_body 3; fence].

(** [r'<!--\s*(?:filename|file):\s*([^\n]+?)\s*-->\s*```(?:\w+)?\n(.*?)```'],
    [re.DOTALL | re.IGNORECASE] *)
Definition pattern2 : re :=
  seqs [liti "<!--"; sp_star; alts [liti "filename"; liti "file"]; liti ":";
        sp_star; Grp 1 (plus false not_nl); sp_star; liti "-->"; sp_star;
        liti "```"; opt word_plus; newline; lazy_body 2; liti "```"].

(** [r'(?://|#|/[*])\s*(?:filename|file):\s*([^\n]+?)(?:[*]/|)\s*\n\s*```(?:\w+)?\n(.*?)```'],
    [re.DOTALL | re.IGNORECASE]; the source escapes each star with a
    backslash, written as the class [[*]] here. *)
Definition pattern3 : re :=
  seqs [alts [liti "//"; liti "#"; liti "/*"]; sp_star;
        alts [liti "filename"; liti "file"]; liti ":"; sp_star;
        Grp 1 (plus false not_nl); Alt (liti "*/") Eps; sp_star; newline;
        sp_star; liti "```"; opt word_plus; newline; lazy_body 2; liti "```"].

(** [r'#{1,6}\s+([^\n]+\.(?:html|js|css|json|jsx|tsx|ts))\s*\n\s*```(?:\w+)?\n(.*?)```'],
    [re.DOTALL | re.IGNORECASE] *)
Definition pattern4 : re :=
  seqs [upto 5 (liti "#"); plus true is_space;
        Grp 1 (seqs [plus true not_nl; liti ".";
                     alts [liti "html"; liti "js"; liti "css"; liti "json";
                           liti "jsx"; liti "tsx"; liti "ts"]]);
        sp_star; newline; sp_star; liti "```"; opt word_plus; newline;
        lazy_body 2; liti "```"].

(** [r'```(\w+)?\n(.*?)```'] of [_infer_files_from_blocks] *)
Definition pattern_blocks : re :=
  seqs [fence; opt (Grp 1 word_plus); newline; lazy_body 2; fence].

(** The [(filename, code)] pairs [re.findall] yields for each format. *)
Definition matches1 (text : string) : list (string * string) :=
  (λ cs, (group 2 cs, group 3 cs)) <$> findall pattern1 text.
Definition matches2 (text : string) : list (string * string) :=
  (λ cs, (group 1 cs, group 2 cs)) <$> findall pattern2 text.
Definition matches3 (text : string) : list (string * string) :=
  (λ cs, (group 1 cs, group 2 cs)) <$> findall pattern3 text.
Definition matches4 (text : string) : list (string * string) :=
  (λ cs, (group 1 cs, group 2 cs)) <$> findall pattern4 text.
(** The [(lang, code)] pairs of the untagged scan. *)
Definition blocks (text : string) : list (string * string) :=
  (λ cs, (group 1 cs, group 2 cs)) <$> findall pattern_blocks text.

(** The loop body shared by the four formats:
    [files[filename.strip()] = code.strip()]. *)
Definition add_named (files : files_t) (m : string * string) : files_t :=
  Dict.set (strip m.1) (strip m.2) files.

(** ** [_infer_files_from_blocks] *)

Record counters : Type := Counters {
  html_count : nat;
  css_count : nat;
  js_count : nat;
}.

Definition str_in_list (s : string) (l : list string) : bool :=
  bool_decide (s ∈ l).

(** One iteration of the classification chain: the filename the block is
    given (if any) and the counters afterwards.  [lang] is already
    lower-cased and [code] stripped. *)
Definition infer_filename (lang code : string) (c : counters)
    : option string * counters :=
  if str_in_list lang ["html"; "htm"] || contains "<html" (lower code)
     || contains "<!DOCTYPE" code then
    (Some (if (html_count c =? 0)%nat then "index.html"
           else "page" +:+ pretty (html_count c) +:+ ".html"),
     Counters (S (html_count c)) (css_count c) (js_count c))
  else if bool_decide (lang = "css") then
    (Some (if (css_count c =? 0)%nat then "styles.css"
           else "styles" +:+ pretty (css_count c) +:+ ".css"),
     Counters (html_count c) (S (css_count c)) (js_count c))
  else if str_in_list lang ["javascript"; "js"; "jsx"] then
    (Some (if contains "export " code || contains "import " code
           then (if (js_count c =? 0)%nat then "app.js"
                 else "module" +:+ pretty (js_count c) +:+ ".js")
           else (if (js_count c =? 0)%nat then "script.js"
                 else "script" +:+ pretty (js_count c) +:+ ".js")),
     Counters (html_count c) (css_count c) (S (js_count c)))
  else if str_in_list lang ["typescript"; "ts"; "tsx"] then
    (Some ("app" +:+ (if (0 <? js_count c)%nat then pretty (js_count c) else "")
           +:+ ".ts"),
     Counters (html_count c) (css_count c) (S (js_count c)))
  else if bool_decide (lang = "json") then
    (Some "config.json", c)
  else (None, c).

Definition infer_step (st : files_t * counters) (m : string * string)
    : files_t * counters :=
  let lang := lower m.1 in
  let code := strip m.2 in
  match infer_filename lang code st.2 with
  | (Some filename, c') => (Dict.set filename code st.1, c')
  | (None, c') => (st.1, c')
  end.

Definition infer_from (ms : list (string * string)) : files_t :=
  (foldl infer_step ([], Counters 0 0 0) ms).1.

Definition _infer_files_from_blocks (text : string) : files_t :=
  infer_from (blocks text).

(** ** [_extract_files_from_response] *)

Definition named_files (text : string) : files_t :=
  foldl add_named
    (foldl add_named
       (foldl add_named
          (foldl add_named [] (matches1 text))
          (matches2 text))
       (matches3 text))
    (matches4 text).

Definition _extract_files_from_response (text : string) : files_t :=
  match named_files text with
  | [] => _infer_files_from_blocks text
  | files => files
  end.

(** ** [_determine_entry_point] and [extract_multi_file_artifact] *)

Definition _determine_entry_point (files : files_t) : string :=
  if Dict.mem "index.html" files then "index.html"
  else match filter (λ f, endswith ".html" f = true) (Dict.keys files) with
       | f :: _ => f
       | [] => match Dict.keys files with
               | f :: _ => f
               | [] => ""     (* unreachable: [files] is non-empty *)
               end
       end.

Inductive artifact : Type :=
| MultiFile (entry_point : string) (files : files_t) (directory : string)
| SingleFile (entry_point : string) (files : files_t) (content : string).

Definition is_multi_file (files : files_t) : bool :=
  (1 <? length files)%nat
  || existsb (λ content, contains "import" content || contains "require(" content)
       (Dict.values files).

(** The directory is created and the files are written as a side effect
    in the multi-file case; [base] is the text of [temp_base_dir], and the
    directory is [str(temp_base_dir / artifact_id)]. *)
Definition extract_multi_file_artifact (base : string)
    (response_text artifact_id : string) : option artifact :=
  match _extract_files_from_response response_text with
  | [] => None
  | ((filename, content) :: _) as files =>
      if is_multi_file files
      then Some (MultiFile (_determine_entry_point files) files
                   (PyPath.path_str (PyPath.join_path (PyPath.parse base) artifact_id)))
      else Some (SingleFile filename files content)
  end.

(** The filename each block of the untagged scan is given, in document
    order ([None] for a block the chain does not classify). *)
Fixpoint assigned (c : counters) (ms : list (string * string)) : list (option string) :=
  match ms with
  | [] => []
  | m :: ms' =>
      let r := infer_filename (lower m.1) (strip m.2) c in
      r.1 :: assigned r.2 ms'
  end.

Definition assigned_names (text : string) : list (option string) :=
  assigned (Counters 0 0 0) (blocks text).

Definition le_counters (c c' : counters) : Prop :=
  (html_count c ≤ html_count c')%nat ∧ (css_count c ≤ css_count c')%nat
  ∧ (js_count c ≤ js_count c')%nat.

(** The content of the last of the matches [ms] that names the file [f]. *)
Definition latest (f : string) (ms : list (string * string)) : option string :=
  (λ m, strip m.2) <$> List.find (λ m, bool_decide (strip m.1 = f)) (reverse ms).

(** ** First match wins, as the design document words it

    The files of the first of the four conventions that matches at all,
    and inference when none does. *)
Definition first_match_wins (text : string) : files_t :=
  match foldl add_named [] (matches1 text) with
  | (_ :: _) as files => files
  | [] =>
  match foldl add_named [] (matches2 text) with
  | (_ :: _) as files => files
  | [] =>
  match foldl add_named [] (matches3 text) with
  | (_ :: _) as files => files
  | [] =>
  match foldl add_named [] (matches4 text) with
  | (_ :: _) as files => files
  | [] => _infer_files_from_blocks text
  end end end end.

End ArtifactExtractor.

(* ===================================================================== *)
(** * Exceptions and the operating system *)
(* ===================================================================== *)

(** The exception classes the handlers of the sources tell apart.
    [BaseOnly] stands for a [BaseException] that is no [Exception]
    (a keyboard interrupt, a task cancellation), which [except Exception]
    lets through. *)
Inductive exn_class : Type :=
| TimeoutExpired
| FileNotFoundError
| OtherException
| BaseOnly.

Record exn : Type := Exn { exn_cls : exn_class; exn_str : string }.

Inductive res (A : Type) : Type :=
| Ret (a : A)
| Raise (e : exn).
Arguments Ret {A} a.
Arguments Raise {A} e.

(** What the operating system answers during one sandboxed execution.  The
    set of existing directories is the state; the child process runs with
    the fresh directory as its working directory and may change the set
    ([child_fs]) before it exits, fails to start or is killed. *)
Record os_run : Type := OsRun {
  node_version : option exn;                  (* [node --version], [check=True] *)
  tmp_root : string;                          (* [tempfile.gettempdir()] *)
  tmp_suffix : string;                        (* the random part of the name *)
  mkdtemp_error : option exn;
  write_error : option exn;                   (* [open] / [f.write] *)
  child_fs : gset string → gset string;
  subprocess_run : exn + (Z * string * string);   (* returncode, stdout, stderr *)
  rmtree_error : option exn;
}.

(* ===================================================================== *)
(** * llm-benchmark/src/evaluators/code_executor.py: the sandbox *)
(* ===================================================================== *)

Module Sandbox.
Import PyStr.

(** [tempfile.mkdtemp(prefix='benchmark_exec_')] *)
Definition temp_path (w : os_run) : string :=
  tmp_root w +:+ "/" +:+ "benchmark_exec_" +:+ tmp_suffix w.

Definition run_result : Type := bool * string * string.

(** The body of the outer [try] from [mkdtemp] on: its outcome, the value
    of [temp_dir] when control leaves it, and the directories then. *)
Definition try_body (w : os_run) (fs : gset string)
    : res run_result * option string * gset string :=
  match mkdtemp_error w with
  | Some e => (Raise e, None, fs)
  | None =>
      let temp_dir := temp_path w in
      let fs := {[temp_dir]} ∪ fs in
      match write_error w with
      | Some e => (Raise e, Some temp_dir, fs)
      | None =>
          let fs := child_fs w fs in
          match subprocess_run w with
          | inl e => (Raise e, Some temp_dir, fs)
          | inr (returncode, stdout, stderr) =>
              (Ret (bool_decide (returncode = 0%Z), stdout, stderr), Some temp_dir, fs)
          end
      end
  end.

(** The [finally] clause: [shutil.rmtree] inside [try: ... except: pass]. *)
Definition cleanup (w : os_run) (temp_dir : option string) (fs : gset string)
    : gset string :=
  match temp_dir with
  | Some d =>
      if truthy d && bool_decide (d ∈ fs) then
        match rmtree_error w with
        | None => fs ∖ {[d]}
        | Some _ => fs
        end
      else fs
  | None => fs
  end.

Definition timed_out (timeout : Z) : run_result :=
  (false, "", "Execution timed out after " +:+ pretty timeout +:+ " seconds").

Definition python_handlers (timeout : Z) (r : res run_result) : res run_result :=
  match r with
  | Ret v => Ret v
  | Raise e =>
      match exn_cls e with
      | TimeoutExpired => Ret (timed_out timeout)
      | BaseOnly => Raise e
      | _ => Ret (false, "", exn_str e)
      end
  end.

Definition javascript_handlers (timeout : Z) (r : res run_result) : res run_result :=
  match r with
  | Ret v => Ret v
  | Raise e =>
      match exn_cls e with
      | FileNotFoundError => Ret (false, "", "Node.js is not installed or not in PATH")
      | TimeoutExpired => Ret (timed_out timeout)
      | BaseOnly => Raise e
      | OtherException => Ret (false, "", exn_str e)
      end
  end.

Definition _execute_python (timeout : Z) (code : string) (w : os_run)
    (fs : gset string) : res run_result * gset string :=
  let '(r, temp_dir, fs1) := try_body w fs in
  (python_handlers timeout r, cleanup w temp_dir fs1).

Definition _execute_javascript (timeout : Z) (code : string) (w : os_run)
    (fs : gset string) : res run_result * gset string :=
  let '(r, temp_dir, fs1) :=
    match node_version w with
    | Some e => (Raise e, None, fs)
    | None => try_body w fs
    end in
  (javascript_handlers timeout r, cleanup w temp_dir fs1).

(** [_validate_html] *)
Definition required_tags : list string := ["<html"; "</html>"; "<body"; "</body>"].

Definition _validate_html (code : string) : run_result :=
  let code_lower := lower code in
  let missing_tags := filter (λ tag, contains tag code_lower = false) required_tags in
  match missing_tags with
  | _ :: _ => (false, "", "Missing required HTML tags: " +:+ join ", " missing_tags)
  | [] =>
      match find "<body" code_lower, find "</body>" code_lower with
      | Some i, Some j =>
          if (j <? i)%nat
          then (false, "", "Invalid HTML structure: closing body tag before opening")
          else (true, "HTML structure is valid", "")
      | _, _ => (true, "HTML structure is valid", "")   (* unreachable: both tags are present *)
      end
  end.

End Sandbox.

(* ===================================================================== *)
(** * llm-benchmark/src/evaluators/code_executor.py: extraction and scoring *)
(* ===================================================================== *)

(** The fields of [src.schemas] the evaluator reads or writes.  The
    [details] map and the timestamp of an [Evaluation] are left out: no
    decision of the code depends on them. *)
Record Question : Type := {
  q_id : string;
  expected_output : option string;
  expected_files : option (list string);   (* [metadata.get('expected_files')] *)
}.

Record ModelResponse : Type := {
  model_name : string;
  response_text : option string;
  error : option string;
}.

Record Evaluation : Type := {
  ev_question_id : string;
  ev_model_name : string;
  score : Z;
  passed : bool;
  evaluation_type : string;
  reasoning : string;
}.

(** The environment of one [evaluate] call. *)
Record world : Type := {
  os : os_run;
  dirs : gset string;                 (* the directories that exist at the call *)
  materialize_error : option exn;     (* writing a multi-file artifact to disk *)
}.

Module CodeExecutor.
Import PyStr Re.
Import ArtifactExtractor Sandbox.

(** ** [_extract_code] *)

(** [r'```(\w+)?\s*\n(.*?)```'] *)
Definition pattern1 : re :=
  seqs [fence; opt (Grp 1 word_plus); sp_star; newline; lazy_body 2; fence].

(** [r'```(\w+)?\s*(.*?)```'] *)
Definition pattern2 : re :=
  seqs [fence; opt (Grp 1 word_plus); sp_star; lazy_body 2; fence].

Definition lang_code (r : re) (text : string) : list (string * string) :=
  (λ cs, (group 1 cs, group 2 cs)) <$> findall r text.

Record block_lists : Type := Blocks {
  html_blocks : list string;
  css_blocks : list string;
  js_blocks : list string;
  python_blocks : list string;
  other_blocks : list (string * string);
}.

Definition looks_html (code : string) : bool :=
  contains "<html" (lower code) || contains "<!DOCTYPE" code.

(** The body of [for lang, code in matches]. *)
Definition categorize (b : block_lists) (m : string * string) : block_lists :=
  let lang := lower m.1 in
  let code := strip m.2 in
  if negb (truthy code) then b
  else if str_in_list lang ["html"; "htm"] || looks_html code then
    Blocks (html_blocks b ++ [code]) (css_blocks b) (js_blocks b) (python_blocks b) (other_blocks b)
  else if str_in_list lang ["css"] then
    Blocks (html_blocks b) (css_blocks b ++ [code]) (js_blocks b) (python_blocks b) (other_blocks b)
  else if str_in_list lang ["javascript"; "js"] then
    Blocks (html_blocks b) (css_blocks b) (js_blocks b ++ [code]) (python_blocks b) (other_blocks b)
  else if str_in_list lang ["python"; "py"] then
    Blocks (html_blocks b) (css_blocks b) (js_blocks b) (python_blocks b ++ [code]) (other_blocks b)
  else if negb (truthy lang) then
    if looks_html code then
      Blocks (html_blocks b ++ [code]) (css_blocks b) (js_blocks b) (python_blocks b) (other_blocks b)
    else if contains "def " code || contains "import " code || contains "print(" code then
      Blocks (html_blocks b) (css_blocks b) (js_blocks b) (python_blocks b ++ [code]) (other_blocks b)
    else if contains "function" code || contains "const " code
            || contains "let " code || contains "var " code then
      Blocks (html_blocks b) (css_blocks b) (js_blocks b ++ [code]) (python_blocks b) (other_blocks b)
    else
      Blocks (html_blocks b) (css_blocks b) (js_blocks b) (python_blocks b)
        (other_blocks b ++ [(lang, code)])
  else b.

Definition dq : string := String (ascii_of_nat 34) EmptyString.

(** A complete document among the HTML blocks, with the separately fenced
    stylesheets and scripts injected. *)
Definition inject (html : string) (css js : list string) : string :=
  let result := html in
  let result :=
    if negb (bool_decide (css = [])) && negb (contains "<style>" (lower html)) then
      let style_tag := "<style>" +:+ nl +:+ join nl css +:+ nl +:+ "</style>" in
      if contains "</head>" (lower html)
      then replace "</head>" (style_tag +:+ nl +:+ "</head>") result
      else replace "<html>"
             ("<html>" +:+ nl +:+ "<head>" +:+ nl +:+ style_tag +:+ nl +:+ "</head>") result
    else result in
  if negb (bool_decide (js = [])) && negb (contains "<script>" (lower html)) then
    let script_tag := "<script>" +:+ nl +:+ join nl js +:+ nl +:+ "</script>" in
    if contains "</body>" (lower html)
    then replace "</body>" (script_tag +:+ nl +:+ "</body>") result
    else result +:+ nl +:+ script_tag
  else result.

(** The wrapper around partial HTML. *)
Definition wrap_partial (html css js : list string) : string :=
  let html_content := join nl html in
  let css_content := join nl css in
  let js_content := join nl js in
  join nl
    ["<!DOCTYPE html>"; "<html>"; "<head>";
     "    <meta charset=" +:+ dq +:+ "UTF-8" +:+ dq +:+ ">";
     "    " +:+ (if truthy css_content then "<style>" +:+ css_content +:+ "</style>" else "");
     "</head>"; "<body>";
     "    " +:+ html_content;
     "    " +:+ (if truthy js_content then "<script>" +:+ js_content +:+ "</script>" else "");
     "</body>"; "</html>"].

Definition wrap_css (css : list string) : string :=
  join nl
    ["<!DOCTYPE html>"; "<html>"; "<head>";
     "    <style>" +:+ join nl css +:+ "</style>";
     "</head>"; "<body>"; "    <div>Styles loaded</div>"; "</body>"; "</html>"].

Definition combine (b : block_lists) : option string * option string :=
  match html_blocks b with
  | _ :: _ =>
      match List.find (λ html, contains "<html" (lower html)
                               || contains "<!DOCTYPE" (lower html)) (html_blocks b) with
      | Some html => (Some (inject html (css_blocks b) (js_blocks b)), Some "html")
      | None => (Some (wrap_partial (html_blocks b) (css_blocks b) (js_blocks b)), Some "html")
      end
  | [] =>
  match python_blocks b with
  | _ :: _ => (Some (join (nl +:+ nl) (python_blocks b)), Some "python")
  | [] =>
  match js_blocks b with
  | _ :: _ => (Some (join (nl +:+ nl) (js_blocks b)), Some "javascript")
  | [] =>
  match css_blocks b with
  | _ :: _ => (Some (wrap_css (css_blocks b)), Some "html")
  | [] =>
  match other_blocks b with
  | (lang, code) :: _ => (Some code, Some (if truthy lang then lang else "unknown"))
  | [] => (None, None)
  end end end end end.

(** Whole-text sniffing when the text has no fenced block. *)
Definition sniff (text : string) : option string * option string :=
  if contains "<html" (lower text) || contains "<!doctype html" (lower text) then
    (Some (strip text), Some "html")
  else if contains "def " text || contains "import " text || contains "class " text then
    (Some (strip text), Some "python")
  else if contains "function " text || contains "const " text
          || contains "let " text || contains "var " text then
    (Some (strip text), Some "javascript")
  else (None, None).

Definition _extract_code (text : string) : option string * option string :=
  if negb (truthy text) then (None, None)
  else
    let matches :=
      match lang_code pattern1 text with
      | [] => lang_code pattern2 text
      | ms => ms
      end in
    match matches with
    | [] => sniff text
    | _ => combine (foldl categorize (Blocks [] [] [] [] []) matches)
    end.

(** ** [_evaluate_multi_file_artifact] *)

Definition multi_file_components (question : Question) (entry_point : string)
    (files : files_t) : list Z * list string :=
  let expected := default [] (expected_files question) in
  let missing_files := filter (λ f, Dict.mem f files = false) expected in
  let score_components := [] in
  let issues := [] in
  (* 1. Has entry point HTML file (30 points) *)
  let '(score_components, issues) :=
    if endswith ".html" entry_point
    then (score_components ++ [30%Z], issues)
    else (score_components, issues ++ ["No HTML entry point found"]) in
  (* 2. Files are properly linked (30 points) *)
  let '(score_components, issues) :=
    match Dict.get entry_point files with
    | Some html_content =>
        let css_files := filter (λ f, endswith ".css" f = true) (Dict.keys files) in
        let js_files :=
          filter (λ f, endswith ".js" f || endswith ".jsx" f = true) (Dict.keys files) in
        let css_unlinked := filter (λ f, contains f html_content = false) css_files in
        let js_unlinked := filter (λ f, contains f html_content = false) js_files in
        let css_linked_correctly := bool_decide (css_unlinked = []) in
        let js_linked_correctly := bool_decide (js_unlinked = []) in
        let issues :=
          issues
          ++ ((λ f, "CSS file '" +:+ f +:+ "' not linked in HTML") <$> css_unlinked)
          ++ ((λ f, "JS file '" +:+ f +:+ "' not linked in HTML") <$> js_unlinked) in
        if css_linked_correctly && js_linked_correctly
        then (score_components ++ [30%Z], issues)
        else if css_linked_correctly || js_linked_correctly
        then (score_components ++ [15%Z], issues)
        else (score_components, issues)
    | None => (score_components, issues)
    end in
  (* 3. Has required files (20 points) *)
  let '(score_components, issues) :=
    if bool_decide (missing_files = [])
    then (score_components ++ [20%Z], issues)
    else if (length missing_files <? length expected)%nat
    then (score_components ++ [10%Z], issues)
    else (score_components,
          issues ++ ["Missing expected files: " +:+ join ", " missing_files]) in
  (* 4. Proper file structure (20 points) *)
  if (1 <? length files)%nat && (length files <=? 10)%nat
  then (score_components ++ [20%Z], issues)
  else if (10 <? length files)%nat
  then (score_components ++ [10%Z], issues ++ ["Excessive number of files (>10)"])
  else (score_components, issues).

Definition sum (l : list Z) : Z := foldr Z.add 0%Z l.

Definition _evaluate_multi_file_artifact (question : Question)
    (response : ModelResponse) (entry_point : string) (files : files_t)
    : Evaluation :=
  let '(score_components, issues) := multi_file_components question entry_point files in
  let total_score := sum score_components in
  let passed := bool_decide (70 ≤ total_score)%Z in
  let reasoning :=
    if passed then
      "Multi-file application validated successfully. " +:+ pretty (length files)
      +:+ " files generated and properly structured."
    else
      "Multi-file application has issues: "
      +:+ (match issues with [] => "Score below threshold" | _ => join "; " issues end) in
  {| ev_question_id := q_id question;
     ev_model_name := model_name response;
     score := total_score;
     passed := passed;
     evaluation_type := "code_execution_multi_file";
     reasoning := reasoning |}.

(** ** [evaluate] *)

Definition single (question : Question) (response : ModelResponse)
    (sc : Z) (ok : bool) (why : string) : Evaluation :=
  {| ev_question_id := q_id question;
     ev_model_name := model_name response;
     score := sc;
     passed := ok;
     evaluation_type := "code_execution";
     reasoning := why |}.

(** The three-way dispatch on the language; [None] is the branch that
    reports the language as unsupported. *)
Definition execute (timeout : Z) (w : world) (language code : string)
    : option (res run_result) :=
  if str_in_list language ["python"; "py"] then
    Some (_execute_python timeout code (os w) (dirs w)).1
  else if str_in_list language ["javascript"; "js"] then
    Some (_execute_javascript timeout code (os w) (dirs w)).1
  else if str_in_list language ["html"; "htm"] then
    Some (Ret (_validate_html code))
  else None.

(** From "Calculate score based on execution result" to the end. *)
Definition judge (question : Question) (response : ModelResponse)
    (language : string) (r : run_result) : Evaluation :=
  let '(success, output, err) := r in
  let '(sc, why, ok) :=
    if success
    then (100%Z, "Code executed successfully (" +:+ language +:+ ")", true)
    else (0%Z, "Code execution failed: " +:+ err, false) in
  let '(sc, why, ok) :=
    if success && truthy_opt (expected_output question) then
      if contains (strip (default "" (expected_output question))) (strip output)
      then (100%Z, "Code executed successfully and output matches expected", ok)
      else (50%Z, "Code executed but output doesn't match expected", false)
    else (sc, why, ok) in
  single question response sc ok why.

Definition no_code_reasoning (text : string) : string :=
  "No code block found in response. "
  +:+ (if negb (truthy text) then "Response is empty."
       else if contains "```" text
       then "Response contains ``` but code extraction failed. Check formatting."
       else "Response does not contain markdown code blocks (```).").

Definition artifact_id (question : Question) (response : ModelResponse) : string :=
  replace "/" "_" ("eval_" +:+ q_id question +:+ "_" +:+ model_name response).

Definition evaluate (timeout : Z) (base : string) (w : world)
    (question : Question) (response : ModelResponse) : res Evaluation :=
  if truthy_opt (error response) then
    Ret (single question response 0 false
           ("Response failed with error: " +:+ default "" (error response)))
  else if negb (truthy_opt (response_text response)) then
    Ret (single question response 0 false "Response text is empty or None")
  else
    let text := default "" (response_text response) in
    match extract_multi_file_artifact base text (artifact_id question response) with
    | Some (MultiFile entry_point files _) =>
        match materialize_error w with
        | Some e => Raise e
        | None => Ret (_evaluate_multi_file_artifact question response entry_point files)
        end
    | _ =>
        let '(code, language) := _extract_code text in
        if negb (truthy_opt code) then
          Ret (single question response 0 false (no_code_reasoning text))
        else
          let code := default "" code in
          let language := default "None" language in
          match execute timeout w language code with
          | None =>
              Ret (single question response 0 false ("Unsupported language: " +:+ language))
          | Some (Raise e) => Raise e
          | Some (Ret r) => Ret (judge question response language r)
          end
    end.

End CodeExecutor.

(* ===================================================================== *)
(** * src/job_runner.py *)
(* ===================================================================== *)

Module JobRunner.
Import PyStr.

Inductive JobStatus : Type := PENDING | RUNNING | COMPLETED | FAILED | CANCELLED.

Global Instance JobStatus_eq_dec : EqDecision JobStatus.
Proof. solve_decision. Defined.

Definition terminal (s : JobStatus) : bool :=
  match s with
  | COMPLETED | FAILED | CANCELLED => true
  | PENDING | RUNNING => false
  end.

Record JobProgress : Type := Progress {
  current : nat;
  total : nat;
  current_question : string;
  p_status : JobStatus;
  p_error : option string;
}.

Record ComparativeJudgeJob : Type := Job {
  job_id : string;
  run_ids : list string;
  question_ids : list string;
  created_at : string;
  status : JobStatus;
  progress : JobProgress;
  results_path : option string;
}.

(** A [JobRunner].  Job objects live in [heap] and are shared by
    reference: the registry [jobs] maps an id to a reference, and a running
    [run_job] coroutine keeps the reference it looked up on entry.
    [running_tasks] maps an id to the handle of the task [start_job] made
    for it; [cancel_requested] holds the handles [task.cancel()] was
    called on. *)
Record runner : Type := Runner {
  results_dir : string;
  heap : list ComparativeJudgeJob;
  jobs : gmap string nat;
  running_tasks : gmap string nat;
  next_task : nat;
  cancel_requested : gset nat;
}.

Definition new_runner (results_dir : string) : runner :=
  Runner results_dir [] ∅ ∅ 0 ∅.

(** [self.jobs.get(job_id)]: the reference and the object behind it. *)
Definition get_job (r : runner) (id : string) : option (nat * ComparativeJudgeJob) :=
  ref ← jobs r !! id; job ← heap r !! ref; Some (ref, job).

Definition job_status (r : runner) (id : string) : option JobStatus :=
  (λ p, status p.2) <$> get_job r id.

Definition set_heap (r : runner) (h : list ComparativeJudgeJob) : runner :=
  Runner (results_dir r) h (jobs r) (running_tasks r) (next_task r) (cancel_requested r).

(** [job.status = s; job.progress.status = s] on the object at [ref]. *)
Definition set_status (s : JobStatus) (job : ComparativeJudgeJob) : ComparativeJudgeJob :=
  Job (job_id job) (run_ids job) (question_ids job) (created_at job) s
    (Progress (current (progress job)) (total (progress job))
       (current_question (progress job)) s (p_error (progress job)))
    (results_path job).

Definition update (ref : nat) (f : ComparativeJudgeJob → ComparativeJudgeJob)
    (r : runner) : runner :=
  match heap r !! ref with
  | Some job => set_heap r (<[ref := f job]> (heap r))
  | None => r
  end.

(** [create_job]; [stamp] is [datetime.now().strftime("%Y%m%d_%H%M%S_%f")]
    and [iso] is [datetime.now().isoformat()]. *)
Definition create_job (stamp iso : string) (run_ids question_ids : list string)
    (r : runner) : string * runner :=
  let job_id := "comp_judge_" +:+ stamp in
  let job :=
    Job job_id run_ids question_ids iso PENDING
      (Progress 0 (length question_ids) "" PENDING None) None in
  (job_id,
   Runner (results_dir r) (heap r ++ [job]) (<[job_id := length (heap r)]> (jobs r))
     (running_tasks r) (next_task r) (cancel_requested r)).

(** [start_job]: the task is created and registered; the body of
    [run_job] runs when the event loop steps the task. *)
Definition start_job (job_id : string) (r : runner) : nat * runner :=
  (next_task r,
   Runner (results_dir r) (heap r) (jobs r)
     (<[job_id := next_task r]> (running_tasks r)) (S (next_task r))
     (cancel_requested r)).

(** [_save_job_metadata]: nothing is written while [results_path] is
    unset; otherwise the write may fail. *)
Definition _save_job_metadata (write_error : option exn) (job : ComparativeJudgeJob)
    : option exn :=
  if truthy_opt (results_path job) then write_error else None.

(** [cancel_job] *)
Definition cancel_job (id : string) (write_error : option exn) (r : runner)
    : res bool * runner :=
  match get_job r id with
  | None => (Ret false, r)
  | Some (ref, job) =>
      if negb (bool_decide (status job = RUNNING)) then (Ret false, r)
      else
        match running_tasks r !! id with
        | Some task =>
            let r :=
              Runner (results_dir r) (<[ref := set_status CANCELLED job]> (heap r))
                (jobs r) (running_tasks r) (next_task r)
                ({[task]} ∪ cancel_requested r) in
            match _save_job_metadata write_error (set_status CANCELLED job) with
            | Some e => (Raise e, r)
            | None => (Ret true, r)
            end
        | None => (Ret false, r)
        end
  end.

(** The [except Exception] clause of [run_job] for the object at [ref]. *)
Definition fail_job (ref : nat) (e : exn) (write_error : option exn) (r : runner)
    : res unit * runner :=
  match exn_cls e with
  | BaseOnly => (Raise e, r)
  | _ =>
      let r :=
        update ref (λ job,
          let job := set_status FAILED job in
          Job (job_id job) (run_ids job) (question_ids job) (created_at job)
            (status job)
            (Progress (current (progress job)) (total (progress job))
               (current_question (progress job)) (p_status (progress job))
               (Some (exn_str e)))
            (results_path job)) r in
      match heap r !! ref with
      | Some job =>
          match _save_job_metadata write_error job with
          | Some e' => (Raise e', r)
          | None => (Ret (), r)
          end
      | None => (Ret (), r)
      end
  end.

(** What happens to the file system while [run_job] runs up to its
    [await]. *)
Record io_begin : Type := {
  mkdir_error : option exn;
  save_error : option exn;          (* the first [_save_job_metadata] *)
  handler_save_error : option exn;  (* the one of the [except] clause *)
}.

Inductive begin_outcome : Type :=
| Suspended (ref : nat)       (* awaiting [asyncio.gather] with [job] = [ref] *)
| Returned
| Raised (e : exn).

(** [run_job] from its entry to [await asyncio.gather(...)]. *)
Definition run_job_begin (id : string) (io : io_begin) (r : runner)
    : begin_outcome * runner :=
  match get_job r id with
  | None => (Raised (Exn OtherException ("Job " +:+ id +:+ " not found")), r)
  | Some (ref, _) =>
      let r := update ref (set_status RUNNING) r in
      let results_path :=
        PyPath.path_str
          (PyPath.join_path
             (PyPath.join_path (PyPath.parse (results_dir r)) "comparative_judge") id) in
      let failed r e :=
        match fail_job ref e (handler_save_error io) r with
        | (Ret _, r) => (Returned, r)
        | (Raise e', r) => (Raised e', r)
        end in
      match mkdir_error io with
      | Some e => failed r e
      | None =>
          let r :=
            update ref (λ job,
              Job (job_id job) (run_ids job) (question_ids job) (created_at job)
                (status job) (progress job) (Some results_path)) r in
          match save_error io with
          | Some e => failed r e
          | None => (Suspended ref, r)
          end
      end
  end.

(** What the coroutine meets when it is resumed: the exception thrown into
    it at the [await] (a cancellation), or the gathered results followed
    by the two writes. *)
Record io_resume : Type := {
  thrown : option exn;
  leaderboard_error : option exn;
  final_save_error : option exn;
  handler_save_error' : option exn;
}.

(** [run_job] from the [await] to its end, on the job object [ref]. *)
Definition run_job_resume (ref : nat) (io : io_resume) (r : runner)
    : res unit * runner :=
  match thrown io with
  | Some e => fail_job ref e (handler_save_error' io) r
  | None =>
      let r :=
        update ref (λ job,
          Job (job_id job) (run_ids job) (question_ids job) (created_at job)
            (status job)
            (Progress (length (question_ids job)) (total (progress job))
               (List.last (question_ids job) (current_question (progress job)))
               (p_status (progress job)) (p_error (progress job)))
            (results_path job)) r in
      match leaderboard_error io with
      | Some e => fail_job ref e (handler_save_error' io) r
      | None =>
          let r := update ref (set_status COMPLETED) r in
          match final_save_error io with
          | Some e => fail_job ref e (handler_save_error' io) r
          | None => (Ret (), r)
          end
      end
  end.

(** ** Sequences of orchestrator operations *)

Inductive op : Type :=
| Create (stamp iso : string) (run_ids question_ids : list string)
| Start (id : string)
| RunBegin (id : string) (io : io_begin)
| RunResume (ref : nat) (io : io_resume)
| Cancel (id : string) (write_error : option exn).

Definition step (r : runner) (o : op) : runner :=
  match o with
  | Create stamp iso run_ids question_ids => (create_job stamp iso run_ids question_ids r).2
  | Start id => (start_job id r).2
  | RunBegin id io => (run_job_begin id io r).2
  | RunResume ref io => (run_job_resume ref io r).2
  | Cancel id we => (cancel_job id we r).2
  end.

Definition steps (r : runner) (ops : list op) : runner := foldl step r ops.

(** The operation leaves the job registered under [id] (object [ref])
    alone: it is no step of a [run_job] on that job, and no [create_job]
    that reuses the id. *)
Definition spares (id : string) (ref : nat) (o : op) : bool :=
  match o with
  | Create stamp _ _ _ => negb (bool_decide ("comp_judge_" +:+ stamp = id))
  | Start _ => true
  | RunBegin id' _ => negb (bool_decide (id' = id))
  | RunResume ref' _ => negb (bool_decide (ref' = ref))
  | Cancel _ _ => true
  end.

(** The registry invariant: references point into the heap and no two
    ids share a job object. *)
Definition wf (r : runner) : Prop :=
  (∀ id ref, jobs r !! id = Some ref → ref < length (heap r))
  ∧ (∀ id1 id2 ref, jobs r !! id1 = Some ref → jobs r !! id2 = Some ref → id1 = id2).

(** [r'] differs from [r] at most in the job object [ref]. *)
Definition same_except (ref : nat) (r r' : runner) : Prop :=
  jobs r' = jobs r
  ∧ length (heap r') = length (heap r)
  ∧ ∀ ref', ref' ≠ ref → heap r' !! ref' = heap r !! ref'.

(** ** Python numbers *)

(** Python floats are IEEE 754 binary64 numbers. *)
Definition prec : Z := 53.
Definition emax : Z := 1024.

(** An [int] (of any size) or a [float]. *)
Inductive number : Type :=
| Int (z : Z)
| Float (f : spec_float).

(** An int as the pair of operands the division rounds: sign, magnitude,
    exponent 0. *)
Definition of_int (z : Z) : spec_float :=
  match z with
  | Z0 => S754_zero false
  | Zpos p => S754_finite false p 0
  | Zneg p => S754_finite true p 0
  end.

(** A float that is neither an infinity nor a NaN. *)
Definition finite (f : spec_float) : bool :=
  match f with
  | S754_zero _ | S754_finite _ _ _ => true
  | _ => false
  end.

(** Python's [a / b] on two ints: [ZeroDivisionError] for a zero divisor;
    otherwise the float nearest to the exact quotient (ties to even), and
    [OverflowError] when that is outside the range of floats. *)
Definition true_div (a b : Z) : res spec_float :=
  if (b =? 0)%Z then Raise (Exn OtherException "division by zero")
  else
    let f := SFdiv prec emax (of_int a) (of_int b) in
    if finite f then Ret f
    else Raise (Exn OtherException "integer division result too large for a float").

(** The exact value of a number, which is what Python's comparisons
    compare. *)
Inductive exact : Type :=
| NegInf
| Rational (q : Q)
| PosInf
| NotANumber.

Definition value (x : number) : exact :=
  match x with
  | Int z => Rational (inject_Z z)
  | Float (S754_zero _) => Rational 0
  | Float (S754_infinity s) => if s then NegInf else PosInf
  | Float S754_nan => NotANumber
  | Float (S754_finite s m e) =>
      Rational ((if s then inject_Z (Zneg m) else inject_Z (Zpos m)) * 2 ^ e)
  end.

(** [None] when one of the two is a NaN: every comparison is then false. *)
Definition num_compare (a b : number) : option comparison :=
  match value a, value b with
  | NotANumber, _ | _, NotANumber => None
  | Rational p, Rational q => Some (p ?= q)%Q
  | NegInf, NegInf | PosInf, PosInf => Some Eq
  | NegInf, _ | _, PosInf => Some Lt
  | _, NegInf | PosInf, _ => Some Gt
  end.

(** [a < b], [a <= b] and [a == b] *)
Definition num_lt (a b : number) : bool :=
  match num_compare a b with Some Lt => true | _ => false end.


Definition num_eq (a b : number) : bool :=
  match num_compare a b with Some Eq => true | _ => false end.

(** ** [_calculate_leaderboard] *)

(** One model's entry of a per-question result map: [result['score']] and
    [result.get('passed', False)].  Scores are Python ints, as the
    evaluators of this repository produce them (0, 50, 100 and the sums of
    the multi-file components); float scores are outside this model. *)
Record result : Type := Result { r_score : Z; r_passed : bool }.

Record model_data : Type := Data { scores : list Z; passed_count : nat }.

Record entry : Type := Entry {
  e_model_name : string;
  average_score : number;
  total_questions : nat;
  e_passed_count : nat;
  pass_rate : number;
}.

(** [sum(scores)]: exact on ints. *)
Definition sum_scores (l : list Z) : Z := foldl Z.add 0%Z l.

(** The body of the inner aggregation loop. *)
Definition add_result (model_scores : list (string * model_data))
    (mr : string * result) : list (string * model_data) :=
  let model_scores :=
    if Dict.mem mr.1 model_scores then model_scores
    else Dict.set mr.1 (Data [] 0) model_scores in
  match Dict.get mr.1 model_scores with
  | Some d =>
      Dict.set mr.1
        (Data (scores d ++ [r_score mr.2])
           (if r_passed mr.2 then S (passed_count d) else passed_count d))
        model_scores
  | None => model_scores
  end.

Definition aggregate (all_results : list (string * list (string * result)))
    : list (string * model_data) :=
  foldl (λ ms qr, foldl add_result ms qr.2) [] all_results.

(** [x / len(scores) if scores else 0] *)
Definition over_len (x : Z) (n : nat) : res number :=
  if (0 <? n)%nat then
    match true_div x (Z.of_nat n) with
    | Ret f => Ret (Float f)
    | Raise e => Raise e
    end
  else Ret (Int 0).

Definition build_entry (md : string * model_data) : res entry :=
  let n := length (scores md.2) in
  match over_len (sum_scores (scores md.2)) n with
  | Raise e => Raise e
  | Ret avg =>
      match over_len (Z.of_nat (passed_count md.2)) n with
      | Raise e => Raise e
      | Ret rate => Ret (Entry md.1 avg n (passed_count md.2) rate)
      end
  end.

Fixpoint build_entries (l : list (string * model_data)) : res (list entry) :=
  match l with
  | [] => Ret []
  | md :: l' =>
      match build_entry md with
      | Raise e => Raise e
      | Ret e =>
          match build_entries l' with
          | Raise e' => Raise e'
          | Ret es => Ret (e :: es)
          end
      end
  end.

(** [list.sort(key=average_score, reverse=True)]: stable, so an entry
    stays ahead of the later entries with the same key.  The keys are
    quotients of ints or the int 0, never a NaN, so they are totally
    ordered and the sorted list is determined by this. *)
Fixpoint insert_desc (x : entry) (l : list entry) : list entry :=
  match l with
  | [] => [x]
  | y :: l' =>
      if num_lt (average_score x) (average_score y) then y :: insert_desc x l'
      else x :: y :: l'
  end.

Definition sort_desc (l : list entry) : list entry := foldr insert_desc [] l.

Definition _calculate_leaderboard (all_results : list (string * list (string * result)))
    : res (list entry) :=
  match build_entries (aggregate all_results) with
  | Raise e => Raise e
  | Ret leaderboard => Ret (sort_desc leaderboard)
  end.

(** The results of one model in a list of [(model, result)] pairs, and
    over all questions, in iteration order. *)
Definition by_model (m : string) (flat : list (string * result)) : list result :=
  (λ mr, mr.2) <$> filter (λ mr, mr.1 = m) flat.

Definition results_of (m : string) (all_results : list (string * list (string * result)))
    : list result :=
  by_model m (concat (all_results.*2)).

(** How many of the results passed. *)
Definition passes (rs : list result) : nat :=
  length (filter (λ r, r_passed r = true) rs).



End JobRunner.

(* ===================================================================== *)
(** * Concrete inputs *)
(* ===================================================================== *)

Module Scenarios.
Import PyStr ArtifactExtractor JobRunner.

Definition lines (l : list string) : string := join nl l.

(** A response with one fenced block tagged [prolog]. *)
Definition prolog_text : string :=
  lines ["Here:"; "```prolog"; "foo(bar)."; "```"].

(** The scenario of the design document: a Python block printing [hi]. *)
Definition python_text : string :=
  lines ["Here:"; "```python"; "print('hi')"; "```"].

(** A block named through its language tag, then one named by a heading. *)
Definition mixed_text : string :=
  lines ["```html:index.html"; "<p>hi</p>"; "```";
         "### app.js"; "```js"; "let x = 1;"; "```"].

(** Two JSON blocks with no filename hint. *)
Definition two_json_text : string :=
  lines ["```json"; "{}"; "```"; "```json"; "[1]"; "```"].

(** Two pages, a stylesheet and two scripts with no filename hint. *)
Definition site_text : string :=
  lines ["```html"; "<p>one</p>"; "```"; "```html"; "<p>two</p>"; "```";
         "```css"; "p {}"; "```"; "```js"; "f()"; "```"; "```js"; "g()"; "```"].

Definition quiet_os (stdout : string) : os_run :=
  {| node_version := None; tmp_root := "/tmp"; tmp_suffix := "k3x9";
     mkdtemp_error := None; write_error := None; child_fs := λ fs, fs;
     subprocess_run := inr (0%Z, stdout, ""); rmtree_error := None |}.

(** The child process exits normally but the directory cannot be removed
    afterwards (the script took away the permissions of a subdirectory it
    made). *)
Definition stuck_os : os_run :=
  {| node_version := None; tmp_root := "/tmp"; tmp_suffix := "k3x9";
     mkdtemp_error := None; write_error := None; child_fs := λ fs, fs;
     subprocess_run := inr (0%Z, "", "");
     rmtree_error := Some (Exn OtherException "[Errno 13] Permission denied") |}.

(** The child process is killed after the time limit. *)
Definition slow_os : os_run :=
  {| node_version := None; tmp_root := "/tmp"; tmp_suffix := "k3x9";
     mkdtemp_error := None; write_error := None; child_fs := λ fs, fs;
     subprocess_run := inl (Exn TimeoutExpired "timed out");
     rmtree_error := None |}.

(** [node] is not installed. *)
Definition no_node_os : os_run :=
  {| node_version := Some (Exn FileNotFoundError "[Errno 2] No such file or directory: 'node'");
     tmp_root := "/tmp"; tmp_suffix := "k3x9";
     mkdtemp_error := None; write_error := None; child_fs := λ fs, fs;
     subprocess_run := inr (0%Z, "", ""); rmtree_error := None |}.

Definition quiet_world (stdout : string) : world :=
  {| os := quiet_os stdout; dirs := ∅; materialize_error := None |}.

Definition hi_question : Question :=
  {| q_id := "q1"; expected_output := Some "hi"; expected_files := None |}.

Definition answer (text : string) : ModelResponse :=
  {| model_name := "m"; response_text := Some text; error := None |}.

Definition site_files : files_t :=
  [("styles.css", "p {}");
   ("index.html", "<link href='styles.css'><script src='app.js'></script>");
   ("app.js", "f()")].

Definition no_io : io_begin :=
  {| mkdir_error := None; save_error := None; handler_save_error := None |}.
Definition finish : io_resume :=
  {| thrown := None; leaderboard_error := None; final_save_error := None;
     handler_save_error' := None |}.

(** One job created, run and completed. *)
Definition one_completed : list op :=
  [Create "20240101_000000_000001" "2024-01-01T00:00:00" ["r1"; "r2"] ["q1"];
   RunBegin "comp_judge_20240101_000000_000001" no_io;
   RunResume 0 finish].

(** Operations that are no step of a run of that job. *)
Definition bystanders : list op :=
  [Start "comp_judge_20240101_000000_000001";
   Cancel "comp_judge_20240101_000000_000001" None;
   Create "20240101_000000_000002" "2024-01-01T00:00:00" ["r1"] ["q2"];
   RunBegin "comp_judge_20240101_000000_000002" no_io;
   Cancel "comp_judge_20240101_000000_000002" None;
   RunResume 1 finish].

(** A job created, started and suspended at its [await]. *)
Definition running_one : runner :=
  steps (new_runner "results")
    [Create "20240101_000000_000001" "2024-01-01T00:00:00" ["r1"] ["q1"];
     Start "comp_judge_20240101_000000_000001";
     RunBegin "comp_judge_20240101_000000_000001" no_io].

Definition sample_results : list (string * list (string * result)) :=
  [("q1", [("a", Result 50 true); ("b", Result 100 true)]);
   ("q2", [("a", Result 0 false); ("b", Result 100 false)])].

(** The floats [100.0], [25.0] and [0.5]. *)
Definition hundred : spec_float := S754_finite false 7036874417766400 (-46).
Definition twenty_five : spec_float := S754_finite false 7036874417766400 (-48).
Definition half : spec_float := S754_finite false 4503599627370496 (-53).

End Scenarios.

(* ===================================================================== *)
(** * src/artifact_extractor.py: inference and the single-page fallback *)
(* ===================================================================== *)

Module Combine.
Import PyStr ArtifactExtractor.

(** The test of the first branch of the classification chain of
    [_infer_files_from_blocks], on the lower-cased tag and the stripped
    code. *)
Definition html_kind (lang code : string) : bool :=
  str_in_list lang ["html"; "htm"] || contains "<html" (lower code)
  || contains "<!DOCTYPE" code.

(** Once a page was counted, [index.html] is in the mapping. *)
Definition indexed (st : files_t * counters) : Prop :=
  html_count st.2 = 0 ∨ Dict.mem "index.html" st.1 = true.

(** ** [combine_files_for_single_html] *)

Record parts : Type := Parts {
  html_content : option string;
  css_content : list string;
  js_content : list string;
}.

(** The body of [for filename, content in files.items()]. *)
Definition sort_file (p : parts) (fc : string * string) : parts :=
  if endswith ".html" fc.1 then Parts (Some fc.2) (css_content p) (js_content p)
  else if endswith ".css" fc.1 then Parts (html_content p) (css_content p ++ [fc.2]) (js_content p)
  else if endswith ".js" fc.1 || endswith ".jsx" fc.1
  then Parts (html_content p) (css_content p) (js_content p ++ [fc.2])
  else p.

Definition dquote : string := String (ascii_of_nat 34) EmptyString.

(** The page used when no file is an HTML file. *)
Definition wrapper : string :=
  join nl
    ["<!DOCTYPE html>"; "<html>"; "<head>";
     "    <meta charset=" +:+ dquote +:+ "UTF-8" +:+ dquote +:+ ">";
     "    <meta name=" +:+ dquote +:+ "viewport" +:+ dquote +:+ " content=" +:+ dquote
       +:+ "width=device-width, initial-scale=1.0" +:+ dquote +:+ ">";
     "</head>"; "<body>";
     "    <div id=" +:+ dquote +:+ "root" +:+ dquote +:+ "></div>";
     "</body>"; "</html>"].

Definition style_tag (css : list string) : string :=
  "<style>" +:+ nl +:+ join nl css +:+ nl +:+ "</style>".

Definition script_tag (js : list string) : string :=
  "<script type=" +:+ dquote +:+ "module" +:+ dquote +:+ ">" +:+ nl +:+ join nl js +:+ nl
  +:+ "</script>".

Definition inject_css (css : list string) (html : string) : string :=
  match css with
  | [] => html
  | _ =>
      if contains "</head>" html
      then replace "</head>" (style_tag css +:+ nl +:+ "</head>") html
      else html
  end.

Definition inject_js (js : list string) (html : string) : string :=
  match js with
  | [] => html
  | _ =>
      if contains "</body>" html
      then replace "</body>" (script_tag js +:+ nl +:+ "</body>") html
      else html
  end.

Definition combine_files_for_single_html (files : files_t) : string :=
  let p := foldl sort_file (Parts None [] []) files in
  let html := if truthy_opt (html_content p) then default "" (html_content p) else wrapper in
  inject_js (js_content p) (inject_css (css_content p) html).

(** The contents of the files [combine_files_for_single_html] takes for
    scripts and for style sheets, in order. *)
Definition scripts_of (files : files_t) : list string :=
  (λ fc, fc.2) <$>
    filter (λ fc, endswith ".html" fc.1 = false ∧ endswith ".css" fc.1 = false
                  ∧ (endswith ".js" fc.1 || endswith ".jsx" fc.1) = true) files.

Definition styles_of (files : files_t) : list string :=
  (λ fc, fc.2) <$>
    filter (λ fc, endswith ".html" fc.1 = false ∧ endswith ".css" fc.1 = true) files.

End Combine.

(* ===================================================================== *)
(** * src/job_runner.py: providers, gathered results, collected responses *)
(* ===================================================================== *)

Module Gather.
Import PyStr JobRunner.

(** [s.split(sep)[0]] for a one-character separator: what stands before
    its first occurrence. *)
Fixpoint split_head (sep : ascii) (s : string) : string :=
  match s with
  | EmptyString => EmptyString
  | String c s' => if ascii_dec c sep then EmptyString else String c (split_head sep s')
  end.

(** [_get_provider_from_model] *)
Definition _get_provider_from_model (model : string) : string :=
  if contains "/" model then split_head "/" model else "unknown".

(** What [asyncio.gather(..., return_exceptions=True)] hands back for one
    question: the result map, [None] for a skipped question, or the
    instance of [Exception] the task raised, here its message.  (The tasks
    are private to [gather]; a cancellation of [run_job] is raised by the
    [await], it is not an element of the list.) *)
Inductive gathered : Type :=
| Gathered (results : option (list (string * result)))
| GatherFailed (message : string).

(** The "Process results" loop of [run_job]. *)
Definition collect_results (question_ids : list string) (results_list : list gathered)
    : list (string * list (string * result)) :=
  foldl (λ all_results qr,
           match qr.2 with
           | Gathered (Some results) => Dict.set qr.1 results all_results
           | _ => all_results
           end)
    [] (zip question_ids results_list).

(** ** The response collection of [_evaluate_question_with_semaphore] *)

(** A stored code-execution evaluation, and what the judge is told of it. *)
Record code_eval : Type := {
  ce_passed : bool;
  ce_score : number;
  ce_reasoning : string;
  ce_details : option (list (string * string));
}.

Record code_context : Type := {
  cc_passed : bool;
  cc_score : number;
  cc_reasoning : string;
  cc_error : option string;
  cc_output : option string;
}.

Definition context_of (ce : code_eval) : code_context :=
  let details :=
    match ce_details ce with
    | Some ((_ :: _) as d) => d
    | _ => []
    end in
  {| cc_passed := ce_passed ce; cc_score := ce_score ce; cc_reasoning := ce_reasoning ce;
     cc_error := Dict.get "error" details; cc_output := Dict.get "output" details |}.

(** The results manager, read-only: [get_run(run_id).model],
    [get_response(run_id, model, question_id)] and
    [get_evaluation(run_id, model, question_id, type)]; [None] stands for
    a falsy answer. *)
Record results_manager (R : Type) : Type := {
  get_run : string → option string;
  get_response : string → string → string → option R;
  get_evaluation : string → string → string → string → option code_eval;
}.
Arguments get_run {R} _ _.
Arguments get_response {R} _ _ _ _.
Arguments get_evaluation {R} _ _ _ _ _.

(** The body of [for run_id in job.run_ids]. *)
Definition collect_step {R} (rm : results_manager R) (question_id : string)
    (acc : list (string * R) * list (string * code_context)) (run_id : string)
    : list (string * R) * list (string * code_context) :=
  match get_run rm run_id with
  | None => acc
  | Some model =>
      match get_response rm run_id model question_id with
      | None => acc
      | Some response =>
          (Dict.set model response acc.1,
           match get_evaluation rm run_id model question_id "code_execution" with
           | Some code_eval => Dict.set model (context_of code_eval) acc.2
           | None => acc.2
           end)
      end
  end.

(** [responses] and [code_execution_results] after the loop. *)
Definition collect_responses {R} (rm : results_manager R) (run_ids : list string)
    (question_id : string) : list (string * R) * list (string * code_context) :=
  foldl (collect_step rm question_id) ([], []) run_ids.

(** The run has a response for the question. *)
Definition answered {R} (rm : results_manager R) (question_id run_id : string) : bool :=
  match get_run rm run_id with
  | Some model => bool_decide (is_Some (get_response rm run_id model question_id))
  | None => false
  end.

(** ** Notions used to state what the runner keeps *)

(** The models in the order in which the results first name them. *)
Definition first_seen (all_results : list (string * list (string * result))) : list string :=
  foldl (λ seen mr, if decide (mr.1 ∈ seen) then seen else seen ++ [mr.1])
    [] (concat (all_results.*2)).

(** The entries whose average equals [q] (Python's [==]), in list order. *)
Definition tied (q : number) (l : list entry) : list entry :=
  List.filter (λ e, num_eq (average_score e) q) l.

(** The operation is a [create_job] that produces the id, or a
    [start_job] for it. *)
Definition creates (id : string) (o : op) : bool :=
  match o with
  | Create stamp _ _ _ => bool_decide ("comp_judge_" +:+ stamp = id)
  | _ => false
  end.

Definition starts (id : string) (o : op) : bool :=
  match o with
  | Start id' => bool_decide (id' = id)
  | _ => false
  end.

(** What every operation keeps true of a job object. *)
Definition job_ok (job : ComparativeJudgeJob) : Prop :=
  status job = p_status (progress job)
  ∧ total (progress job) = length (question_ids job)
  ∧ (current (progress job) ≤ total (progress job))%nat.

Definition runner_ok (r : runner) : Prop :=
  wf r ∧ Forall job_ok (heap r)
  ∧ ∀ id ref job, jobs r !! id = Some ref → heap r !! ref = Some job → job_id job = id.

(** The first failure a resumed [run_job] meets, if any. *)
Definition first_error (io : io_resume) : option exn :=
  match thrown io with
  | Some e => Some e
  | None =>
      match leaderboard_error io with
      | Some e => Some e
      | None => final_save_error io
      end
  end.

End Gather.

(* ===================================================================== *)
(** * Code fences *)
(* ===================================================================== *)

Module Fences.
Import PyStr Re.

(** [s'] is what is left of [s] after some prefix. *)
Definition is_suffix (s' s : string) : Prop := ∃ p, s = p +:+ s'.

(** Every match of [r], whatever follows it, starts in a text that holds a
    code fence. *)
Definition fenced (r : re) : Prop :=
  ∀ s cs k o, run r s cs k = Some o → contains "```" s = true.

End Fences.

(* ===================================================================== *)
(** * More concrete responses, systems and runs *)
(* ===================================================================== *)

Module Cases.
Import PyStr ArtifactExtractor JobRunner Scenarios Gather.

Definition refusal_text : string := "I am sorry, I cannot help with that request.".

(** One block without a language tag that is neither a page nor a script. *)
Definition untagged_text : string := lines ["```"; "foo(bar)."; "```"].

(** A page without a tag, then a style sheet. *)
Definition page_text : string :=
  lines ["Page:"; "```"; "<!DOCTYPE html><p>hi</p>"; "```"; "```css"; "p {}"; "```"].

Definition two_scripts : files_t :=
  [("main.js", "import { f } from './util.js'"); ("util.js", "export function f() {}");
   ("README.md", "notes")].

(** The child process is interrupted from the keyboard. *)
Definition interrupted_os : os_run :=
  {| node_version := None; tmp_root := "/tmp"; tmp_suffix := "k3x9";
     mkdtemp_error := None; write_error := None; child_fs := λ fs, fs;
     subprocess_run := inl (Exn BaseOnly "KeyboardInterrupt"); rmtree_error := None |}.

(** The leaderboard cannot be written. *)
Definition disk_full_at_leaderboard : io_resume :=
  {| thrown := None;
     leaderboard_error := Some (Exn OtherException "[Errno 28] No space left on device");
     final_save_error := None; handler_save_error' := None |}.

Definition two_questions : list string := ["q1"; "q2"; "q3"].
Definition two_gathered : list gathered :=
  [Gathered (Some [("a", Result 50 true); ("b", Result 100 true)]);
   GatherFailed "judge unavailable";
   Gathered (Some [("a", Result 0 false)])].

Definition tied_results : list (string * list (string * result)) :=
  [("q1", [("c", Result 50 false); ("a", Result 50 true); ("b", Result 100 true)])].

(** One score beyond the range of floats. *)
Definition huge_results : list (string * list (string * result)) :=
  [("q1", [("a", Result (10 ^ 400) true)])].

(** The floats [50.0] and [1.0]. *)
Definition fifty : spec_float := S754_finite false 7036874417766400 (-47).
Definition one : spec_float := S754_finite false 4503599627370496 (-52).

End Cases.

(* ===================================================================== *)
(** * Facts about the string primitives and dictionaries *)
(* ===================================================================== *)

Section string_facts.
Import PyStr.

Lemma startswith_empty s : startswith "" s = true.
Proof. by destruct s. Qed.

Lemma contains_empty s : contains "" s = true.
Proof. destruct s; simpl; by rewrite ?startswith_empty. Qed.

Lemma truthy_false s : truthy s = false → s = "".
Proof. unfold truthy. case_bool_decide; naive_solver. Qed.

Lemma string_length_app (s t : string) :
  String.length (s +:+ t) = String.length s + String.length t.
Proof. induction s as [|c s IH]; simpl; [done | by rewrite IH]. Qed.

Lemma string_app_inv_tail (s1 s2 t : string) : s1 +:+ t = s2 +:+ t → s1 = s2.
Proof.
  revert s2. induction s1 as [|c s1 IH]; intros [|d s2] H; simpl in *.
  - done.
  - apply (f_equal String.length) in H. simpl in H. rewrite !string_length_app in H. simpl in H. lia.
  - apply (f_equal String.length) in H. simpl in H. rewrite !string_length_app in H. simpl in H. lia.
  - injection H as -> H. f_equal. by apply IH.
Qed.

Lemma pretty_N_go_length x s :
  (String.length s ≤ String.length (pretty_N_go x s))%nat.
Proof.
  revert s. induction (N.lt_wf_0 x) as [x _ IH]; intros s.
  destruct (decide (x = 0)%N) as [->|]; [by rewrite pretty_N_go_0 |].
  rewrite pretty_N_go_step by lia.
  etrans; [| apply IH, N.div_lt; lia]. simpl. lia.
Qed.

Lemma pretty_nat_nonempty (n : nat) : (0 < String.length (pretty n))%nat.
Proof.
  unfold pretty, pretty_nat, pretty, pretty_N. case_decide; [simpl; lia |].
  rewrite pretty_N_go_step by lia.
  eapply Nat.lt_le_trans; [| apply pretty_N_go_length]. simpl. lia.
Qed.

End string_facts.

Section dict_facts.
Context {V : Type}.
Implicit Types (d : list (string * V)) (k : string) (v : V).

Lemma get_set_eq k v d : Dict.get k (Dict.set k v d) = Some v.
Proof.
  induction d as [|[k' v'] d IH]; simpl; repeat case_decide; simpl;
    repeat case_decide; try done.
Qed.

Lemma get_set_ne k k' v d : k ≠ k' → Dict.get k' (Dict.set k v d) = Dict.get k' d.
Proof.
  intros Hne. induction d as [|[k1 v1] d IH]; simpl; repeat case_decide; simpl;
    repeat case_decide; subst; try done.
Qed.

Lemma get_Some_elem k v d : Dict.get k d = Some v → (k, v) ∈ d.
Proof.
  induction d as [|[k' v'] d IH]; simpl; [done |].
  case_decide; intros; simplify_eq; [left | right; auto].
Qed.

Lemma get_None_keys k d : Dict.get k d = None ↔ k ∉ Dict.keys d.
Proof.
  unfold Dict.keys. induction d as [|[k' v'] d IH]; simpl.
  - split; [intros _; apply not_elem_of_nil | done].
  - case_decide; subst; rewrite not_elem_of_cons; naive_solver.
Qed.

Lemma keys_set_NoDup k v d : NoDup (Dict.keys d) → NoDup (Dict.keys (Dict.set k v d)).
Proof.
  unfold Dict.keys. induction d as [|[k' v'] d IH]; simpl; intros Hd.
  - apply NoDup_singleton.
  - apply NoDup_cons in Hd as [Hk Hd]. case_decide; subst; simpl.
    + by apply NoDup_cons.
    + apply NoDup_cons. split; [| by apply IH].
      apply (get_None_keys k' _). rewrite get_set_ne by done.
      by apply get_None_keys.
Qed.

Lemma mem_get k d : Dict.mem k d = true ↔ is_Some (Dict.get k d).
Proof. unfold Dict.mem. destruct (Dict.get k d); split; (done || by inversion 1 || eauto). Qed.

End dict_facts.

(* ===================================================================== *)
(** * The sandbox leaves no directory behind *)
(* ===================================================================== *)

Section sandbox_proofs.
Import PyStr Sandbox Scenarios.

Lemma temp_path_truthy w : truthy (temp_path w) = true.
Proof.
  unfold truthy, temp_path. case_bool_decide as H; [| done].
  apply (f_equal String.length) in H. rewrite !string_length_app in H. simpl in H. lia.
Qed.

Lemma cleanup_removes w d fs :
  rmtree_error w = None → truthy d = true → d ∉ cleanup w (Some d) fs.
Proof.
  intros Hrm Hd. unfold cleanup. rewrite Hd, Hrm. simpl.
  case_bool_decide; set_solver.
Qed.

Lemma try_body_dir w fs r d fs1 :
  try_body w fs = (r, d, fs1) →
  (d = None ∧ fs1 = fs) ∨ d = Some (temp_path w).
Proof.
  unfold try_body. intros H.
  destruct (mkdtemp_error w); [left; by simplify_eq |].
  right. destruct (write_error w); [by simplify_eq |].
  destruct (subprocess_run w) as [e|[[rc out] err]]; by simplify_eq.
Qed.

Example python_timeout :
  (_execute_python 10 "while True: pass" slow_os ∅).1
  = Ret (false, "", "Execution timed out after 10 seconds").
Proof. reflexivity. Qed.

Example javascript_without_node :
  _execute_javascript 10 "console.log(1)" no_node_os ∅
  = (Ret (false, "", "Node.js is not installed or not in PATH"), ∅).
Proof. reflexivity. Qed.

(** C1 (amended).  On every exit path of [_execute_python] and
    [_execute_javascript] (normal exit, nonzero exit, timeout, interpreter
    not found, a failure while the script is written, any other
    exception, also one that propagates) the fresh temporary directory of
    the execution does not exist when the call ends, provided
    [shutil.rmtree] itself does not fail. *)
Theorem sandbox_cleanup timeout code w fs :
  temp_path w ∉ fs →
  rmtree_error w = None →
  (temp_path w ∉ (_execute_python timeout code w fs).2)
  ∧ temp_path w ∉ ((_execute_javascript timeout code w fs).2).
Proof.
  intros Hfresh Hrm. unfold _execute_python, _execute_javascript. split.
  - destruct (try_body w fs) as [[r d] fs1] eqn:Hb. simpl.
    apply try_body_dir in Hb as [[-> ->]| ->]; [done |].
    apply cleanup_removes; auto using temp_path_truthy.
  - destruct (node_version w); [done |].
    destruct (try_body w fs) as [[r d] fs1] eqn:Hb. simpl.
    apply try_body_dir in Hb as [[-> ->]| ->]; [done |].
    apply cleanup_removes; auto using temp_path_truthy.
Qed.

Lemma sandbox_cleanup_witness :
  (temp_path (quiet_os "hi") ∉ (_execute_python 10 "print('hi')" (quiet_os "hi") ∅).2)
  ∧ temp_path (quiet_os "hi") ∉ ((_execute_javascript 10 "print('hi')" (quiet_os "hi") ∅).2).
Proof. apply sandbox_cleanup; [apply not_elem_of_empty | reflexivity]. Defined.

(** C1 as stated fails: the run succeeds, [shutil.rmtree] raises, the
    bare [except] swallows it, and the directory is still there when
    [_execute_python] returns. *)
Lemma sandbox_leftover :
  (temp_path stuck_os ∉ (∅ : gset string))
  ∧ _execute_python 10 "print(1)" stuck_os ∅
    = (Ret (true, "", ""), {[temp_path stuck_os]}).
Proof.
  split; [apply not_elem_of_empty |].
  unfold _execute_python, try_body, cleanup. simpl.
  case_bool_decide; f_equal; set_solver.
Qed.
End sandbox_proofs.

Section scoring_proofs.
Import PyStr ArtifactExtractor Sandbox CodeExecutor Scenarios.

Lemma filter_nil_Forall {A} (P : A → Prop) `{∀ x, Decision (P x)} (l : list A) :
  Forall (λ x, ¬ P x) l → filter P l = [].
Proof.
  induction 1 as [|x l Hx _ IH]; [done |].
  rewrite filter_cons. by case_decide.
Qed.

Lemma unlinked_nil (html : string) (P : string → Prop) `{∀ x, Decision (P x)}
    (keys : list string) :
  Forall (λ f, P f → contains f html = true) keys →
  filter (λ f, contains f html = false) (filter P keys) = [].
Proof.
  intros Hall. apply filter_nil_Forall, Forall_forall.
  intros f [Hf Hin]%list_elem_of_filter.
  rewrite Forall_forall in Hall. rewrite (Hall f Hin Hf). done.
Qed.

(** C2.  An artifact with entry point [index.html] whose files are exactly
    [index.html], [styles.css] and [app.js], both names occurring in the
    entry document, checked against a question that declares no expected
    files, scores 30+30+20+20 = 100 and passes; and for every multi-file
    artifact [passed] holds exactly when the summed score is at least 70. *)
Theorem multi_file_score :
  (∀ question response files html,
      default [] (expected_files question) = [] →
      Dict.keys files ≡ₚ ["index.html"; "styles.css"; "app.js"] →
      Dict.get "index.html" files = Some html →
      contains "styles.css" html = true →
      contains "app.js" html = true →
      let ev := _evaluate_multi_file_artifact question response "index.html" files in
      score ev = (30 + 30 + 20 + 20)%Z ∧ score ev = 100%Z ∧ passed ev = true)
  ∧ (∀ question response entry_point files,
      let ev := _evaluate_multi_file_artifact question response entry_point files in
      passed ev = true ↔ (70 ≤ score ev)%Z).
Proof.
  split.
  - intros question response files html Hexp Hkeys Hget Hcss Hjs.
    assert (Hmem : ∀ f, f ∈ Dict.keys files →
              f = "index.html" ∨ f = "styles.css" ∨ f = "app.js").
    { intros f Hf. rewrite Hkeys in Hf. set_solver. }
    assert (Hlen : length files = 3).
    { unfold Dict.keys in Hkeys. apply Permutation_length in Hkeys.
      by rewrite length_fmap in Hkeys. }
    cbv zeta. unfold _evaluate_multi_file_artifact, multi_file_components.
    rewrite Hexp, Hget, Hlen.
    rewrite !unlinked_nil.
    + by vm_compute.
    + apply Forall_forall. intros f Hf He.
      destruct (Hmem f Hf) as [->|[->| ->]]; done.
    + apply Forall_forall. intros f Hf He.
      destruct (Hmem f Hf) as [->|[->| ->]]; done.
  - intros question response entry_point files. cbv zeta.
    unfold _evaluate_multi_file_artifact.
    destruct (multi_file_components question entry_point files) as [sc iss].
    simpl. apply bool_decide_eq_true.
Qed.

Lemma multi_file_score_witness :
  let ev := _evaluate_multi_file_artifact hi_question (answer "") "index.html" site_files in
  score ev = (30 + 30 + 20 + 20)%Z ∧ score ev = 100%Z ∧ passed ev = true.
Proof.
  apply (proj1 multi_file_score) with
    (html := "<link href='styles.css'><script src='app.js'></script>").
  - reflexivity.
  - simpl. apply Permutation_swap.
  - reflexivity.
  - reflexivity.
  - reflexivity.
Defined.

End scoring_proofs.


(* ===================================================================== *)
(** * Scores of the single-blob path *)
(* ===================================================================== *)

Section evaluate_proofs.
Import PyStr ArtifactExtractor Sandbox CodeExecutor Scenarios.

Lemma _extract_code_empty : _extract_code "" = (None, None).
Proof. reflexivity. Qed.

(** The outcome of [judge] on a successful run. *)
Lemma judge_success question response language output err :
  let ev := judge question response language (true, output, err) in
  match expected_output question with
  | Some hint =>
      if contains (strip hint) (strip output)
      then score ev = 100%Z ∧ passed ev = true
      else score ev = 50%Z ∧ passed ev = false
  | None => score ev = 100%Z ∧ passed ev = true
  end.
Proof.
  cbv zeta. unfold judge. simpl.
  destruct (expected_output question) as [hint|]; simpl; [| done].
  destruct (truthy hint) eqn:Ht; simpl.
  - by destruct (contains _ _).
  - apply truthy_false in Ht as ->. by rewrite contains_empty.
Qed.

(** C3.  On the single-blob path of [evaluate], when the execution
    succeeds and the question declares an expected output: the score is
    100 (and the evaluation has passed) if the stripped hint occurs in the
    stripped standard output, and otherwise the score is 50 and the
    evaluation has not passed. *)
Theorem expected_output_scoring timeout base w question response
    text code language output err hint :
  truthy_opt (error response) = false →
  response_text response = Some text →
  (∀ entry_point files directory,
      extract_multi_file_artifact base text (artifact_id question response)
      ≠ Some (MultiFile entry_point files directory)) →
  _extract_code text = (Some code, Some language) →
  truthy code = true →
  execute timeout w language code = Some (Ret (true, output, err)) →
  expected_output question = Some hint →
  ∃ ev, evaluate timeout base w question response = Ret ev
        ∧ evaluation_type ev = "code_execution"
        ∧ if contains (strip hint) (strip output)
          then score ev = 100%Z ∧ passed ev = true
          else score ev = 50%Z ∧ passed ev = false.
Proof.
  intros Herr Htext Hsingle Hcode Hc Hexec Hhint.
  assert (Htruthy : truthy text = true).
  { destruct (truthy text) eqn:Ht; [done |].
    apply truthy_false in Ht as ->. by rewrite _extract_code_empty in Hcode. }
  exists (judge question response language (true, output, err)).
  split; [| split].
  - unfold evaluate. rewrite Herr, Htext. simpl. rewrite Htruthy. simpl.
    destruct (extract_multi_file_artifact _ _ _) as [[ep fs d|ep fs c]|] eqn:Ha.
    + by destruct (Hsingle ep fs d).
    + rewrite Hcode. simpl. rewrite Hc. simpl. by rewrite Hexec.
    + rewrite Hcode. simpl. rewrite Hc. simpl. by rewrite Hexec.
  - unfold judge. simpl. by repeat case_match.
  - pose proof (judge_success question response language output err) as Hj.
    cbv zeta in Hj. rewrite Hhint in Hj.
    destruct (contains _ _); naive_solver.
Qed.

Lemma expected_output_scoring_witness :
  ∃ ev, evaluate 10 "/tmp/llm_bench_artifacts" (quiet_world ("hi" +:+ nl))
          hi_question (answer python_text) = Ret ev
        ∧ evaluation_type ev = "code_execution"
        ∧ if contains (strip "hi") (strip ("hi" +:+ nl))
          then score ev = 100%Z ∧ passed ev = true
          else score ev = 50%Z ∧ passed ev = false.
Proof.
  apply (expected_output_scoring 10 "/tmp/llm_bench_artifacts" (quiet_world ("hi" +:+ nl))
           hi_question (answer python_text) python_text "print('hi')" "python"
           ("hi" +:+ nl) "" "hi").
  - reflexivity.
  - reflexivity.
  - intros entry_point files directory. vm_compute. discriminate.
  - vm_compute. reflexivity.
  - reflexivity.
  - vm_compute. reflexivity.
  - reflexivity.
Defined.

(** The scenario of the design document: the block runs, prints [hi], and
    the evaluation scores 100. *)
Example python_scenario :
  evaluate 10 "/tmp/llm_bench_artifacts" (quiet_world ("hi" +:+ nl))
    hi_question (answer python_text)
  = Ret {| ev_question_id := "q1";
           ev_model_name := "m";
           score := 100;
           passed := true;
           evaluation_type := "code_execution";
           reasoning := "Code executed successfully and output matches expected" |}.
Proof. vm_compute. reflexivity. Qed.

(** An untagged block with nothing to sniff is the one case that reaches
    the unsupported-language answer. *)
Example untagged_block_unsupported :
  reasoning <$> (match evaluate 10 "/tmp/llm_bench_artifacts" (quiet_world "") hi_question
                         (answer (lines ["```"; "foo(bar)."; "```"])) with
                 | Ret ev => Some ev
                 | Raise _ => None
                 end)
  = Some "Unsupported language: unknown".
Proof. vm_compute. reflexivity. Qed.

Lemma prolog_no_files : _extract_files_from_response prolog_text = [].
Proof. by vm_compute. Qed.

Lemma prolog_no_code : _extract_code prolog_text = (None, None).
Proof. by vm_compute. Qed.

(** C4 (what the code does).  For the response whose only code is one
    fenced block tagged [prolog], [evaluate] scores 0 but its reasoning is
    the no-code-found message, not [Unsupported language: prolog]:
    [categorize] drops a block whose tag is given but not recognised. *)
Theorem prolog_reported_as_no_code timeout base w question model :
  evaluate timeout base w question
    {| model_name := model; response_text := Some prolog_text; error := None |}
  = Ret {| ev_question_id := q_id question;
           ev_model_name := model;
           score := 0;
           passed := false;
           evaluation_type := "code_execution";
           reasoning :=
             "No code block found in response. Response contains ``` but code extraction failed. Check formatting." |}.
Proof.
  unfold evaluate, extract_multi_file_artifact.
  cbn [error response_text model_name truthy_opt default]. cbv zeta.
  change (truthy prolog_text) with true. cbn [negb]. unfold id.
  rewrite prolog_no_files, prolog_no_code. reflexivity.
Qed.

(** C10.  Every [Evaluation] of type [code_execution] that [evaluate]
    produces has score 0, 50 or 100, and has passed exactly when its score
    is 100. *)
Theorem single_blob_scores timeout base w question response ev :
  evaluate timeout base w question response = Ret ev →
  evaluation_type ev = "code_execution" →
  (score ev = 0%Z ∨ score ev = 50%Z ∨ score ev = 100%Z)
  ∧ (passed ev = true ↔ score ev = 100%Z).
Proof.
  unfold evaluate. intros Hev Hty.
  assert (Hzero : ∀ why, Ret (single question response 0 false why) = Ret ev →
            (score ev = 0%Z ∨ score ev = 50%Z ∨ score ev = 100%Z)
            ∧ (passed ev = true ↔ score ev = 100%Z)).
  { intros why [= <-]. simpl. split; [by left | done]. }
  assert (Hjudge : ∀ language r, Ret (judge question response language r) = Ret ev →
            (score ev = 0%Z ∨ score ev = 50%Z ∨ score ev = 100%Z)
            ∧ (passed ev = true ↔ score ev = 100%Z)).
  { intros language [[success output] err] [= <-]. unfold judge.
    destruct success; simpl.
    - destruct (truthy_opt _); simpl; [destruct (contains _ _) |]; simpl; split; auto; done.
    - split; auto; done. }
  destruct (truthy_opt (error response)); [by eapply Hzero |].
  destruct (negb (truthy_opt (response_text response))); [by eapply Hzero |].
  set (text := default "" (response_text response)) in *.
  assert (Hblob :
    (let '(code, language) := _extract_code text in
     if negb (truthy_opt code)
     then Ret (single question response 0 false (no_code_reasoning text))
     else
       match execute timeout w (default "None" language) (default "" code) with
       | Some (Ret r) => Ret (judge question response (default "None" language) r)
       | Some (Raise e) => Raise e
       | None => Ret (single question response 0 false
                        ("Unsupported language: " +:+ default "None" language))
       end) = Ret ev →
    (score ev = 0%Z ∨ score ev = 50%Z ∨ score ev = 100%Z)
    ∧ (passed ev = true ↔ score ev = 100%Z)).
  { destruct (_extract_code text) as [code language].
    destruct (negb (truthy_opt code)); [by eapply Hzero |].
    destruct (execute _ _ _ _) as [[r|e]|]; [by eapply Hjudge | done | by eapply Hzero]. }
  destruct (extract_multi_file_artifact _ _ _) as [[ep fs d|ep fs c]|]; [| by auto..].
  destruct (materialize_error w); [done |].
  injection Hev as <-. unfold _evaluate_multi_file_artifact in Hty.
  destruct (multi_file_components _ _ _). done.
Qed.

Lemma single_blob_scores_witness :
  (score (judge hi_question (answer python_text) "python" (true, "hi" +:+ nl, "")) = 0%Z
   ∨ score (judge hi_question (answer python_text) "python" (true, "hi" +:+ nl, "")) = 50%Z
   ∨ score (judge hi_question (answer python_text) "python" (true, "hi" +:+ nl, "")) = 100%Z)
  ∧ (passed (judge hi_question (answer python_text) "python" (true, "hi" +:+ nl, "")) = true
     ↔ score (judge hi_question (answer python_text) "python" (true, "hi" +:+ nl, "")) = 100%Z).
Proof.
  apply (single_blob_scores 10 "/tmp/llm_bench_artifacts" (quiet_world ("hi" +:+ nl))
           hi_question (answer python_text)).
  - vm_compute. reflexivity.
  - reflexivity.
Defined.

End evaluate_proofs.


(* ===================================================================== *)
(** * The job registry *)
(* ===================================================================== *)

Section job_proofs.
Import PyStr JobRunner Scenarios.

Lemma status_set_status s job : status (set_status s job) = s.
Proof. done. Qed.

Lemma get_job_Some r id ref job :
  get_job r id = Some (ref, job) ↔ jobs r !! id = Some ref ∧ heap r !! ref = Some job.
Proof.
  unfold get_job. destruct (jobs r !! id) as [ref'|]; simpl; [| naive_solver].
  destruct (heap r !! ref') as [job'|] eqn:Hh; simpl; naive_solver.
Qed.

Lemma job_status_Some r id s :
  job_status r id = Some s ↔
  ∃ ref job, jobs r !! id = Some ref ∧ heap r !! ref = Some job ∧ status job = s.
Proof.
  unfold job_status. destruct (get_job r id) as [[ref job]|] eqn:Hg; simpl.
  - apply get_job_Some in Hg as [??]. naive_solver.
  - split; [done |]. intros (ref & job & H1 & H2 & _).
    by rewrite (proj2 (get_job_Some r id ref job)) in Hg.
Qed.

(** C9.  [cancel_job] returns [False], changing nothing, whenever the id
    is not registered or the job is not running; and when it returns
    [True] the job was running and its status is cancelled afterwards. *)
Theorem cancel_job_result id write_error r :
  (job_status r id ≠ Some RUNNING → cancel_job id write_error r = (Ret false, r))
  ∧ (∀ r', cancel_job id write_error r = (Ret true, r') →
           job_status r id = Some RUNNING ∧ job_status r' id = Some CANCELLED).
Proof.
  unfold cancel_job. unfold job_status at 1 2.
  destruct (get_job r id) as [[ref job]|] eqn:Hget; simpl.
  - case_bool_decide as Hst; simpl.
    + split; [intros H; simpl in H; congruence |].
      intros r' Hc. destruct (running_tasks r !! id) as [task|]; [| done].
      destruct (_save_job_metadata _ _); [done |]. injection Hc as <-.
      split; [by rewrite Hst |].
      apply get_job_Some in Hget as [Hj Hh].
      apply job_status_Some. exists ref, (set_status CANCELLED job). simpl.
      split_and!; [done | | done].
      apply list_lookup_insert_eq. by eapply lookup_lt_Some.
    + split; [done |]. by intros r' [=].
  - split; [done |]. by intros r' [=].
Qed.

Lemma cancel_job_result_witness :
  cancel_job "missing" None running_one = (Ret false, running_one)
  ∧ job_status (cancel_job "comp_judge_20240101_000000_000001" None running_one).2
      "comp_judge_20240101_000000_000001" = Some CANCELLED.
Proof.
  split.
  - apply (proj1 (cancel_job_result "missing" None running_one)). vm_compute. discriminate.
  - apply (proj2 (cancel_job_result "comp_judge_20240101_000000_000001" None running_one)
             (cancel_job "comp_judge_20240101_000000_000001" None running_one).2).
    vm_compute. reflexivity.
Defined.

End job_proofs.


Section machine_proofs.
Import PyStr JobRunner Scenarios.

Lemma same_except_refl ref r : same_except ref r r.
Proof. done. Qed.

Lemma same_except_trans ref r1 r2 r3 :
  same_except ref r1 r2 → same_except ref r2 r3 → same_except ref r1 r3.
Proof.
  intros (Hj & Hl & Hh) (Hj' & Hl' & Hh'). split_and!; try congruence.
  intros ref' Hne. by rewrite Hh', Hh.
Qed.

Lemma update_same_except ref f r : same_except ref r (update ref f r).
Proof.
  unfold update. destruct (heap r !! ref) eqn:Hh; [| done].
  split_and!; simpl; [done | by rewrite length_insert |].
  intros ref' Hne. by rewrite list_lookup_insert_ne.
Qed.

Lemma fail_job_same_except ref e we r : same_except ref r (fail_job ref e we r).2.
Proof.
  unfold fail_job. destruct (exn_cls e); simpl; try done;
    repeat case_match; simpl; apply update_same_except.
Qed.

Lemma run_job_begin_same_except id io r ref :
  jobs r !! id = Some ref → same_except ref r (run_job_begin id io r).2.
Proof.
  intros Hj. unfold run_job_begin.
  destruct (get_job r id) as [[ref' job]|] eqn:Hg; [| done].
  apply get_job_Some in Hg as [Hj' _]. assert (ref' = ref) as -> by congruence.
  pose proof (update_same_except ref (set_status RUNNING) r) as H1.
  destruct (mkdir_error io).
  { destruct (fail_job _ _ _ _) as [[] r'] eqn:Hf; simpl;
      (eapply same_except_trans; [exact H1 |]);
      pose proof (fail_job_same_except ref e (handler_save_error io)
                    (update ref (set_status RUNNING) r)) as H2;
      by rewrite Hf in H2. }
  match goal with |- context [update ref ?f (update ref _ r)] =>
    pose proof (update_same_except ref f (update ref (set_status RUNNING) r)) as H2 end.
  destruct (save_error io); simpl.
  - destruct (fail_job _ _ _ _) as [[] r'] eqn:Hf; simpl;
      (eapply same_except_trans; [exact H1 |]);
      (eapply same_except_trans; [exact H2 |]);
      match type of Hf with fail_job ?a ?b ?c ?d = _ =>
        pose proof (fail_job_same_except a b c d) as H3 end;
      by rewrite Hf in H3.
  - eapply same_except_trans; [exact H1 | exact H2].
Qed.

Lemma run_job_begin_absent id io r :
  jobs r !! id = None → (run_job_begin id io r).2 = r.
Proof.
  intros Hj. unfold run_job_begin, get_job. by rewrite Hj.
Qed.

Lemma run_job_resume_same_except ref io r :
  same_except ref r (run_job_resume ref io r).2.
Proof.
  unfold run_job_resume.
  destruct (thrown io); [apply fail_job_same_except |].
  match goal with |- context [leaderboard_error io] =>
    match goal with |- context [update ref ?f r] =>
      pose proof (update_same_except ref f r) as H1 end end.
  destruct (leaderboard_error io).
  { eapply same_except_trans; [exact H1 | apply fail_job_same_except]. }
  match goal with |- context [update ref (set_status COMPLETED) ?r1] =>
    pose proof (update_same_except ref (set_status COMPLETED) r1) as H2 end.
  destruct (final_save_error io); simpl.
  - eapply same_except_trans; [exact H1 |].
    eapply same_except_trans; [exact H2 | apply fail_job_same_except].
  - eapply same_except_trans; [exact H1 | exact H2].
Qed.

Lemma cancel_job_same_except id we r ref :
  jobs r !! id = Some ref → same_except ref r (cancel_job id we r).2.
Proof.
  intros Hj. unfold cancel_job.
  destruct (get_job r id) as [[ref' job]|] eqn:Hg; [| done].
  apply get_job_Some in Hg as [Hj' _]. assert (ref' = ref) as -> by congruence.
  case_bool_decide; simpl; [| done].
  destruct (running_tasks r !! id); [| done].
  assert (same_except ref r
            (Runner (results_dir r) (<[ref:=set_status CANCELLED job]> (heap r))
               (jobs r) (running_tasks r) (next_task r) ({[n]} ∪ cancel_requested r))).
  { split_and!; simpl; [done | by rewrite length_insert |].
    intros ref' Hne. by rewrite list_lookup_insert_ne. }
  by destruct (_save_job_metadata _ _).
Qed.

Lemma cancel_job_absent id we r :
  jobs r !! id = None → (cancel_job id we r).2 = r.
Proof. intros Hj. unfold cancel_job, get_job. by rewrite Hj. Qed.

Lemma same_except_wf ref r r' : same_except ref r r' → wf r → wf r'.
Proof.
  intros (Hj & Hl & _) [H1 H2]. unfold wf. rewrite Hj, Hl. done.
Qed.

Lemma wf_new dir : wf (new_runner dir).
Proof. split; simpl; intros *; by rewrite lookup_empty. Qed.

Lemma wf_step r o : wf r → wf (step r o).
Proof.
  intros Hwf. destruct o as [stamp iso rs qs|id|id io|ref io|id we]; simpl.
  - destruct Hwf as [H1 H2]. split; simpl.
    + intros id ref. rewrite length_app. simpl. rewrite lookup_insert.
      case_decide; [intros [= <-]; lia |]. intros ?%H1. lia.
    + intros id1 id2 ref. rewrite !lookup_insert.
      repeat case_decide; subst; try done.
      * intros [= <-] ?%H1. lia.
      * intros ?%H1 [= <-]. lia.
      * apply H2.
  - done.
  - destruct (jobs r !! id) as [ref|] eqn:Hj.
    + eapply same_except_wf; [by apply run_job_begin_same_except | done].
    + by rewrite run_job_begin_absent.
  - eapply same_except_wf; [apply run_job_resume_same_except | done].
  - destruct (jobs r !! id) as [ref|] eqn:Hj.
    + eapply same_except_wf; [by apply cancel_job_same_except | done].
    + by rewrite cancel_job_absent.
Qed.

Lemma wf_steps r ops : wf r → wf (steps r ops).
Proof.
  unfold steps. revert r. induction ops as [|o ops IH]; intros r Hwf; simpl; [done |].
  apply IH. by apply wf_step.
Qed.

(** One operation that spares a job in a terminal state leaves its
    object as it is. *)
Lemma step_spares r o id ref job :
  wf r →
  jobs r !! id = Some ref →
  heap r !! ref = Some job →
  terminal (status job) = true →
  spares id ref o = true →
  jobs (step r o) !! id = Some ref ∧ heap (step r o) !! ref = Some job.
Proof.
  intros [Hlt Hinj] Hj Hh Hterm Hsp.
  assert (Hother : ∀ id' ref' r',
            id' ≠ id → jobs r !! id' = Some ref' → same_except ref' r r' →
            jobs r' !! id = Some ref ∧ heap r' !! ref = Some job).
  { intros id' ref' r' Hne Hj' (Hsj & _ & Hsh). rewrite Hsj, Hsh; [done |].
    intros ->. apply Hne. by eapply Hinj. }
  destruct o as [stamp iso rs qs|id'|id' io|ref' io|id' we]; simpl in *.
  - apply negb_true_iff, bool_decide_eq_false in Hsp.
    rewrite lookup_insert_ne by done. split; [done |].
    rewrite lookup_app_l; [done |]. by eapply Hlt.
  - done.
  - apply negb_true_iff, bool_decide_eq_false in Hsp.
    destruct (jobs r !! id') as [ref'|] eqn:Hj'.
    + eapply Hother; [done.. |]. by apply run_job_begin_same_except.
    + by rewrite run_job_begin_absent.
  - apply negb_true_iff, bool_decide_eq_false in Hsp.
    destruct (run_job_resume_same_except ref' io r) as (Hsj & _ & Hsh).
    rewrite Hsj, Hsh by done. done.
  - destruct (decide (id' = id)) as [->|Hne].
    + unfold cancel_job. rewrite (proj2 (get_job_Some r id ref job)) by done.
      rewrite bool_decide_false; [done |]. intros Hst. by rewrite Hst in Hterm.
    + destruct (jobs r !! id') as [ref'|] eqn:Hj'.
      * eapply Hother; [done.. |]. by apply cancel_job_same_except.
      * by rewrite cancel_job_absent.
Qed.

Lemma update_lookup ref f r job :
  heap r !! ref = Some job →
  heap (update ref f r) !! ref = Some (f job) ∧ jobs (update ref f r) = jobs r.
Proof.
  intros Hh. unfold update. rewrite Hh. simpl. split; [| done].
  apply list_lookup_insert_eq. by eapply lookup_lt_Some.
Qed.

(** A new job is pending. *)
Lemma create_job_pending stamp iso run_ids question_ids r :
  let '(id, r') := create_job stamp iso run_ids question_ids r in
  job_status r' id = Some PENDING.
Proof.
  unfold create_job. apply job_status_Some.
  eexists _, _. simpl. rewrite lookup_insert_eq. split_and!; [done | | ].
  - rewrite lookup_app_r by done. by rewrite Nat.sub_diag.
  - done.
Qed.

(** [run_job] does not look at the status it finds: when its body reaches
    the [await], the job is running, whatever it was before. *)
Lemma run_job_begin_running id io r ref :
  run_job_begin id io r = (Suspended ref, (run_job_begin id io r).2) →
  job_status (run_job_begin id io r).2 id = Some RUNNING.
Proof.
  unfold run_job_begin.
  destruct (get_job r id) as [[ref' job]|] eqn:Hg; [| done].
  apply get_job_Some in Hg as [Hj Hh].
  destruct (update_lookup ref' (set_status RUNNING) r job Hh) as [Hh1 Hj1].
  destruct (mkdir_error io).
  { by destruct (fail_job _ _ _ _) as [[] ?]. }
  match goal with |- context [update ref' ?f (update ref' _ r)] =>
    destruct (update_lookup ref' f _ _ Hh1) as [Hh2 Hj2] end.
  destruct (save_error io).
  { by destruct (fail_job _ _ _ _) as [[] ?]. }
  intros _. apply job_status_Some. eexists _, _. simpl.
  split_and!; [by rewrite Hj2, Hj1 | exact Hh2 | done].
Qed.

(** C8 (amended).  In every state the runner can reach, a job whose
    status is completed, failed or cancelled keeps that status through
    every sequence of operations in which the body of [run_job] does not
    execute for that job again: [create_job] (under another id), the task
    registration of [start_job], [cancel_job], and [run_job] steps of other
    jobs. *)
Theorem terminal_status_kept dir before after id ref s :
  let r := steps (new_runner dir) before in
  jobs r !! id = Some ref →
  job_status r id = Some s →
  terminal s = true →
  Forall (λ o, spares id ref o = true) after →
  job_status (steps r after) id = Some s.
Proof.
  intros r Hj Hs Hterm Hall.
  apply job_status_Some in Hs as (ref' & job & Hj' & Hh & <-).
  assert (ref' = ref) as -> by congruence. clear Hj'.
  assert (Hwf : wf r) by apply wf_steps, wf_new.
  clearbody r. unfold steps.
  revert r Hj Hh Hwf. induction Hall as [|o after Ho _ IH]; intros r Hj Hh Hwf; simpl.
  - apply job_status_Some. eauto.
  - destruct (step_spares r o id ref job) as [Hj' Hh']; try done.
    apply IH; auto using wf_step.
Qed.

Lemma terminal_status_kept_witness :
  job_status (steps (steps (new_runner "results") one_completed) bystanders)
    "comp_judge_20240101_000000_000001" = Some COMPLETED.
Proof.
  apply (terminal_status_kept "results" one_completed bystanders
           "comp_judge_20240101_000000_000001" 0 COMPLETED).
  - vm_compute. reflexivity.
  - vm_compute. reflexivity.
  - reflexivity.
  - unfold bystanders. repeat constructor.
Defined.

(** C8 as stated fails: [run_job] does not look at the status it
    overwrites, so running a completed job once more makes it running
    again. *)
Lemma completed_job_runs_again :
  job_status (steps (new_runner "results") one_completed)
    "comp_judge_20240101_000000_000001" = Some COMPLETED
  ∧ job_status
      (steps (new_runner "results")
         (one_completed ++ [RunBegin "comp_judge_20240101_000000_000001" no_io]))
      "comp_judge_20240101_000000_000001" = Some RUNNING.
Proof. split; vm_compute; reflexivity. Qed.

End machine_proofs.


(* ===================================================================== *)
(** * File extraction *)
(* ===================================================================== *)

Section extractor_proofs.
Import PyStr ArtifactExtractor Scenarios.

Lemma set_not_nil {V} k (v : V) d : Dict.set k v d ≠ [].
Proof. destruct d as [|[k' v'] d]; simpl; [done |]. by case_decide. Qed.

Lemma foldl_add_named_nil d ms : foldl add_named d ms = [] → d = [] ∧ ms = [].
Proof.
  revert d. induction ms as [|m ms IH]; intros d; simpl; [done |].
  intros [H _]%IH. by apply set_not_nil in H.
Qed.

Lemma get_foldl_add_named f d ms :
  Dict.get f (foldl add_named d ms)
  = match latest f ms with Some c => Some c | None => Dict.get f d end.
Proof.
  unfold latest. induction ms as [|m ms IH] using rev_ind; [done |].
  rewrite foldl_app, reverse_app. simpl. unfold add_named at 1.
  case_bool_decide as Hf; simpl.
  - subst f. apply get_set_eq.
  - rewrite get_set_ne by done. apply IH.
Qed.

Lemma named_files_flat text :
  named_files text
  = foldl add_named [] (matches1 text ++ matches2 text ++ matches3 text ++ matches4 text).
Proof. unfold named_files. by rewrite !foldl_app. Qed.

(** C5 (amended).  [_extract_files_from_response] applies all four
    conventions in order and accumulates their files in one mapping: a
    file's content is that of the last match naming it, going through
    format 1, 2, 3, 4 in turn; inference alone is used exactly when none
    of the four matched. *)
Theorem formats_accumulate text :
  let named := matches1 text ++ matches2 text ++ matches3 text ++ matches4 text in
  (named = [] → _extract_files_from_response text = _infer_files_from_blocks text)
  ∧ (named ≠ [] →
     ∀ f, Dict.get f (_extract_files_from_response text) = latest f named).
Proof.
  intros named. unfold _extract_files_from_response.
  rewrite named_files_flat. fold named. split.
  - by intros ->.
  - intros Hne f. destruct (foldl add_named [] named) eqn:Hfold.
    { apply foldl_add_named_nil in Hfold as [_ ?]. done. }
    rewrite <- Hfold, get_foldl_add_named. by destruct (latest f named).
Qed.

Lemma formats_accumulate_witness :
  Dict.get "app.js" (_extract_files_from_response mixed_text)
  = latest "app.js"
      (matches1 mixed_text ++ matches2 mixed_text ++ matches3 mixed_text
       ++ matches4 mixed_text).
Proof.
  apply (proj2 (formats_accumulate mixed_text)). vm_compute. discriminate.
Defined.

(** C5 as stated fails: format 1 matches the first block, and the file of
    the heading-named block (format 4) is produced all the same. *)
Lemma first_match_does_not_win :
  first_match_wins mixed_text = [("index.html", "<p>hi</p>")]
  ∧ _extract_files_from_response mixed_text
    = [("index.html", "<p>hi</p>"); ("app.js", "let x = 1;")].
Proof. split; vm_compute; reflexivity. Qed.

(** *** Inferred names *)

Lemma infer_filename_mono lang code c : le_counters c (infer_filename lang code c).2.
Proof.
  unfold infer_filename, le_counters.
  repeat (case_match; simpl; try lia).
Qed.

Lemma tail_digits (s t : string) (n : nat) :
  String.length s = String.length t → s ≠ pretty n +:+ t.
Proof.
  intros Hl Heq. apply (f_equal String.length) in Heq.
  rewrite string_length_app in Heq. pose proof (pretty_nat_nonempty n). lia.
Qed.

Lemma digits_differ (n n' : nat) (t : string) :
  n ≠ n' → pretty n +:+ t ≠ pretty n' +:+ t.
Proof. intros Hne Heq. apply string_app_inv_tail in Heq. by apply (inj pretty) in Heq. Qed.

Lemma app_cons c (s t : string) : String c s +:+ t = String c (s +:+ t).
Proof. done. Qed.

Lemma app_empty (t : string) : "" +:+ t = t.
Proof. done. Qed.

Ltac clash :=
  let H := fresh in
  intros H; rewrite ?app_cons, ?app_empty in H;
  first
    [ discriminate H
    | simplify_eq;
      match goal with
      | H' : pretty ?a +:+ ?t = pretty ?b +:+ ?t |- _ =>
          apply string_app_inv_tail in H'; apply (inj pretty) in H'; lia
      | H' : _ = pretty _ +:+ _ |- _ => by apply tail_digits in H'
      | H' : pretty _ +:+ _ = _ |- _ => symmetry in H'; by apply tail_digits in H'
      end ].

(** A name other than [config.json] is never given again once the
    counters have moved past the block that got it. *)
Lemma name_fresh lang code c f c1 lang' code' c' f' c2 :
  infer_filename lang code c = (Some f, c1) →
  f ≠ "config.json" →
  le_counters c1 c' →
  infer_filename lang' code' c' = (Some f', c2) →
  f' ≠ f.
Proof.
  unfold infer_filename, le_counters. intros H1 Hf (Hh & Hc & Hj) H2.
  repeat match type of H1 with
         | context [if ?b then _ else _] => destruct b eqn:?
         end; simplify_eq; simpl in *;
  repeat match type of H2 with
         | context [if ?b then _ else _] => destruct b eqn:?
         end; simplify_eq; simpl in *;
  repeat match goal with
         | H : (_ =? _)%nat = true |- _ => apply Nat.eqb_eq in H
         | H : (_ =? _)%nat = false |- _ => apply Nat.eqb_neq in H
         | H : (_ <? _)%nat = true |- _ => apply Nat.ltb_lt in H
         | H : (_ <? _)%nat = false |- _ => apply Nat.ltb_ge in H
         end;
  try done; try lia; clash.
Qed.

Lemma le_counters_refl c : le_counters c c.
Proof. unfold le_counters. lia. Qed.

Lemma le_counters_trans c1 c2 c3 :
  le_counters c1 c2 → le_counters c2 c3 → le_counters c1 c3.
Proof. unfold le_counters. lia. Qed.

(** Every name handed out from [c] on comes from counters at or past [c]. *)
Lemma assigned_origin c ms j f :
  assigned c ms !! j = Some (Some f) →
  ∃ lang code c' c2,
    le_counters c c' ∧ infer_filename lang code c' = (Some f, c2).
Proof.
  revert c j. induction ms as [|m ms IH]; intros c j; simpl; [done |].
  destruct (infer_filename (lower m.1) (strip m.2) c) as [o c1] eqn:Hi. simpl.
  destruct j as [|j]; simpl.
  - intros [= ->]. exists (lower m.1), (strip m.2), c, c1.
    split; [apply le_counters_refl | done].
  - intros (lang & code & c' & c2 & Hle & H)%IH.
    exists lang, code, c', c2. split; [| done].
    eapply le_counters_trans; [| exact Hle].
    pose proof (infer_filename_mono (lower m.1) (strip m.2) c) as Hm.
    by rewrite Hi in Hm.
Qed.

Lemma assigned_distinct c ms i j f :
  i ≠ j →
  f ≠ "config.json" →
  assigned c ms !! i = Some (Some f) →
  assigned c ms !! j ≠ Some (Some f).
Proof.
  revert c i j. induction ms as [|m ms IH]; intros c i j Hij Hf; simpl; [done |].
  destruct (infer_filename (lower m.1) (strip m.2) c) as [o c1] eqn:Hi. simpl.
  destruct i as [|i], j as [|j]; simpl; try done.
  - intros [= ->] (lang & code & c' & c2 & Hle & H)%assigned_origin.
    by eapply (name_fresh _ _ _ f c1 lang code c' f c2).
  - intros (lang & code & c' & c2 & Hle & H)%assigned_origin [= ->].
    by eapply (name_fresh _ _ _ f c1 lang code c' f c2).
  - apply IH; [lia | done].
Qed.

Lemma infer_step_unfold files c m :
  infer_step (files, c) m
  = let r := infer_filename (lower m.1) (strip m.2) c in
    (match r.1 with Some f => Dict.set f (strip m.2) files | None => files end, r.2).
Proof.
  unfold infer_step. simpl.
  by destruct (infer_filename _ _ _) as [[f|] c'].
Qed.

Lemma get_foldl_infer_other f files c ms :
  (∀ j, assigned c ms !! j ≠ Some (Some f)) →
  Dict.get f (foldl infer_step (files, c) ms).1 = Dict.get f files.
Proof.
  revert files c. induction ms as [|m ms IH]; intros files c Hno; simpl; [done |].
  rewrite infer_step_unfold. cbv zeta.
  rewrite IH.
  - destruct (infer_filename _ _ _).1 as [f'|] eqn:Hf'; [| done].
    apply get_set_ne. intros ->. apply (Hno 0). simpl. by rewrite Hf'.
  - intros j. apply (Hno (S j)).
Qed.

Lemma get_foldl_infer f files c ms i :
  assigned c ms !! i = Some (Some f) →
  (∀ j, j ≠ i → assigned c ms !! j ≠ Some (Some f)) →
  ∃ m, ms !! i = Some m
       ∧ Dict.get f (foldl infer_step (files, c) ms).1 = Some (strip m.2).
Proof.
  revert files c i. induction ms as [|m ms IH]; intros files c i; simpl; [done |].
  rewrite infer_step_unfold. cbv zeta.
  destruct i as [|i]; simpl.
  - intros [= Hf] Hno. exists m. split; [done |].
    rewrite get_foldl_infer_other.
    + rewrite Hf. apply get_set_eq.
    + intros j. apply (Hno (S j)). lia.
  - intros Hi Hno. apply IH; [done |].
    intros j Hj. apply (Hno (S j)). lia.
Qed.

(** C6 (amended).  In [_infer_files_from_blocks], a block that is given a
    name other than [config.json] (an HTML, CSS, JavaScript or TypeScript
    block) shares it with no other block, and the returned mapping holds
    that block's content under that name. *)
Theorem inferred_names_kept text i f :
  assigned_names text !! i = Some (Some f) →
  f ≠ "config.json" →
  (∀ j, j ≠ i → assigned_names text !! j ≠ Some (Some f))
  ∧ ∃ m, blocks text !! i = Some m
         ∧ Dict.get f (_infer_files_from_blocks text) = Some (strip m.2).
Proof.
  unfold assigned_names, _infer_files_from_blocks, infer_from. intros Hi Hf.
  assert (Hno : ∀ j, j ≠ i → assigned (Counters 0 0 0) (blocks text) !! j ≠ Some (Some f)).
  { intros j Hj. eapply assigned_distinct; [| done..]. done. }
  split; [done |]. by apply get_foldl_infer.
Qed.

Lemma inferred_names_kept_witness :
  (∀ j, j ≠ 1 → assigned_names site_text !! j ≠ Some (Some "page1.html"))
  ∧ ∃ m, blocks site_text !! 1 = Some m
         ∧ Dict.get "page1.html" (_infer_files_from_blocks site_text) = Some (strip m.2).
Proof.
  apply (inferred_names_kept site_text 1 "page1.html").
  - vm_compute. reflexivity.
  - discriminate.
Defined.

(** C6 as stated fails for JSON: both blocks are named [config.json] and
    the second overwrites the first. *)
Lemma json_blocks_collide :
  assigned_names two_json_text = [Some "config.json"; Some "config.json"]
  ∧ blocks two_json_text = [("json", "{}" +:+ nl); ("json", "[1]" +:+ nl)]
  ∧ _infer_files_from_blocks two_json_text = [("config.json", "[1]")].
Proof. split_and!; vm_compute; reflexivity. Qed.

End extractor_proofs.


(* ===================================================================== *)
(** * Division of ints: no overflow within range *)
(* ===================================================================== *)

Section float_facts.
Import JobRunner.
Local Open Scope Z_scope.

Lemma digits2_pos_size p : digits2_pos p = Pos.size p.
Proof. induction p; simpl; congruence. Qed.

Lemma Zdigits2_bounds m : 0 < m → 2 ^ (Zdigits2 m - 1) ≤ m < 2 ^ Zdigits2 m.
Proof.
  destruct m as [|p|p]; try lia. intros _. cbn [Zdigits2]. rewrite digits2_pos_size.
  pose proof (Pos.size_gt p) as Hgt. pose proof (Pos.size_le p) as Hle.
  apply Pos2Z.pos_lt_pos in Hgt. apply Pos2Z.pos_le_pos in Hle.
  rewrite Pos2Z.inj_pow in Hgt, Hle. change (Z.pos 2) with 2 in *.
  split; [| exact Hgt].
  replace (Z.pos (Pos.size p)) with (Z.succ (Z.pos (Pos.size p) - 1)) in Hle by lia.
  rewrite Z.pow_succ_r in Hle by lia. lia.
Qed.

Lemma Zdigits2_nonneg m : 0 ≤ Zdigits2 m.
Proof. by destruct m. Qed.

Lemma Zdigits2_le m k : 0 ≤ m → 0 ≤ k → m < 2 ^ k → Zdigits2 m ≤ k.
Proof.
  intros Hm Hk Hlt. destruct (Z.eq_dec m 0) as [->|Hne]; [done |].
  destruct (Zdigits2_bounds m) as [Hlo _]; [lia |].
  destruct (Z.le_gt_cases (Zdigits2 m) k) as [|Hgt]; [done |].
  assert (2 ^ k ≤ 2 ^ (Zdigits2 m - 1)) by (apply Z.pow_le_mono_r; lia). lia.
Qed.

Lemma Zdigits2_lt m : 0 ≤ m → m < 2 ^ Zdigits2 m.
Proof.
  intros Hm. destruct (Z.eq_dec m 0) as [->|Hne]; [done |].
  apply Zdigits2_bounds. lia.
Qed.

Lemma Zdigits2_div m n :
  0 ≤ m → 0 ≤ n → Zdigits2 (m / 2 ^ n) ≤ Z.max (Zdigits2 m - n) 0.
Proof.
  intros Hm Hn. pose proof (Zdigits2_lt m Hm) as Hlt.
  pose proof (Zdigits2_nonneg m) as Hd.
  assert (Hp : 0 < 2 ^ n) by (apply Z.pow_pos_nonneg; lia).
  apply Zdigits2_le; [apply Z.div_pos; lia | lia |].
  apply Z.div_lt_upper_bound; [done |].
  destruct (Z.le_gt_cases n (Zdigits2 m)) as [Hle|Hgt].
  - rewrite Z.max_l by lia. rewrite <- Z.pow_add_r by lia.
    by replace (n + (Zdigits2 m - n)) with (Zdigits2 m) by lia.
  - rewrite Z.max_r by lia. rewrite Z.mul_1_r.
    assert (2 ^ Zdigits2 m ≤ 2 ^ n) by (apply Z.pow_le_mono_r; lia). lia.
Qed.

Lemma Zdigits2_succ m : 0 ≤ m → Zdigits2 (m + 1) ≤ Zdigits2 m + 1.
Proof.
  intros Hm. pose proof (Zdigits2_lt m Hm). pose proof (Zdigits2_nonneg m).
  apply Zdigits2_le; [lia | lia |]. rewrite Z.pow_add_r by lia. lia.
Qed.

(** One step to the right halves the mantissa. *)
Lemma shr_1_m mrs : 0 ≤ shr_m mrs → shr_m (shr_1 mrs) = shr_m mrs / 2.
Proof.
  destruct mrs as [m r s]. cbn [shr_m shr_1]. intros Hm.
  rewrite <- Z.div2_div. by destruct m as [|[p|p|]|].
Qed.

Lemma iter_shr_1 p mrs :
  0 ≤ shr_m mrs → shr_m (SpecFloat.iter_pos shr_1 p mrs) = shr_m mrs / 2 ^ Z.pos p.
Proof.
  revert mrs. induction p as [p IH|p IH|]; intros mrs Hm; cbn [SpecFloat.iter_pos].
  - assert (H1 : 0 ≤ shr_m (shr_1 mrs)).
    { rewrite shr_1_m by done. apply Z.div_pos; lia. }
    assert (H2 : 0 ≤ shr_m (SpecFloat.iter_pos shr_1 p (shr_1 mrs))).
    { rewrite IH by done. apply Z.div_pos; [done |]. apply Z.pow_pos_nonneg; lia. }
    rewrite IH, IH, shr_1_m by done.
    rewrite !Z.div_div by (try apply Z.pow_pos_nonneg; lia).
    f_equal. replace (Z.pos p~1) with (1 + Z.pos p + Z.pos p) by lia.
    rewrite !Z.pow_add_r by lia. lia.
  - assert (H2 : 0 ≤ shr_m (SpecFloat.iter_pos shr_1 p mrs)).
    { rewrite IH by done. apply Z.div_pos; [done |]. apply Z.pow_pos_nonneg; lia. }
    rewrite IH, IH by done.
    rewrite !Z.div_div by (try apply Z.pow_pos_nonneg; lia).
    f_equal. replace (Z.pos p~0) with (Z.pos p + Z.pos p) by lia.
    by rewrite Z.pow_add_r by lia.
  - by apply shr_1_m.
Qed.

Lemma shr_record_of_loc_m m l : shr_m (shr_record_of_loc m l) = m.
Proof. by destruct l as [|[]]. Qed.

(** What [shr_fexp] returns: the mantissa shifted to the exponent
    [Z.max e (fexp (digits + e))]. *)
Lemma shr_fexp_spec m e l :
  0 ≤ m →
  let e1 := Z.max e (fexp prec emax (Zdigits2 m + e)) in
  (shr_fexp prec emax m e l).2 = e1
  ∧ shr_m (shr_fexp prec emax m e l).1 = m / 2 ^ (e1 - e).
Proof.
  intros Hm e1. unfold shr_fexp, shr.
  destruct (fexp prec emax (Zdigits2 m + e) - e) as [|p|p] eqn:Hn; cbn [fst snd].
  - assert (e1 = e) as -> by lia. rewrite Z.sub_diag, Z.div_1_r.
    split; [done | apply shr_record_of_loc_m].
  - assert (e1 - e = Z.pos p) as -> by lia. split; [lia |].
    rewrite iter_shr_1 by (rewrite shr_record_of_loc_m; done).
    by rewrite shr_record_of_loc_m.
  - assert (e1 = e) as -> by lia. rewrite Z.sub_diag, Z.div_1_r.
    split; [done | apply shr_record_of_loc_m].
Qed.

Lemma round_nearest_even_bounds m l :
  0 ≤ m → m ≤ round_nearest_even m l ≤ m + 1.
Proof. intros Hm. destruct l as [|[]]; simpl; try lia. destruct (Z.even m); lia. Qed.

(** Rounding a mantissa of [k] digits at exponent [e] does not overflow
    when [k + e] is below [emax]. *)
Lemma binary_round_aux_finite s m e l :
  0 ≤ m → e ≤ 970 → Zdigits2 m + e ≤ 1023 →
  finite (binary_round_aux prec emax s m e l) = true.
Proof.
  intros Hm He Hd. unfold binary_round_aux.
  destruct (shr_fexp_spec m e l Hm) as [He1 Hm1].
  destruct (shr_fexp prec emax m e l) as [mrs' e'] eqn:H1. cbn [fst snd] in He1, Hm1.
  set (m1 := round_nearest_even (shr_m mrs') (loc_of_shr_record mrs')).
  assert (Hm1' : 0 ≤ shr_m mrs').
  { rewrite Hm1. apply Z.div_pos; [done |]. apply Z.pow_pos_nonneg; lia. }
  pose proof (round_nearest_even_bounds (shr_m mrs') (loc_of_shr_record mrs') Hm1') as Hr.
  fold m1 in Hr.
  destruct (shr_fexp_spec m1 e' loc_Exact ltac:(lia)) as [He2 Hm2].
  destruct (shr_fexp prec emax m1 e' loc_Exact) as [mrs'' e''] eqn:H2.
  cbn [fst snd] in He2, Hm2.
  assert (Hm2' : 0 ≤ shr_m mrs'').
  { rewrite Hm2. apply Z.div_pos; [lia |]. apply Z.pow_pos_nonneg; lia. }
  assert (Hd1 : Zdigits2 m1 + e' ≤ 1024).
  { assert (Zdigits2 m1 ≤ Zdigits2 (shr_m mrs') + 1).
    { destruct (Z.eq_dec m1 (shr_m mrs')) as [->|]; [lia |].
      replace m1 with (shr_m mrs' + 1) by lia. by apply Zdigits2_succ. }
    assert (Zdigits2 (shr_m mrs') ≤ Z.max (Zdigits2 m - (e' - e)) 0).
    { rewrite Hm1, <- He1. apply Zdigits2_div; [done |]. lia. }
    unfold fexp, emin, prec, emax in He1. lia. }
  assert (e'' ≤ 971).
  { unfold fexp, emin, prec, emax in He1, He2. lia. }
  destruct (shr_m mrs'') as [|p|p]; [done | | lia].
  unfold emax, prec. by rewrite (proj2 (Z.leb_le e'' (1024 - 53))) by lia.
Qed.

(** The quotient the division hands to the rounding. *)
Lemma SFdiv_core_bounds mx my :
  let '(q, e, l) := SFdiv_core_binary prec emax (Z.pos mx) 0 (Z.pos my) 0 in
  0 ≤ q ∧ e ≤ 0
  ∧ Zdigits2 q + e ≤ Z.max (Zdigits2 (Z.pos mx) - Zdigits2 (Z.pos my) + 1) e.
Proof.
  unfold SFdiv_core_binary.
  set (d1 := Zdigits2 (Z.pos mx)). set (d2 := Zdigits2 (Z.pos my)).
  rewrite !Z.add_0_r, Z.sub_0_r.
  set (e := Z.min (fexp prec emax (d1 - d2)) 0).
  assert (Hs : 0 ≤ 0 - e) by lia.
  set (m' := match 0 - e with
             | Z.pos _ => Z.shiftl (Z.pos mx) (0 - e)
             | 0 => Z.pos mx
             | Z.neg _ => 0
             end).
  assert (Hm' : m' = Z.pos mx * 2 ^ (0 - e)).
  { unfold m'. destruct (0 - e) as [|p|p] eqn:Hp; [lia | | lia].
    by rewrite Z.shiftl_mul_pow2 by lia. }
  clearbody m'.
  pose proof (Z_div_mod m' (Z.pos my) ltac:(lia)) as Hdm.
  destruct (Z.div_eucl m' (Z.pos my)) as [q r]. destruct Hdm as [Hq Hr].
  destruct (Zdigits2_bounds (Z.pos mx) ltac:(lia)) as [_ Hx]. fold d1 in Hx.
  destruct (Zdigits2_bounds (Z.pos my) ltac:(lia)) as [Hy _]. fold d2 in Hy.
  assert (Hd1 : 0 < d1) by (unfold d1; simpl; lia).
  assert (Hd2 : 0 < d2) by (unfold d2; simpl; lia).
  assert (Hp : 0 < 2 ^ (0 - e)) by (apply Z.pow_pos_nonneg; lia).
  assert (Hq0 : 0 ≤ q) by nia.
  split_and!; [done | lia |].
  set (K := Z.max (d1 - e - d2 + 1) 0).
  enough (Zdigits2 q ≤ K) by lia.
  apply Zdigits2_le; [done | lia |].
  assert (Hlt : m' < 2 ^ (d1 + (0 - e))).
  { rewrite Hm', Z.pow_add_r by lia. nia. }
  destruct (Z.le_gt_cases 0 (d1 - e - d2 + 1)) as [Hk|Hk].
  - unfold K. rewrite Z.max_l by lia.
    assert (Hpow : 2 ^ (d1 + (0 - e)) = 2 ^ (d2 - 1) * 2 ^ (d1 - e - d2 + 1)).
    { rewrite <- Z.pow_add_r by lia. f_equal. lia. }
    assert (0 < 2 ^ (d1 - e - d2 + 1)) by (apply Z.pow_pos_nonneg; lia).
    nia.
  - unfold K. rewrite Z.max_r by lia. simpl.
    assert (2 ^ (d1 + (0 - e)) ≤ 2 ^ (d2 - 1)) by (apply Z.pow_le_mono_r; lia).
    nia.
Qed.

Lemma SFdiv_int_finite sx mx sy my :
  Zdigits2 (Z.pos mx) ≤ Zdigits2 (Z.pos my) + 1022 →
  finite (SFdiv prec emax (S754_finite sx mx 0) (S754_finite sy my 0)) = true.
Proof.
  intros Hd. cbn [SFdiv].
  pose proof (SFdiv_core_bounds mx my) as Hc.
  destruct (SFdiv_core_binary prec emax (Z.pos mx) 0 (Z.pos my) 0) as [[q e] l].
  destruct Hc as (Hq & He & Hqd).
  apply binary_round_aux_finite; lia.
Qed.

(** Dividing an int of magnitude at most [n * 2 ^ 1000] by [n] raises
    nothing. *)
Lemma true_div_in_range a n :
  0 < n → Z.abs a ≤ n * 2 ^ 1000 →
  ∃ f, true_div a n = Ret f ∧ finite f = true.
Proof.
  intros Hn Ha. unfold true_div. rewrite (proj2 (Z.eqb_neq n 0)) by lia.
  assert (Hfin : finite (SFdiv prec emax (of_int a) (of_int n)) = true).
  { destruct n as [|my|my]; try lia.
    assert (Hdig : ∀ mx, Z.pos mx ≤ Z.pos my * 2 ^ 1000 →
              Zdigits2 (Z.pos mx) ≤ Zdigits2 (Z.pos my) + 1022).
    { intros mx Hmx. pose proof (Zdigits2_lt (Z.pos my) ltac:(lia)) as Hy.
      pose proof (Zdigits2_nonneg (Z.pos my)).
      enough (Zdigits2 (Z.pos mx) ≤ Zdigits2 (Z.pos my) + 1000) by lia.
      apply Zdigits2_le; [lia | lia |]. rewrite Z.pow_add_r by lia.
      assert (0 < 2 ^ 1000) by (apply Z.pow_pos_nonneg; lia). nia. }
    destruct a as [|mx|mx]; cbn [of_int]; [done | |];
      apply SFdiv_int_finite, Hdig; lia. }
  rewrite Hfin. eauto.
Qed.


End float_facts.

(* ===================================================================== *)
(** * The leaderboard *)
(* ===================================================================== *)

Section leaderboard_proofs.
Import PyStr JobRunner Scenarios.

Implicit Types (flat : list (string * result)) (d : list (string * model_data)).

Lemma aggregate_flat all_results :
  aggregate all_results = foldl add_result [] (concat (all_results.*2)).
Proof.
  unfold aggregate. generalize (@nil (string * model_data)).
  induction all_results as [|[q rs] l IH]; intros d; simpl; [done |].
  by rewrite foldl_app, IH.
Qed.

Lemma get_elem_NoDup {V} k (v : V) (d : list (string * V)) :
  NoDup (Dict.keys d) → (k, v) ∈ d → Dict.get k d = Some v.
Proof.
  unfold Dict.keys. induction d as [|[k' v'] d IH]; simpl.
  - by intros _ ?%elem_of_nil.
  - intros [Hk Hd]%NoDup_cons [[= -> ->]|Hin]%elem_of_cons.
    + by rewrite decide_True.
    + rewrite decide_False; [by apply IH |].
      intros ->. apply Hk. apply list_elem_of_fmap. by exists (k', v).
Qed.

Lemma add_result_keys d mr :
  NoDup (Dict.keys d) → NoDup (Dict.keys (add_result d mr)).
Proof.
  intros Hd. unfold add_result.
  destruct (Dict.mem mr.1 d); destruct (Dict.get _ _); auto using keys_set_NoDup.
Qed.

Lemma add_result_get_eq d mr :
  Dict.get mr.1 (add_result d mr)
  = Some (match Dict.get mr.1 d with
          | Some md => Data (scores md ++ [r_score mr.2])
                         (if r_passed mr.2 then S (passed_count md) else passed_count md)
          | None => Data [r_score mr.2] (if r_passed mr.2 then 1 else 0)
          end).
Proof.
  unfold add_result, Dict.mem.
  destruct (Dict.get mr.1 d) as [md|] eqn:Hg.
  - rewrite Hg. by rewrite get_set_eq.
  - rewrite get_set_eq. by rewrite get_set_eq.
Qed.

Lemma add_result_get_ne d mr m :
  m ≠ mr.1 → Dict.get m (add_result d mr) = Dict.get m d.
Proof.
  intros Hne. unfold add_result, Dict.mem.
  destruct (Dict.get mr.1 d) as [md|] eqn:Hg.
  - rewrite Hg. by rewrite get_set_ne.
  - rewrite get_set_eq. by rewrite !get_set_ne.
Qed.

Lemma passes_snoc rs r :
  passes (rs ++ [r]) = (passes rs + (if r_passed r then 1 else 0))%nat.
Proof.
  unfold passes. rewrite filter_app, length_app. f_equal.
  rewrite filter_cons, filter_nil. destruct (r_passed r); by case_decide.
Qed.

Lemma by_model_snoc m flat mr :
  by_model m (flat ++ [mr])
  = by_model m flat ++ (if decide (mr.1 = m) then [mr.2] else []).
Proof.
  unfold by_model. rewrite filter_app, fmap_app. f_equal.
  rewrite filter_cons, filter_nil. by case_decide.
Qed.

(** What the aggregation loop has stored for a model. *)
Lemma aggregate_get flat m :
  Dict.get m (foldl add_result [] flat)
  = match by_model m flat with
    | [] => None
    | rs => Some (Data (r_score <$> rs) (passes rs))
    end.
Proof.
  induction flat as [|mr flat IH] using rev_ind; [done |].
  rewrite foldl_app, by_model_snoc. cbn [foldl].
  case_decide as Hm.
  - subst m. rewrite add_result_get_eq, IH.
    destruct (by_model mr.1 flat) as [|r rs] eqn:Hrs.
    + cbn [app]. f_equal. f_equal. unfold passes.
      rewrite filter_cons, filter_nil. destruct (r_passed mr.2); by case_decide.
    + change ((r :: rs) ++ [mr.2]) with (r :: (rs ++ [mr.2])).
      cbv iota. f_equal. cbn [scores passed_count].
      change (r :: (rs ++ [mr.2])) with ((r :: rs) ++ [mr.2]).
      rewrite fmap_app, passes_snoc. f_equal.
      destruct (r_passed mr.2); lia.
  - rewrite add_result_get_ne by congruence. by rewrite IH, app_nil_r.
Qed.

Lemma aggregate_keys flat : NoDup (Dict.keys (foldl add_result [] flat)).
Proof.
  induction flat as [|mr flat IH] using rev_ind; [apply NoDup_nil_2 |].
  rewrite foldl_app. simpl. by apply add_result_keys.
Qed.

(** Every stored model has at least one result, and its data are the
    scores and the number of passes of its results. *)
Lemma aggregate_elem flat m md :
  (m, md) ∈ foldl add_result [] flat →
  ∃ r rs, by_model m flat = r :: rs
          ∧ md = Data (r_score <$> r :: rs) (passes (r :: rs)).
Proof.
  intros Hin. apply get_elem_NoDup in Hin; [| apply aggregate_keys].
  rewrite aggregate_get in Hin.
  destruct (by_model m flat) as [|r rs]; [done |].
  apply (inj Some) in Hin. eauto.
Qed.

Lemma passes_le rs : (passes rs ≤ length rs)%nat.
Proof. unfold passes. apply length_filter. Qed.

(** *** The two divisions *)



Lemma over_len_in_range x n :
  (Z.abs x ≤ Z.of_nat n * 2 ^ 1000)%Z → ∃ v, over_len x n = Ret v.
Proof.
  intros Hx. unfold over_len. destruct (0 <? n)%nat eqn:Hn; [| eauto].
  apply Nat.ltb_lt in Hn.
  destruct (true_div_in_range x (Z.of_nat n)) as (f & -> & _); [lia | done | eauto].
Qed.


Lemma build_entry_fields md e :
  build_entry md = Ret e →
  e_model_name e = md.1
  ∧ total_questions e = length (scores md.2)
  ∧ e_passed_count e = passed_count md.2
  ∧ over_len (sum_scores (scores md.2)) (length (scores md.2)) = Ret (average_score e)
  ∧ over_len (Z.of_nat (passed_count md.2)) (length (scores md.2)) = Ret (pass_rate e).
Proof.
  unfold build_entry.
  destruct (over_len (sum_scores _) _) as [avg|?]; [| done].
  destruct (over_len (Z.of_nat _) _) as [rate|?]; [| done].
  by intros [= <-].
Qed.


Lemma build_entries_Forall2 d es :
  build_entries d = Ret es ↔ Forall2 (λ md e, build_entry md = Ret e) d es.
Proof.
  revert es. induction d as [|md d IH]; intros es; cbn [build_entries].
  - split; [intros [= <-]; constructor | by intros ->%Forall2_nil_inv_l].
  - split.
    + destruct (build_entry md) as [e|?] eqn:He; [| done].
      destruct (build_entries d) as [es'|?]; [| done].
      intros [= <-]. constructor; [done |]. by apply IH.
    + intros (e & es' & He & Hes & ->)%Forall2_cons_inv_l.
      rewrite He. apply IH in Hes. by rewrite Hes.
Qed.


Lemma build_entries_names d es :
  build_entries d = Ret es → e_model_name <$> es = Dict.keys d.
Proof.
  intros H%build_entries_Forall2. unfold Dict.keys.
  induction H as [|md e d es He _ IH]; [done |].
  cbn [fmap list_fmap]. f_equal; [| exact IH].
  by apply build_entry_fields in He as (-> & _).
Qed.

Lemma build_entries_elem d es e :
  build_entries d = Ret es → e ∈ es → ∃ md, md ∈ d ∧ build_entry md = Ret e.
Proof.
  intros H%build_entries_Forall2 He.
  induction H as [|md e' d es Hb _ IH]; [by apply elem_of_nil in He |].
  apply elem_of_cons in He as [->|He].
  - exists md. split; [apply list_elem_of_here | done].
  - destruct (IH He) as (md' & ? & ?). exists md'. split; [by apply list_elem_of_further | done].
Qed.


(** *** Comparisons and the sort *)




Lemma insert_desc_perm x l : insert_desc x l ≡ₚ x :: l.
Proof.
  induction l as [|y l IH]; simpl; [done |].
  destruct (num_lt _ _); [| done]. rewrite IH. apply Permutation_swap.
Qed.

Lemma sort_desc_perm l : sort_desc l ≡ₚ l.
Proof.
  induction l as [|x l IH]; simpl; [done |].
  rewrite insert_desc_perm. by rewrite IH.
Qed.









Lemma sample_leaderboard :
  _calculate_leaderboard sample_results
  = Ret [Entry "b" (Float hundred) 2 1 (Float half);
         Entry "a" (Float twenty_five) 2 1 (Float half)].
Proof. vm_compute. reflexivity. Qed.

(** Python agrees: [1 / 3], [(2 ** 53 + 1) / 1] (a tie, to even) and
    [1 / 2 ** 1075] (a tie between 0 and the least float). *)
Example true_div_samples :
  true_div 1 3 = Ret (S754_finite false 6004799503160661 (-54))
  ∧ true_div (2 ^ 53 + 1) 1 = Ret (S754_finite false 4503599627370496 1)
  ∧ true_div 1 (2 ^ 1075) = Ret (S754_zero false)
  ∧ true_div (-7) 2 = Ret (S754_finite true 7881299347898368 (-51))
  ∧ true_div 5 0 = Raise (Exn OtherException "division by zero").
Proof. split_and!; vm_compute; reflexivity. Qed.

End leaderboard_proofs.

(* ===================================================================== *)
(** * Responses without a code fence: the patterns *)
(* ===================================================================== *)

Section fence_proofs.
Import PyStr Re ArtifactExtractor CodeExecutor Fences Combine Gather Cases.

Lemma is_suffix_refl s : is_suffix s s.
Proof. by exists "". Qed.

Lemma is_suffix_trans s1 s2 s3 : is_suffix s1 s2 → is_suffix s2 s3 → is_suffix s1 s3.
Proof.
  intros [p ->] [q ->]. exists (q +:+ p).
  induction q as [|c q IH]; [done |]. rewrite !app_cons. by f_equal.
Qed.

Lemma is_suffix_cons c s : is_suffix s (String c s).
Proof. by exists (String c ""). Qed.

Lemma contains_cons t c s : contains t s = true → contains t (String c s) = true.
Proof. intros H. simpl. rewrite H. by destruct (startswith t _). Qed.

Lemma contains_suffix t s' s : is_suffix s' s → contains t s' = true → contains t s = true.
Proof.
  intros [p ->] H. induction p as [|c p IH]; [done |].
  rewrite app_cons. by apply contains_cons.
Qed.

Lemma startswith_contains t s : startswith t s = true → contains t s = true.
Proof. intros H. destruct s; simpl in *; by rewrite H. Qed.

Lemma star_reaches g p s k o :
  star g p s k = Some o → ∃ s', is_suffix s' s ∧ k s' = Some o.
Proof.
  induction s as [|c s IH]; simpl.
  - intros H. exists "". split; [apply is_suffix_refl | done].
  - destruct g.
    + destruct (p c).
      * destruct (star true p s k) as [o'|] eqn:Hs.
        -- intros [= ->]. destruct (IH eq_refl) as (s' & Hsuf & Hk).
           exists s'. split; [| done].
           eapply is_suffix_trans; [exact Hsuf | apply is_suffix_cons].
        -- intros H. exists (String c s). split; [apply is_suffix_refl | done].
      * intros H. exists (String c s). split; [apply is_suffix_refl | done].
    + destruct (k (String c s)) as [o'|] eqn:Hk.
      * intros [= ->]. exists (String c s). split; [apply is_suffix_refl | done].
      * destruct (p c); [| done]. intros (s' & Hsuf & Hk')%IH.
        exists s'. split; [| done].
        eapply is_suffix_trans; [exact Hsuf | apply is_suffix_cons].
Qed.

(** A successful match hands what it has not read to its continuation. *)
Lemma run_reaches r : ∀ s cs k o,
  run r s cs k = Some o → ∃ s' cs', is_suffix s' s ∧ k s' cs' = Some o.
Proof.
  induction r as [|p|r1 IH1 r2 IH2|r1 IH1 r2 IH2|g p|n r IH]; intros s cs k o; simpl.
  - intros H. exists s, cs. split; [apply is_suffix_refl | done].
  - destruct s as [|c s]; [done |]. destruct (p c); [| done].
    intros H. exists s, cs. split; [apply is_suffix_cons | done].
  - intros (s1 & cs1 & Hsuf1 & H1)%IH1. apply IH2 in H1 as (s2 & cs2 & Hsuf2 & H2).
    exists s2, cs2. split; [| done]. by eapply is_suffix_trans.
  - destruct (run r1 s cs k) as [o'|] eqn:H1.
    + intros [= ->]. by apply IH1 in H1.
    + apply IH2.
  - intros (s' & Hsuf & Hk)%star_reaches. by exists s', cs.
  - intros (s' & cs' & Hsuf & Hk)%IH. by eexists s', _.
Qed.

Lemma fenced_seq_r r1 r2 : fenced r2 → fenced (Seq r1 r2).
Proof.
  intros H2 s cs k o. simpl. intros (s1 & cs1 & Hsuf & H1)%run_reaches.
  eapply contains_suffix; [exact Hsuf |]. by eapply H2.
Qed.

Lemma fenced_alt r1 r2 : fenced r1 → fenced r2 → fenced (Alt r1 r2).
Proof.
  intros H1 H2 s cs k o. simpl. destruct (run r1 s cs k) eqn:Hr.
  - intros _. by eapply H1.
  - apply H2.
Qed.

Lemma chi_tick c : chi "`" c = true → c = "`"%char.
Proof.
  destruct c as [[] [] [] [] [] [] [] []]; vm_compute; (done || discriminate).
Qed.

Lemma ch_tick c : ch "`" c = true → c = "`"%char.
Proof. unfold ch. by intros ?%bool_decide_eq_true. Qed.

Lemma fenced_three p1 p2 p3 r :
  (∀ c, p1 c = true → c = "`"%char) →
  (∀ c, p2 c = true → c = "`"%char) →
  (∀ c, p3 c = true → c = "`"%char) →
  fenced (Seq (Seq (Chr p1) (Seq (Chr p2) (Seq (Chr p3) Eps))) r).
Proof.
  intros H1 H2 H3 s cs k o. simpl.
  destruct s as [|c1 s]; [done |]. destruct (p1 c1) eqn:E1; [| done].
  destruct s as [|c2 s]; [done |]. destruct (p2 c2) eqn:E2; [| done].
  destruct s as [|c3 s]; [done |]. destruct (p3 c3) eqn:E3; [| done].
  intros _. apply H1 in E1 as ->. apply H2 in E2 as ->. apply H3 in E3 as ->.
  apply startswith_contains. simpl. by repeat (destruct (ascii_dec _ _); [| done]).
Qed.

Lemma fenced_fence r : fenced (Seq fence r).
Proof. apply fenced_three; apply ch_tick. Qed.

Lemma fenced_fence_i r : fenced (Seq (liti "```") r).
Proof. apply fenced_three; apply chi_tick. Qed.

Local Ltac fenced := repeat first [apply fenced_fence | apply fenced_fence_i | apply fenced_seq_r].

Lemma fenced_patterns :
  fenced ArtifactExtractor.pattern1 ∧ fenced ArtifactExtractor.pattern2
  ∧ fenced ArtifactExtractor.pattern3 ∧ fenced ArtifactExtractor.pattern4
  ∧ fenced pattern_blocks ∧ fenced CodeExecutor.pattern1 ∧ fenced CodeExecutor.pattern2.
Proof.
  unfold ArtifactExtractor.pattern1, ArtifactExtractor.pattern2, ArtifactExtractor.pattern3,
    ArtifactExtractor.pattern4, pattern_blocks, CodeExecutor.pattern1, CodeExecutor.pattern2.
  split_and!; cbn [seqs]; fenced.
Qed.

Lemma contains_tail t c s : contains t (String c s) = false → contains t s = false.
Proof. simpl. intros [_ ?]%orb_false_iff. done. Qed.

Lemma findall_go_no_fence r fuel s :
  fenced r → contains "```" s = false → findall_go fuel r s = [].
Proof.
  intros Hr. revert s. induction fuel as [|fuel IH]; intros s Hs; simpl; [done |].
  destruct (match_here r s) as [[cs rest]|] eqn:Hm.
  { unfold match_here in Hm. apply Hr in Hm. congruence. }
  destruct s as [|c s]; [done |]. apply IH. by eapply contains_tail.
Qed.

Lemma findall_no_fence r s : fenced r → contains "```" s = false → findall r s = [].
Proof. intros. by apply findall_go_no_fence. Qed.

End fence_proofs.

(* ===================================================================== *)
(** * Responses without a code fence: extraction and verdict *)
(* ===================================================================== *)

Section plain_text_proofs.
Import PyStr Re ArtifactExtractor Sandbox CodeExecutor Scenarios Fences Combine Gather Cases.

Lemma no_fence_no_files text :
  contains "```" text = false → _extract_files_from_response text = [].
Proof.
  intros Hno. destruct fenced_patterns as (F1 & F2 & F3 & F4 & F5 & _).
  unfold _extract_files_from_response, named_files, matches1, matches2, matches3, matches4,
    _infer_files_from_blocks, blocks.
  by rewrite !findall_no_fence.
Qed.

Lemma no_fence_no_code text :
  contains "```" text = false → _extract_code text = sniff text.
Proof.
  intros Hno. destruct fenced_patterns as (_ & _ & _ & _ & _ & F6 & F7).
  unfold _extract_code. destruct (truthy text) eqn:Ht; simpl.
  - unfold lang_code. by rewrite !findall_no_fence.
  - by apply truthy_false in Ht as ->.
Qed.

(** X1.  A text that holds no code fence (three backquotes) yields no file
    at all: [_extract_files_from_response] returns the empty mapping,
    [extract_multi_file_artifact] returns [None], and [_extract_code] finds
    no fenced block, so its answer is that of its fallback detection on the
    bare text. *)
Theorem no_fence_no_blocks text :
  contains "```" text = false →
  _extract_files_from_response text = []
  ∧ (∀ base id, extract_multi_file_artifact base text id = None)
  ∧ _extract_code text = sniff text.
Proof.
  intros Hno. split_and!.
  - by apply no_fence_no_files.
  - intros base id. unfold extract_multi_file_artifact.
    by rewrite no_fence_no_files.
  - by apply no_fence_no_code.
Qed.

Lemma no_fence_no_blocks_witness :
  _extract_files_from_response refusal_text = []
  ∧ (∀ base id, extract_multi_file_artifact base refusal_text id = None)
  ∧ _extract_code refusal_text = sniff refusal_text.
Proof. apply no_fence_no_blocks. reflexivity. Defined.

(** X2.  For a response without error whose text is not empty, holds no code
    fence and does not look like a page, a Python script or a JavaScript
    script, [evaluate] returns score 0, not passed, with the reasoning that
    says the response does not contain markdown code blocks. *)
Theorem plain_text_scores_zero timeout base w question response text :
  truthy_opt (error response) = false →
  response_text response = Some text →
  truthy text = true →
  contains "```" text = false →
  sniff text = (None, None) →
  evaluate timeout base w question response
  = Ret {| ev_question_id := q_id question;
           ev_model_name := model_name response;
           score := 0;
           passed := false;
           evaluation_type := "code_execution";
           reasoning :=
             "No code block found in response. Response does not contain markdown code blocks (```)." |}.
Proof.
  intros Herr Htext Ht Hno Hsniff.
  unfold evaluate. rewrite Herr, Htext. simpl. rewrite Ht. simpl.
  unfold extract_multi_file_artifact. rewrite (no_fence_no_files text Hno).
  rewrite (no_fence_no_code text Hno), Hsniff. simpl.
  unfold no_code_reasoning. rewrite Ht, Hno. reflexivity.
Qed.

Lemma plain_text_scores_zero_witness :
  evaluate 10 "/tmp/llm_bench_artifacts" (quiet_world "") hi_question (answer refusal_text)
  = Ret {| ev_question_id := "q1";
           ev_model_name := "m";
           score := 0;
           passed := false;
           evaluation_type := "code_execution";
           reasoning :=
             "No code block found in response. Response does not contain markdown code blocks (```)." |}.
Proof.
  apply (plain_text_scores_zero 10 "/tmp/llm_bench_artifacts" (quiet_world "")
           hi_question (answer refusal_text) refusal_text); reflexivity.
Defined.

End plain_text_proofs.

(* ===================================================================== *)
(** * The language [_extract_code] reports *)
(* ===================================================================== *)

Section language_proofs.
Import PyStr Re ArtifactExtractor Sandbox CodeExecutor Scenarios Fences Combine Gather Cases.

(** Only untagged blocks are ever kept as "other". *)
Lemma categorize_other b m :
  Forall (λ p, p.1 = "") (other_blocks b) →
  Forall (λ p, p.1 = "") (other_blocks (categorize b m)).
Proof.
  intros Hb. unfold categorize.
  repeat (case_match; simpl; try done).
  apply Forall_app. split; [done |]. constructor; [| done].
  simpl. apply truthy_false. by apply negb_true_iff.
Qed.

Lemma foldl_categorize_other ms b :
  Forall (λ p, p.1 = "") (other_blocks b) →
  Forall (λ p, p.1 = "") (other_blocks (foldl categorize b ms)).
Proof.
  revert b. induction ms as [|m ms IH]; intros b Hb; simpl; [done |].
  by apply IH, categorize_other.
Qed.

Local Ltac among := repeat first [apply list_elem_of_here | apply list_elem_of_further].

Lemma combine_language b code language :
  Forall (λ p, p.1 = "") (other_blocks b) →
  combine b = (Some code, Some language) →
  language ∈ ["html"; "python"; "javascript"; "unknown"].
Proof.
  intros Hb. unfold combine.
  destruct (html_blocks b).
  2: { destruct (List.find _ _); intros [= _ <-]; among. }
  destruct (python_blocks b); [| intros [= _ <-]; among].
  destruct (js_blocks b); [| intros [= _ <-]; among].
  destruct (css_blocks b); [| intros [= _ <-]; among].
  destruct (other_blocks b) as [|[lang c] l]; [done |].
  apply Forall_cons in Hb as [Hl _]. cbn [fst] in Hl. subst lang.
  intros [= _ <-]. change (truthy "") with false. cbv iota. among.
Qed.

Lemma combine_paired b :
  match combine b with
  | (Some _, Some _) | (None, None) => True
  | _ => False
  end.
Proof.
  unfold combine.
  destruct (html_blocks b); [| by destruct (List.find _ _)].
  destruct (python_blocks b); [| done].
  destruct (js_blocks b); [| done].
  destruct (css_blocks b); [| done].
  by destruct (other_blocks b) as [|[lang c] l].
Qed.

Lemma sniff_language text :
  match sniff text with
  | (Some _, Some language) => language ∈ ["html"; "python"; "javascript"; "unknown"]
  | (None, None) => True
  | _ => False
  end.
Proof.
  unfold sniff.
  destruct (_ || _); [among |].
  destruct (_ || _); [among |].
  destruct (_ || _); [among | done].
Qed.

Lemma extract_code_cases text :
  _extract_code text = (None, None)
  ∨ ∃ code language,
      _extract_code text = (Some code, Some language)
      ∧ language ∈ ["html"; "python"; "javascript"; "unknown"].
Proof.
  unfold _extract_code. destruct (negb (truthy text)); [by left |].
  set (matches := match lang_code pattern1 text with [] => _ | _ => _ end).
  destruct matches as [|m ms] eqn:Hm.
  { pose proof (sniff_language text) as Hs.
    destruct (sniff text) as [[code|] [language|]]; try done; [right; eauto | by left]. }
  rewrite <- Hm. clear Hm.
  pose proof (foldl_categorize_other matches (Blocks [] [] [] [] []) (Forall_nil_2 _)) as Ho.
  pose proof (combine_paired (foldl categorize (Blocks [] [] [] [] []) matches)) as Hp.
  destruct (combine _) as [[code|] [language|]] eqn:Hc; try done; [| by left].
  right. exists code, language. split; [done |]. by eapply combine_language.
Qed.

(** X3.  [_extract_code] returns code and language together or neither, and
    the language is one of html, python, javascript and unknown. *)
Theorem extracted_language text :
  match _extract_code text with
  | (Some _, Some language) => language ∈ ["html"; "python"; "javascript"; "unknown"]
  | (None, None) => True
  | _ => False
  end.
Proof.
  destruct (extract_code_cases text) as [->|(code & language & -> & Hl)].
  - done.
  - exact Hl.
Qed.

Lemma judge_reasoning question response language r :
  ∃ c why, reasoning (judge question response language r) = String "C" (String c why).
Proof.
  destruct r as [[success output] err]. unfold judge.
  destruct success; cbn [andb]; [destruct (truthy_opt _); [destruct (contains _ _) |] |];
    cbn [reasoning single]; eauto.
Qed.

Lemma execute_python timeout w code :
  execute timeout w "python" code = Some (_execute_python timeout code (os w) (dirs w)).1.
Proof. reflexivity. Qed.

Lemma execute_javascript timeout w code :
  execute timeout w "javascript" code
  = Some (_execute_javascript timeout code (os w) (dirs w)).1.
Proof. reflexivity. Qed.

Lemma execute_html timeout w code :
  execute timeout w "html" code = Some (Ret (_validate_html code)).
Proof. reflexivity. Qed.

(** X4.  An evaluation that [evaluate] returns with reasoning [Unsupported
    language: L] has [L = unknown]: no other language reaches that branch. *)
Theorem unsupported_is_unknown timeout base w question response ev language :
  evaluate timeout base w question response = Ret ev →
  reasoning ev = "Unsupported language: " +:+ language →
  language = "unknown".
Proof.
  unfold evaluate. intros Hev Hwhy.
  assert (Hsingle : ∀ why c rest, why = String c rest → c ≠ "U"%char →
            Ret (single question response 0 false why) = Ret ev → language = "unknown").
  { intros why c rest -> Hc [= <-]. cbn [reasoning single] in Hwhy. rewrite app_cons in Hwhy.
    injection Hwhy as -> _. done. }
  destruct (truthy_opt (error response)).
  { eapply (Hsingle _ "R"%char); [reflexivity | done | exact Hev]. }
  destruct (negb (truthy_opt (response_text response))).
  { eapply (Hsingle _ "R"%char); [reflexivity | done | exact Hev]. }
  set (text := default "" (response_text response)) in *.
  assert (Hblob :
    (let '(code, language) := _extract_code text in
     if negb (truthy_opt code)
     then Ret (single question response 0 false (no_code_reasoning text))
     else
       match execute timeout w (default "None" language) (default "" code) with
       | Some (Ret r) => Ret (judge question response (default "None" language) r)
       | Some (Raise e) => Raise e
       | None => Ret (single question response 0 false
                        ("Unsupported language: " +:+ default "None" language))
       end) = Ret ev → language = "unknown").
  { destruct (extract_code_cases text) as [Hx|(code & lang & Hx & Hl)]; rewrite Hx.
    - cbn [truthy_opt negb]. intros H.
      eapply (Hsingle _ "N"%char); [reflexivity | done | exact H].
    - cbn [truthy_opt default]. destruct (negb (truthy code)).
      { intros H. eapply (Hsingle _ "N"%char); [reflexivity | done | exact H]. }
      destruct (execute _ _ _ _) as [[r|e]|] eqn:He; [| done |].
      + intros [= <-].
        match type of Hwhy with reasoning (judge _ _ ?l _) = _ =>
          destruct (judge_reasoning question response l r) as (c & why & Hj) end.
        rewrite Hj, app_cons in Hwhy. discriminate Hwhy.
      + intros [= <-]. cbn [reasoning single] in Hwhy.
        apply (inj (String.app _)) in Hwhy. unfold id in Hwhy. subst lang.
        apply elem_of_cons in Hl as [->|Hl]; [by rewrite execute_html in He |].
        apply elem_of_cons in Hl as [->|Hl]; [by rewrite execute_python in He |].
        apply elem_of_cons in Hl as [->|Hl]; [by rewrite execute_javascript in He |].
        by apply list_elem_of_singleton in Hl. }
  destruct (extract_multi_file_artifact _ _ _) as [[ep fs d|ep fs c]|]; [| by auto..].
  destruct (materialize_error w); [done |]. injection Hev as <-.
  unfold _evaluate_multi_file_artifact in Hwhy.
  destruct (multi_file_components _ _ _) as [sc iss]. cbn [reasoning] in Hwhy.
  destruct (bool_decide _); rewrite !app_cons in Hwhy; discriminate Hwhy.
Qed.

Lemma unsupported_is_unknown_witness :
  reasoning (single hi_question (answer untagged_text) 0 false "Unsupported language: unknown")
  = "Unsupported language: unknown"
  ∧ "unknown" = "unknown".
Proof.
  split; [reflexivity |].
  apply (unsupported_is_unknown 10 "/tmp/llm_bench_artifacts" (quiet_world "") hi_question
           (answer untagged_text)
           (single hi_question (answer untagged_text) 0 false "Unsupported language: unknown")).
  - vm_compute. reflexivity.
  - reflexivity.
Defined.
End language_proofs.

(* ===================================================================== *)
(** * The sandbox and the HTML check *)
(* ===================================================================== *)

Section robustness_proofs.
Import PyStr Re ArtifactExtractor Sandbox CodeExecutor Scenarios Fences Combine Gather Cases.

(** *** The sandbox *)

Lemma handlers_raise_base timeout r e :
  (python_handlers timeout r = Raise e → r = Raise e ∧ exn_cls e = BaseOnly)
  ∧ (javascript_handlers timeout r = Raise e → r = Raise e ∧ exn_cls e = BaseOnly).
Proof.
  unfold python_handlers, javascript_handlers.
  destruct r as [v|e']; [done |]. destruct (exn_cls e') eqn:Hc; split; intros [= <-]; done.
Qed.

Lemma handlers_success timeout r out err :
  (python_handlers timeout r = Ret (true, out, err) → r = Ret (true, out, err))
  ∧ (javascript_handlers timeout r = Ret (true, out, err) → r = Ret (true, out, err)).
Proof.
  unfold python_handlers, javascript_handlers, timed_out.
  destruct r as [v|e']; [done |]. destruct (exn_cls e'); split; intros [=]; done.
Qed.

Lemma try_body_success w fs out err :
  (try_body w fs).1.1 = Ret (true, out, err)
  ↔ mkdtemp_error w = None ∧ write_error w = None ∧ subprocess_run w = inr (0%Z, out, err).
Proof.
  unfold try_body.
  destruct (mkdtemp_error w); [naive_solver |].
  destruct (write_error w); [naive_solver |].
  destruct (subprocess_run w) as [e|[[rc o] e]]; simpl; [naive_solver |].
  case_bool_decide; naive_solver.
Qed.

(** X5.  [_execute_python] reports success with given output and error text
    exactly when the directory was made, the script written and the child
    exited with code 0 and these texts; [_execute_javascript] needs in
    addition that [node --version] ran. *)
Theorem sandbox_success timeout code w fs out err :
  ((_execute_python timeout code w fs).1 = Ret (true, out, err)
   ↔ mkdtemp_error w = None ∧ write_error w = None
     ∧ subprocess_run w = inr (0%Z, out, err))
  ∧ ((_execute_javascript timeout code w fs).1 = Ret (true, out, err)
     ↔ node_version w = None ∧ mkdtemp_error w = None ∧ write_error w = None
       ∧ subprocess_run w = inr (0%Z, out, err)).
Proof.
  unfold _execute_python, _execute_javascript. split.
  - rewrite <- (try_body_success w fs out err). destruct (try_body w fs) as [[r d] fs1]. simpl. split.
    + apply (proj1 (handlers_success timeout r out err)).
    + by intros ->.
  - destruct (node_version w) as [e|].
    + cbn [fst snd]. split; [| naive_solver].
      intros H. by apply (proj2 (handlers_success timeout (Raise e) out err)) in H.
    + rewrite <- (try_body_success w fs out err). destruct (try_body w fs) as [[r d] fs1]. simpl. split.
      * intros H. split; [done |]. by apply (proj2 (handlers_success timeout r out err)) in H.
      * by intros [_ ->].
Qed.

(** X6.  An exception leaves [_execute_python] or [_execute_javascript] only
    if it is not an instance of [Exception] (a keyboard interrupt, a system
    exit); every other failure is returned as an unsuccessful result. *)
Theorem sandbox_raises_only_base timeout code w fs e :
  (_execute_python timeout code w fs).1 = Raise e
  ∨ (_execute_javascript timeout code w fs).1 = Raise e →
  exn_cls e = BaseOnly.
Proof.
  unfold _execute_python, _execute_javascript. intros [H|H]; revert H.
  - destruct (try_body w fs) as [[r d] fs1]. simpl.
    intros H. by apply (proj1 (handlers_raise_base timeout r e)) in H as [_ ?].
  - destruct (match node_version w with Some _ => _ | None => _ end) as [[r d] fs1]. simpl.
    intros H. by apply (proj2 (handlers_raise_base timeout r e)) in H as [_ ?].
Qed.

Lemma sandbox_raises_only_base_witness :
  exn_cls (Exn BaseOnly "KeyboardInterrupt") = BaseOnly.
Proof.
  apply (sandbox_raises_only_base 10 "print(1)" interrupted_os ∅).
  left. reflexivity.
Defined.

(** X7.  With a fresh directory name, a child that leaves the set of
    directories alone and a removal that works, a call of [_execute_python]
    or [_execute_javascript] leaves the directories exactly as it found
    them. *)
Theorem sandbox_no_residue timeout code w fs :
  temp_path w ∉ fs →
  rmtree_error w = None →
  (∀ fs', child_fs w fs' = fs') →
  (_execute_python timeout code w fs).2 = fs
  ∧ (_execute_javascript timeout code w fs).2 = fs.
Proof.
  intros Hfresh Hrm Hchild.
  assert (Hbody : cleanup w (try_body w fs).1.2 (try_body w fs).2 = fs).
  { unfold try_body. destruct (mkdtemp_error w); [done |].
    assert (Hc : cleanup w (Some (temp_path w)) ({[temp_path w]} ∪ fs) = fs).
    { unfold cleanup. rewrite temp_path_truthy, Hrm. simpl.
      rewrite bool_decide_true by set_solver. set_solver. }
    destruct (write_error w); [done |]. rewrite Hchild.
    by destruct (subprocess_run w) as [e|[[rc o] e]]. }
  unfold _execute_python, _execute_javascript. split.
  - by destruct (try_body w fs) as [[r d] fs1].
  - destruct (node_version w); [done |]. by destruct (try_body w fs) as [[r d] fs1].
Qed.

Lemma sandbox_no_residue_witness :
  (_execute_python 10 "print('hi')" (quiet_os "hi") ∅).2 = ∅
  ∧ (_execute_javascript 10 "print('hi')" (quiet_os "hi") ∅).2 = ∅.
Proof.
  apply sandbox_no_residue; [apply not_elem_of_empty | reflexivity | reflexivity].
Defined.

(** *** [_validate_html] *)

Lemma find_contains t s : is_Some (find t s) ↔ contains t s = true.
Proof.
  induction s as [|c s IH]; simpl.
  - destruct (startswith t ""); simpl; [by split; eauto |]. split; [by intros [? [=]] | done].
  - destruct (startswith t (String c s)); simpl; [by split; eauto |].
    rewrite <- IH. destruct (find t s); simpl; split; eauto; by intros [? [=]].
Qed.

(** X8.  [_validate_html] accepts a text exactly when, case-insensitively,
    it contains [<html] and [</html>], and [<body] and [</body>] occur with
    the first [</body>] not before the first [<body]. *)
Theorem validate_html_ok code :
  (_validate_html code).1.1 = true
  ↔ contains "<html" (lower code) = true ∧ contains "</html>" (lower code) = true
    ∧ ∃ i j, find "<body" (lower code) = Some i ∧ find "</body>" (lower code) = Some j
             ∧ (i ≤ j)%nat.
Proof.
  unfold _validate_html, required_tags.
  rewrite !filter_cons, filter_nil.
  pose proof (find_contains "<body" (lower code)) as Hb.
  pose proof (find_contains "</body>" (lower code)) as Hcb.
  destruct (contains "<html" (lower code)); [| by repeat case_decide; naive_solver].
  destruct (contains "</html>" (lower code)); [| by repeat case_decide; naive_solver].
  destruct (contains "<body" (lower code)).
  2: { repeat case_decide; try done; simpl; split; try done.
       all: intros (_ & _ & i & j & Hi & _); rewrite Hi in Hb;
         by destruct (proj1 Hb (mk_is_Some _ _ eq_refl)). }
  destruct (contains "</body>" (lower code)).
  2: { repeat case_decide; try done; simpl; split; try done.
       all: intros (_ & _ & i & j & _ & Hj & _); rewrite Hj in Hcb;
         by destruct (proj1 Hcb (mk_is_Some _ _ eq_refl)). }
  repeat case_decide; try done.
  destruct (proj2 Hb eq_refl) as [i Hi]. destruct (proj2 Hcb eq_refl) as [j Hj].
  rewrite Hi, Hj. destruct (j <? i)%nat eqn:Hlt; simpl.
  - apply Nat.ltb_lt in Hlt. split; [done |]. intros (_ & _ & i' & j' & [= <-] & [= <-] & ?). lia.
  - apply Nat.ltb_ge in Hlt. split; [| done]. intros _. split_and!; try done. by exists i, j.
Qed.
End robustness_proofs.

(* ===================================================================== *)
(** * What [evaluate] raises and what it returns *)
(* ===================================================================== *)

Section evaluate_robust.
Import PyStr Re ArtifactExtractor Sandbox CodeExecutor Scenarios Fences Combine Gather Cases.

Lemma execute_raises timeout w language code e :
  execute timeout w language code = Some (Raise e) → exn_cls e = BaseOnly.
Proof.
  unfold execute, _execute_python, _execute_javascript.
  repeat case_match; intros [= Hr]; try done; simpl in Hr.
  all: first [ by apply (proj1 (handlers_raise_base timeout _ e)) in Hr as [_ ?]
             | by apply (proj2 (handlers_raise_base timeout _ e)) in Hr as [_ ?] ].
Qed.

(** X9.  If [evaluate] raises, the exception is the one met while the
    multi-file artifact was written to disk, or it is not an instance of
    [Exception]. *)
Theorem evaluate_raises timeout base w question response e :
  evaluate timeout base w question response = Raise e →
  materialize_error w = Some e ∨ exn_cls e = BaseOnly.
Proof.
  unfold evaluate.
  destruct (truthy_opt (error response)); [done |].
  destruct (negb (truthy_opt (response_text response))); [done |].
  set (text := default "" (response_text response)).
  assert (Hblob :
    (let '(code, language) := _extract_code text in
     if negb (truthy_opt code)
     then Ret (single question response 0 false (no_code_reasoning text))
     else
       match execute timeout w (default "None" language) (default "" code) with
       | Some (Ret r) => Ret (judge question response (default "None" language) r)
       | Some (Raise e) => Raise e
       | None => Ret (single question response 0 false
                        ("Unsupported language: " +:+ default "None" language))
       end) = Raise e → materialize_error w = Some e ∨ exn_cls e = BaseOnly).
  { destruct (_extract_code text) as [code language].
    destruct (negb (truthy_opt code)); [done |].
    destruct (execute _ _ _ _) as [[r|e']|] eqn:He; [done | | done].
    intros [= ->]. right. by eapply execute_raises. }
  destruct (extract_multi_file_artifact _ _ _) as [[ep fs d|ep fs c]|]; [| by auto..].
  destruct (materialize_error w); [| done]. intros [= ->]. by left.
Qed.

Lemma evaluate_raises_witness :
  materialize_error
    {| os := interrupted_os; dirs := ∅; materialize_error := None |}
  = Some (Exn BaseOnly "KeyboardInterrupt")
  ∨ exn_cls (Exn BaseOnly "KeyboardInterrupt") = BaseOnly.
Proof.
  apply (evaluate_raises 10 "/tmp/llm_bench_artifacts"
           {| os := interrupted_os; dirs := ∅; materialize_error := None |}
           hi_question (answer python_text)).
  vm_compute. reflexivity.
Defined.

Lemma multi_file_total question entry_point files :
  (0 ≤ sum (multi_file_components question entry_point files).1 ≤ 100)%Z.
Proof.
  unfold multi_file_components.
  destruct (endswith ".html" entry_point);
    destruct (Dict.get entry_point files);
    repeat (match goal with
            | |- context [if ?b then _ else _] => destruct b
            end);
    cbn [fst app sum foldr]; lia.
Qed.

(** X10.  Every evaluation [evaluate] returns names the question and the
    model it was given, has a score between 0 and 100, and is passed only
    with a score of at least 70; a multi-file evaluation is passed exactly
    when its score is at least 70. *)
Theorem evaluation_verdict timeout base w question response ev :
  evaluate timeout base w question response = Ret ev →
  ev_question_id ev = q_id question
  ∧ ev_model_name ev = model_name response
  ∧ (0 ≤ score ev ≤ 100)%Z
  ∧ (passed ev = true → (70 ≤ score ev)%Z)
  ∧ (evaluation_type ev = "code_execution_multi_file" →
     (passed ev = true ↔ (70 ≤ score ev)%Z)).
Proof.
  unfold evaluate.
  set (Good := λ ev : Evaluation,
    ev_question_id ev = q_id question
    ∧ ev_model_name ev = model_name response
    ∧ (0 ≤ score ev ≤ 100)%Z
    ∧ (passed ev = true → (70 ≤ score ev)%Z)
    ∧ (evaluation_type ev = "code_execution_multi_file" →
       (passed ev = true ↔ (70 ≤ score ev)%Z))).
  intros Hev. change (Good ev). revert Hev.
  assert (Hsingle : ∀ sc ok why, (0 ≤ sc ≤ 100)%Z → (ok = true → (70 ≤ sc)%Z) →
            Ret (single question response sc ok why) = Ret ev → Good ev).
  { intros sc ok why Hsc Hok [= <-]. unfold Good, single.
    cbn [ev_question_id ev_model_name score passed evaluation_type].
    repeat split; try done; try lia. }
  assert (Hzero : ∀ why, Ret (single question response 0 false why) = Ret ev → Good ev).
  { intros why. by apply Hsingle. }
  assert (Hjudge : ∀ language r,
            Ret (judge question response language r) = Ret ev → Good ev).
  { intros language [[success output] err]. unfold judge.
    destruct success; cbn [andb];
      [destruct (truthy_opt _); [destruct (contains _ _) |] |];
      by apply Hsingle. }
  destruct (truthy_opt (error response)); [by apply Hzero |].
  destruct (negb (truthy_opt (response_text response))); [by apply Hzero |].
  set (text := default "" (response_text response)).
  assert (Hblob :
    (let '(code, language) := _extract_code text in
     if negb (truthy_opt code)
     then Ret (single question response 0 false (no_code_reasoning text))
     else
       match execute timeout w (default "None" language) (default "" code) with
       | Some (Ret r) => Ret (judge question response (default "None" language) r)
       | Some (Raise e) => Raise e
       | None => Ret (single question response 0 false
                        ("Unsupported language: " +:+ default "None" language))
       end) = Ret ev → Good ev).
  { destruct (_extract_code text) as [code language].
    destruct (negb (truthy_opt code)); [by apply Hzero |].
    destruct (execute _ _ _ _) as [[r|e']|]; [apply Hjudge | done | by apply Hzero]. }
  destruct (extract_multi_file_artifact _ _ _) as [[ep fs d|ep fs c]|]; [| by auto..].
  destruct (materialize_error w); [done |]. intros [= <-].
  unfold Good, _evaluate_multi_file_artifact.
  pose proof (multi_file_total question ep fs) as Ht.
  destruct (multi_file_components question ep fs) as [comps issues].
  cbn [ev_question_id ev_model_name score passed evaluation_type fst] in *.
  rewrite bool_decide_eq_true. repeat split; try done; lia.
Qed.

Lemma evaluation_verdict_witness :
  let ev :=
    {| ev_question_id := "q1"; ev_model_name := "m"; score := 70; passed := true;
       evaluation_type := "code_execution_multi_file";
       reasoning := "Multi-file application validated successfully. 5 files generated and properly structured." |} in
  ev_question_id ev = q_id hi_question
  ∧ ev_model_name ev = model_name (answer site_text)
  ∧ (0 ≤ score ev ≤ 100)%Z
  ∧ (passed ev = true → (70 ≤ score ev)%Z)
  ∧ (evaluation_type ev = "code_execution_multi_file" →
     (passed ev = true ↔ (70 ≤ score ev)%Z)).
Proof.
  apply (evaluation_verdict 10 "/tmp/llm_bench_artifacts" (quiet_world "")
           hi_question (answer site_text)).
  vm_compute. reflexivity.
Defined.

End evaluate_robust.

(* ===================================================================== *)
(** * Entry points and the shape of an artifact *)
(* ===================================================================== *)

Section artifact_proofs.
Import PyStr Re ArtifactExtractor Scenarios Fences Combine Gather Cases.

Lemma mem_keys {V} k (d : list (string * V)) : Dict.mem k d = true ↔ k ∈ Dict.keys d.
Proof.
  unfold Dict.mem. pose proof (get_None_keys k d) as H.
  destruct (Dict.get k d).
  - split; [| done]. intros _. destruct (decide (k ∈ Dict.keys d)); [done |].
    by apply H in n.
  - split; [done |]. intros Hin. by destruct (proj1 H eq_refl).
Qed.

Lemma entry_point_in_keys files :
  files ≠ [] → _determine_entry_point files ∈ Dict.keys files.
Proof.
  intros Hne. unfold _determine_entry_point.
  destruct (Dict.mem "index.html" files) eqn:Hm; [by apply mem_keys in Hm |].
  destruct (filter _ (Dict.keys files)) as [|f l] eqn:Hf.
  - destruct files as [|[k v] files]; [done |]. apply list_elem_of_here.
  - assert (Hin : f ∈ filter (λ f, endswith ".html" f = true) (Dict.keys files)).
    { rewrite Hf. apply list_elem_of_here. }
    by apply list_elem_of_filter in Hin as [_ Hin].
Qed.

(** X11.  For a non-empty mapping, [_determine_entry_point] returns one of
    its file names: [index.html] if that is a name, otherwise a name ending
    in [.html] if there is one. *)
Theorem entry_point_chosen files :
  files ≠ [] →
  _determine_entry_point files ∈ Dict.keys files
  ∧ ("index.html" ∈ Dict.keys files → _determine_entry_point files = "index.html")
  ∧ (∀ f, f ∈ Dict.keys files → endswith ".html" f = true →
          endswith ".html" (_determine_entry_point files) = true).
Proof.
  intros Hne. split; [by apply entry_point_in_keys |].
  unfold _determine_entry_point.
  destruct (Dict.mem "index.html" files) eqn:Hm; [done |].
  split.
  - intros Hin%mem_keys. congruence.
  - intros f Hin He.
    assert (Hin' : f ∈ filter (λ f, endswith ".html" f = true) (Dict.keys files))
      by by apply list_elem_of_filter.
    destruct (filter _ (Dict.keys files)) as [|g l] eqn:Hf;
      [by apply elem_of_nil in Hin' |].
    assert (Hg : g ∈ filter (λ f, endswith ".html" f = true) (Dict.keys files)).
    { rewrite Hf. apply list_elem_of_here. }
    by apply list_elem_of_filter in Hg as [Hg _].
Qed.

Lemma entry_point_chosen_witness :
  _determine_entry_point site_files ∈ Dict.keys site_files
  ∧ ("index.html" ∈ Dict.keys site_files → _determine_entry_point site_files = "index.html")
  ∧ (∀ f, f ∈ Dict.keys site_files → endswith ".html" f = true →
          endswith ".html" (_determine_entry_point site_files) = true).
Proof. apply entry_point_chosen. discriminate. Defined.

Lemma entry_point_single f c : _determine_entry_point [(f, c)] = f.
Proof.
  unfold _determine_entry_point, Dict.mem. simpl.
  case_decide; [done |]. rewrite filter_cons, filter_nil. by case_decide.
Qed.

(** X12.  [extract_multi_file_artifact] returns [None] exactly when no file
    was extracted; a single-file artifact has exactly one file, which is its
    entry point and content and mentions neither [import] nor [require(]; a
    multi-file artifact has the extracted files, an entry point among its
    files, and either several files or one file that mentions [import] or
    [require(]. *)
Theorem artifact_shape base text id :
  match extract_multi_file_artifact base text id with
  | None => _extract_files_from_response text = []
  | Some (SingleFile entry_point files content) =>
      files = _extract_files_from_response text
      ∧ files = [(entry_point, content)]
      ∧ contains "import" content = false ∧ contains "require(" content = false
  | Some (MultiFile entry_point files directory) =>
      files = _extract_files_from_response text
      ∧ entry_point ∈ Dict.keys files
      ∧ ((1 < length files)%nat
         ∨ ∃ content, files = [(entry_point, content)]
                      ∧ (contains "import" content || contains "require(" content) = true)
  end.
Proof.
  unfold extract_multi_file_artifact.
  destruct (_extract_files_from_response text) as [|[f c] files] eqn:Hfiles; [done |].
  destruct (is_multi_file _) eqn:Hm.
  - split_and!; [done | by apply entry_point_in_keys |].
    unfold is_multi_file in Hm. destruct files as [|fc files].
    + right. exists c. simpl in Hm. rewrite orb_false_r in Hm.
      split; [| done]. by rewrite entry_point_single.
    + left. simpl. lia.
  - unfold is_multi_file in Hm. apply orb_false_iff in Hm as [Hlen Hex].
    destruct files as [|fc files]; [| done].
    simpl in Hex. rewrite orb_false_r in Hex. apply orb_false_iff in Hex as [??]. done.
Qed.

End artifact_proofs.

(* ===================================================================== *)
(** * Inferred pages and the single-page fallback *)
(* ===================================================================== *)

Section inference_proofs.
Import PyStr Re ArtifactExtractor Scenarios Fences Combine Gather Cases.

Lemma set_keeps_mem {V} k k' (v : V) d :
  Dict.mem k d = true → Dict.mem k (Dict.set k' v d) = true.
Proof.
  unfold Dict.mem. destruct (decide (k' = k)) as [->|Hne].
  - by rewrite get_set_eq.
  - by rewrite get_set_ne.
Qed.

Lemma mem_set {V} k (v : V) d : Dict.mem k (Dict.set k v d) = true.
Proof. unfold Dict.mem. by rewrite get_set_eq. Qed.

Lemma infer_step_keeps_mem k files c m :
  Dict.mem k files = true → Dict.mem k (infer_step (files, c) m).1 = true.
Proof.
  intros Hk. rewrite infer_step_unfold. cbv zeta. cbn [fst].
  destruct (infer_filename _ _ _).1; [by apply set_keeps_mem | done].
Qed.

Lemma foldl_infer_keeps_mem k ms files c :
  Dict.mem k files = true → Dict.mem k (foldl infer_step (files, c) ms).1 = true.
Proof.
  revert files c. induction ms as [|m ms IH]; intros files c Hk; simpl; [done |].
  pose proof (infer_step_keeps_mem k files c m Hk) as Hs.
  destruct (infer_step (files, c) m) as [files' c']. by apply IH.
Qed.

Lemma infer_filename_html lang code c :
  html_kind lang code = true →
  infer_filename lang code c
  = (Some (if (html_count c =? 0)%nat then "index.html"
           else "page" +:+ pretty (html_count c) +:+ ".html"),
     Counters (S (html_count c)) (css_count c) (js_count c)).
Proof. unfold html_kind, infer_filename. by intros ->. Qed.

Lemma infer_filename_other lang code c :
  html_kind lang code = false → html_count (infer_filename lang code c).2 = html_count c.
Proof.
  unfold html_kind, infer_filename. intros ->. by repeat case_match.
Qed.

Lemma infer_step_indexed st m : indexed st → indexed (infer_step st m).
Proof.
  destruct st as [files c]. unfold indexed. rewrite infer_step_unfold. cbv zeta. cbn [fst snd].
  destruct (html_kind (lower m.1) (strip m.2)) eqn:Hk.
  - rewrite infer_filename_html by done. cbn [fst snd].
    intros [H0|Hm]; right.
    + rewrite H0. apply mem_set.
    + by apply set_keeps_mem.
  - rewrite infer_filename_other by done. intros [H0|Hm]; [by left | right].
    destruct (infer_filename _ _ _).1; [by apply set_keeps_mem | done].
Qed.

Lemma infer_step_html st m :
  indexed st → html_kind (lower m.1) (strip m.2) = true →
  Dict.mem "index.html" (infer_step st m).1 = true.
Proof.
  destruct st as [files c]. unfold indexed. rewrite infer_step_unfold. cbv zeta. cbn [fst snd].
  intros Hi Hk. rewrite infer_filename_html by done. cbn [fst snd].
  destruct Hi as [H0|Hm]; [rewrite H0; apply mem_set | by apply set_keeps_mem].
Qed.

Lemma foldl_infer_html ms st m :
  indexed st → m ∈ ms → html_kind (lower m.1) (strip m.2) = true →
  Dict.mem "index.html" (foldl infer_step st ms).1 = true.
Proof.
  revert st. induction ms as [|m' ms IH]; intros st Hi Hin Hk; [by apply elem_of_nil in Hin |].
  simpl. apply elem_of_cons in Hin as [->|Hin].
  - pose proof (infer_step_html st m' Hi Hk) as Hm.
    destruct (infer_step st m') as [files' c']. by apply foldl_infer_keeps_mem.
  - apply IH; [by apply infer_step_indexed | done..].
Qed.

(** X13.  If some fenced block is classified as HTML by
    [_infer_files_from_blocks] (by its tag, or by [<html] or [<!DOCTYPE] in
    its code), the inferred mapping has a file [index.html], and that is the
    entry point. *)
Theorem inferred_index text m :
  m ∈ blocks text →
  html_kind (lower m.1) (strip m.2) = true →
  Dict.mem "index.html" (_infer_files_from_blocks text) = true
  ∧ _determine_entry_point (_infer_files_from_blocks text) = "index.html".
Proof.
  intros Hin Hk.
  assert (Hm : Dict.mem "index.html" (_infer_files_from_blocks text) = true).
  { unfold _infer_files_from_blocks, infer_from.
    eapply foldl_infer_html; [by left | exact Hin | exact Hk]. }
  split; [done |]. unfold _determine_entry_point. by rewrite Hm.
Qed.

Lemma inferred_index_witness :
  Dict.mem "index.html" (_infer_files_from_blocks page_text) = true
  ∧ _determine_entry_point (_infer_files_from_blocks page_text) = "index.html".
Proof.
  apply (inferred_index page_text ("", "<!DOCTYPE html><p>hi</p>" +:+ nl)).
  - vm_compute. apply list_elem_of_here.
  - reflexivity.
Defined.

(** *** [combine_files_for_single_html] *)

Lemma startswith_app t x : startswith t (t +:+ x) = true.
Proof.
  induction t as [|c t IH]; [apply startswith_empty |].
  rewrite app_cons. simpl. by destruct (ascii_dec c c).
Qed.

Lemma startswith_app_l a b s : startswith (a +:+ b) s = true → startswith a s = true.
Proof.
  revert s. induction a as [|c a IH]; intros s; [intros _; apply startswith_empty |].
  rewrite app_cons. destruct s as [|d s]; simpl; [done |].
  destruct (ascii_dec c d); [apply IH | done].
Qed.

Lemma contains_app_l a b s : contains (a +:+ b) s = true → contains a s = true.
Proof.
  induction s as [|c s IH]; simpl.
  - rewrite !orb_false_r. apply startswith_app_l.
  - intros [H|H]%orb_true_iff.
    + by rewrite (startswith_app_l a b _ H).
    + rewrite (IH H). by destruct (startswith a _).
Qed.

Lemma contains_app_r t a b : contains t b = true → contains t (a +:+ b) = true.
Proof.
  intros H. eapply contains_suffix; [| exact H]. by exists a.
Qed.

Lemma contains_replace old new s :
  old ≠ "" → contains old s = true → contains new (replace old new s) = true.
Proof.
  intros Hold. unfold replace. induction s as [|c s IH].
  - simpl. rewrite orb_false_r. by destruct old.
  - intros Hc. cbn [replace_go].
    destruct (startswith old (String c s)) eqn:Hs.
    + apply startswith_contains, startswith_app.
    + simpl in Hc. rewrite Hs in Hc. simpl in Hc. apply contains_cons. by apply IH.
Qed.

Lemma foldl_sort_file files p :
  Forall (λ fc, endswith ".html" fc.1 = false) files →
  foldl sort_file p files
  = Parts (html_content p) (css_content p ++ styles_of files) (js_content p ++ scripts_of files).
Proof.
  unfold styles_of, scripts_of.
  intros Hall. revert p. induction Hall as [|fc files Hfc _ IH]; intros p.
  - simpl. rewrite !app_nil_r. by destruct p.
  - simpl. rewrite IH. unfold sort_file. rewrite Hfc. rewrite !filter_cons.
    destruct (endswith ".css" fc.1) eqn:Hcss.
    + rewrite decide_True by done. rewrite decide_False by naive_solver.
      simpl. by rewrite <- app_assoc.
    + rewrite decide_False by naive_solver.
      destruct (endswith ".js" fc.1 || endswith ".jsx" fc.1) eqn:Hjs.
      * rewrite decide_True by done. simpl. by rewrite <- app_assoc.
      * rewrite decide_False by naive_solver. done.
Qed.

Lemma wrapper_with_styles new :
  contains "</body>" (replace "</head>" new wrapper) = true.
Proof.
  assert (H : ∃ pre post, replace "</head>" new wrapper = pre +:+ new +:+ post
                          ∧ contains "</body>" post = true).
  { exists (take (default 0 (find "</head>" wrapper)) wrapper),
      (drop (default 0 (find "</head>" wrapper) + String.length "</head>") wrapper).
    split; [vm_compute; reflexivity | reflexivity]. }
  destruct H as (pre & post & -> & Hpost).
  by apply contains_app_r, contains_app_r.
Qed.

(** X14.  When no file name ends in [.html] and there is at least one script
    file, the page [combine_files_for_single_html] builds contains a module
    script tag that holds all the scripts, joined by newlines in file order. *)
Theorem combine_scripts_without_html files :
  Forall (λ fc, endswith ".html" fc.1 = false) files →
  scripts_of files ≠ [] →
  contains (script_tag (scripts_of files)) (combine_files_for_single_html files) = true.
Proof.
  intros Hall Hjs. unfold combine_files_for_single_html.
  rewrite foldl_sort_file by done. cbn [html_content css_content js_content app truthy_opt].
  assert (Hbody : contains "</body>" (inject_css (styles_of files) wrapper) = true).
  { unfold inject_css. destruct (styles_of files); [reflexivity |].
    change (contains "</head>" wrapper) with true. cbv iota. apply wrapper_with_styles. }
  unfold inject_js. destruct (scripts_of files) as [|j js] eqn:Hs; [done |].
  rewrite Hbody. eapply contains_app_l. by apply contains_replace.
Qed.

Lemma combine_scripts_without_html_witness :
  contains (script_tag (scripts_of two_scripts)) (combine_files_for_single_html two_scripts) = true.
Proof.
  apply combine_scripts_without_html.
  - unfold two_scripts. repeat constructor.
  - discriminate.
Defined.
End inference_proofs.

(* ===================================================================== *)
(** * Providers and the job registry *)
(* ===================================================================== *)

Section provider_proofs.
Import PyStr JobRunner Scenarios Fences Combine Gather Cases.

Lemma contains_slash c s :
  contains "/" (String c s) = (if ascii_dec "/" c then true else contains "/" s).
Proof.
  cbn [contains startswith]. destruct (ascii_dec "/" c); [| done].
  by destruct s.
Qed.

Lemma split_head_no_slash s : contains "/" (split_head "/" s) = false.
Proof.
  induction s as [|c s IH]; [done |]. cbn [split_head].
  destruct (ascii_dec c "/") as [->|Hne]; [done |].
  rewrite contains_slash. by destruct (ascii_dec "/" c).
Qed.

Lemma split_head_prefix s :
  contains "/" s = true → ∃ rest, s = split_head "/" s +:+ "/" +:+ rest.
Proof.
  induction s as [|c s IH]; [done |]. rewrite contains_slash. cbn [split_head].
  destruct (ascii_dec c "/") as [->|Hne].
  - intros _. by exists s.
  - destruct (ascii_dec "/" c); [done |]. intros [rest Hr]%IH.
    exists rest. rewrite app_cons. by f_equal.
Qed.

(** X15.  [_get_provider_from_model] returns what stands before the first
    slash of the model name, a text without slash, and [unknown] for a name
    without slash. *)
Theorem provider_of_model model :
  contains "/" (_get_provider_from_model model) = false
  ∧ (contains "/" model = true →
     ∃ rest, model = _get_provider_from_model model +:+ "/" +:+ rest)
  ∧ (contains "/" model = false → _get_provider_from_model model = "unknown").
Proof.
  unfold _get_provider_from_model. destruct (contains "/" model) eqn:Hs.
  - split_and!; [apply split_head_no_slash | intros _; by apply split_head_prefix | done].
  - done.
Qed.

End provider_proofs.

Section registry_proofs.
Import PyStr JobRunner Scenarios Fences Combine Gather Cases.

Lemma update_ok ref f r :
  (∀ job, job_ok job → job_ok (f job) ∧ job_id (f job) = job_id job) →
  runner_ok r → runner_ok (update ref f r).
Proof.
  intros Hf (Hwf & Hall & Hkey).
  pose proof (update_same_except ref f r) as Hsame.
  split_and!.
  - by eapply same_except_wf.
  - unfold update. destruct (heap r !! ref) as [job|] eqn:Hh; [| done]. simpl.
    apply Forall_insert; [done |]. apply Hf. by eapply Forall_lookup_1.
  - intros id ref' job' Hj Hh'. destruct Hsame as (Hsj & _ & Hsh). rewrite Hsj in Hj.
    destruct (decide (ref' = ref)) as [->|Hne].
    + unfold update in Hh'. destruct (heap r !! ref) as [job|] eqn:Hh; [| by eauto].
      simpl in Hh'. rewrite list_lookup_insert_eq in Hh' by by eapply lookup_lt_Some.
      injection Hh' as <-. rewrite (proj2 (Hf job (Forall_lookup_1 _ _ _ _ Hall Hh))). eauto.
    + rewrite Hsh in Hh' by done. eauto.
Qed.

Lemma set_status_ok s job : job_ok job → job_ok (set_status s job) ∧ job_id (set_status s job) = job_id job.
Proof. by intros (? & ? & ?). Qed.

Lemma fail_job_ok ref e we r : runner_ok r → runner_ok (fail_job ref e we r).2.
Proof.
  intros Hok. unfold fail_job.
  destruct (exn_cls e); try done;
    (match goal with |- context [update ref ?f r] =>
       assert (Hu : runner_ok (update ref f r))
         by (apply update_ok; [by intros job (? & ? & ?) | done]) end;
     by repeat case_match).
Qed.

Lemma run_job_begin_ok id io r : runner_ok r → runner_ok (run_job_begin id io r).2.
Proof.
  intros Hok. unfold run_job_begin.
  destruct (get_job r id) as [[ref job]|]; [| done].
  assert (H1 : runner_ok (update ref (set_status RUNNING) r))
    by (apply update_ok; [apply set_status_ok | done]).
  destruct (mkdir_error io).
  { pose proof (fail_job_ok ref e (handler_save_error io) _ H1) as H2.
    by destruct (fail_job _ _ _ _) as [[] ?]. }
  match goal with |- context [update ref ?f (update ref _ r)] =>
    assert (H2 : runner_ok (update ref f (update ref (set_status RUNNING) r)))
      by (apply update_ok; [by intros j (? & ? & ?) | done]) end.
  destruct (save_error io); [| done].
  match goal with |- context [fail_job ref e ?we ?r1] =>
    pose proof (fail_job_ok ref e we r1 H2) as H3 end.
  by destruct (fail_job _ _ _ _) as [[] ?].
Qed.

Lemma run_job_resume_ok ref io r : runner_ok r → runner_ok (run_job_resume ref io r).2.
Proof.
  intros Hok. unfold run_job_resume.
  destruct (thrown io); [by apply fail_job_ok |].
  match goal with |- context [leaderboard_error io] =>
    match goal with |- context [update ref ?f r] =>
      assert (H1 : runner_ok (update ref f r)) end end.
  { apply update_ok; [| done]. intros job (Hs & Ht & Hc). unfold job_ok. simpl.
    split_and!; try done. lia. }
  destruct (leaderboard_error io); [by apply fail_job_ok |].
  match goal with |- context [update ref (set_status COMPLETED) ?r1] =>
    assert (H2 : runner_ok (update ref (set_status COMPLETED) r1))
      by (apply update_ok; [apply set_status_ok | done]) end.
  destruct (final_save_error io); [by apply fail_job_ok | done].
Qed.

Lemma cancel_job_ok id we r : runner_ok r → runner_ok (cancel_job id we r).2.
Proof.
  intros Hok. unfold cancel_job.
  destruct (get_job r id) as [[ref job]|] eqn:Hg; [| done].
  apply get_job_Some in Hg as [Hj Hh].
  destruct (negb _); [done |]. destruct (running_tasks r !! id) as [task|]; [| done].
  pose proof (update_ok ref (set_status CANCELLED) r (set_status_ok CANCELLED) Hok) as Hu.
  unfold update in Hu. rewrite Hh in Hu.
  assert (runner_ok
            (Runner (results_dir r) (<[ref:=set_status CANCELLED job]> (heap r)) (jobs r)
               (running_tasks r) (next_task r) ({[task]} ∪ cancel_requested r))) by exact Hu.
  by destruct (_save_job_metadata _ _).
Qed.

Lemma create_job_ok stamp iso run_ids question_ids r :
  runner_ok r → runner_ok (create_job stamp iso run_ids question_ids r).2.
Proof.
  intros (Hwf & Hall & Hkey). split_and!.
  - apply (wf_step r (Create stamp iso run_ids question_ids) Hwf).
  - simpl. apply Forall_app. split; [done |]. constructor; [| done].
    unfold job_ok. simpl. split_and!; [done | done | lia].
  - simpl. intros id ref job. rewrite lookup_insert. case_decide as Hid.
    + intros [= <-]. rewrite lookup_app_r by done. rewrite Nat.sub_diag. by intros [= <-].
    + intros Hj. destruct Hwf as [Hlt _]. rewrite lookup_app_l by by eapply Hlt. by apply Hkey.
Qed.

Lemma step_ok r o : runner_ok r → runner_ok (step r o).
Proof.
  destruct o; simpl.
  - apply create_job_ok.
  - done.
  - apply run_job_begin_ok.
  - apply run_job_resume_ok.
  - apply cancel_job_ok.
Qed.

Lemma steps_ok r ops : runner_ok r → runner_ok (steps r ops).
Proof.
  unfold steps. revert r. induction ops as [|o ops IH]; intros r Hok; simpl; [done |].
  by apply IH, step_ok.
Qed.

(** X16.  In every state the runner can reach, a job found under an id
    carries that id, its status equals the status of its progress, its total
    is the number of its questions and its current count does not exceed the
    total. *)
Theorem registered_jobs_consistent dir ops id ref job :
  get_job (steps (new_runner dir) ops) id = Some (ref, job) →
  job_id job = id
  ∧ status job = p_status (progress job)
  ∧ total (progress job) = length (question_ids job)
  ∧ (current (progress job) ≤ total (progress job))%nat.
Proof.
  intros [Hj Hh]%get_job_Some.
  assert (Hok : runner_ok (steps (new_runner dir) ops)).
  { apply steps_ok. split_and!; [apply wf_new | by constructor |].
    intros ???. simpl. by rewrite lookup_empty. }
  destruct Hok as (_ & Hall & Hkey). split; [by eapply Hkey |].
  by eapply (Forall_lookup_1 _ _ _ _ Hall Hh).
Qed.

Lemma registered_jobs_consistent_witness :
  job_id (Job "comp_judge_20240101_000000_000001" ["r1"; "r2"] ["q1"] "2024-01-01T00:00:00"
            COMPLETED (Progress 1 1 "q1" COMPLETED None)
            (Some "results/comparative_judge/comp_judge_20240101_000000_000001"))
  = "comp_judge_20240101_000000_000001"
  ∧ COMPLETED = COMPLETED ∧ 1 = 1 ∧ (1 ≤ 1)%nat.
Proof.
  apply (registered_jobs_consistent "results" one_completed
           "comp_judge_20240101_000000_000001" 0).
  vm_compute. reflexivity.
Defined.

(** *** Nothing is ever unregistered *)

Lemma step_keeps_registered r o id :
  (is_Some (job_status r id) → is_Some (job_status (step r o) id))
  ∧ (is_Some (running_tasks r !! id) → is_Some (running_tasks (step r o) !! id)).
Proof.
  assert (Hsame : ∀ ref' r', same_except ref' r r' →
            is_Some (job_status r id) → is_Some (job_status r' id)).
  { intros ref' r' (Hsj & Hsl & _) [s (ref & job & Hj & Hh & _)%job_status_Some].
    apply lookup_lt_Some in Hh. rewrite <- Hsl in Hh.
    apply lookup_lt_is_Some in Hh as [job' Hh'].
    exists (status job'). apply job_status_Some. exists ref, job'. by rewrite Hsj. }
  destruct o as [stamp iso rs qs|id'|id' io|ref' io|id' we]; simpl.
  - split; [| done]. intros [s (ref & job & Hj & Hh & _)%job_status_Some].
    destruct (decide ("comp_judge_" +:+ stamp = id)) as [<-|Hne].
    + eexists. apply job_status_Some. eexists _, _. simpl. rewrite lookup_insert_eq.
      split_and!; [done | | done]. rewrite lookup_app_r by done. by rewrite Nat.sub_diag.
    + exists (status job). apply job_status_Some. exists ref, job. simpl.
      rewrite lookup_insert_ne by done. split_and!; [done | | done].
      rewrite lookup_app_l; [done |]. by eapply lookup_lt_Some.
  - split; [done |]. intros [t Ht]. destruct (decide (id' = id)) as [->|Hne].
    + rewrite lookup_insert_eq. eauto.
    + rewrite lookup_insert_ne by done. eauto.
  - split.
    + destruct (jobs r !! id') as [ref|] eqn:Hj.
      * eapply Hsame. by apply run_job_begin_same_except.
      * by rewrite run_job_begin_absent.
    + unfold run_job_begin. destruct (get_job r id') as [[ref job]|]; [| done].
      assert (Hrt : ∀ ref f r0, running_tasks (update ref f r0) = running_tasks r0).
      { intros ref0 f r0. unfold update. by destruct (heap r0 !! ref0). }
      assert (Hft : ∀ ref e we r0, running_tasks (fail_job ref e we r0).2 = running_tasks r0).
      { intros ref0 e we r0. unfold fail_job. destruct (exn_cls e); try done;
          repeat case_match; simpl; by rewrite ?Hrt. }
      destruct (mkdir_error io).
      { pose proof (Hft ref e (handler_save_error io) (update ref (set_status RUNNING) r)) as H.
        destruct (fail_job _ _ _ _) as [[] ?]; simpl in *; by rewrite H, Hrt. }
      destruct (save_error io); simpl; [| by rewrite !Hrt].
      match goal with |- context [fail_job ref e ?we ?r1] =>
        pose proof (Hft ref e we r1) as H end.
      destruct (fail_job _ _ _ _) as [[] ?]; simpl in *; by rewrite H, !Hrt.
  - split.
    + eapply Hsame. apply run_job_resume_same_except.
    + assert (Hrt : ∀ ref f r0, running_tasks (update ref f r0) = running_tasks r0).
      { intros ref0 f r0. unfold update. by destruct (heap r0 !! ref0). }
      assert (Hft : ∀ ref e we r0, running_tasks (fail_job ref e we r0).2 = running_tasks r0).
      { intros ref0 e we r0. unfold fail_job. destruct (exn_cls e); try done;
          repeat case_match; simpl; by rewrite ?Hrt. }
      unfold run_job_resume. repeat case_match; simpl; by rewrite ?Hft, ?Hrt.
  - split.
    + destruct (jobs r !! id') as [ref|] eqn:Hj.
      * eapply Hsame. by apply cancel_job_same_except.
      * by rewrite cancel_job_absent.
    + unfold cancel_job. by repeat case_match.
Qed.

(** Which operations write the two registries. *)
Lemma step_jobs r o id :
  creates id o = false → jobs (step r o) !! id = jobs r !! id.
Proof.
  destruct o as [stamp iso rs qs|id'|id' io|ref' io|id' we]; simpl.
  - intros Hc%bool_decide_eq_false. by rewrite lookup_insert_ne.
  - done.
  - intros _. destruct (jobs r !! id') as [ref|] eqn:Hj.
    + by destruct (run_job_begin_same_except id' io r ref Hj) as [-> _].
    + by rewrite run_job_begin_absent.
  - intros _. by destruct (run_job_resume_same_except ref' io r) as [-> _].
  - intros _. destruct (jobs r !! id') as [ref|] eqn:Hj.
    + by destruct (cancel_job_same_except id' we r ref Hj) as [-> _].
    + by rewrite cancel_job_absent.
Qed.

Lemma step_tasks r o id :
  starts id o = false → running_tasks (step r o) !! id = running_tasks r !! id.
Proof.
  assert (Hrt : ∀ ref f r0, running_tasks (update ref f r0) = running_tasks r0).
  { intros ref0 f r0. unfold update. by destruct (heap r0 !! ref0). }
  assert (Hft : ∀ ref e we r0, running_tasks (fail_job ref e we r0).2 = running_tasks r0).
  { intros ref0 e we r0. unfold fail_job. destruct (exn_cls e); try done;
      repeat case_match; simpl; by rewrite ?Hrt. }
  destruct o as [stamp iso rs qs|id'|id' io|ref' io|id' we]; simpl.
  - done.
  - intros Hs%bool_decide_eq_false. by rewrite lookup_insert_ne.
  - intros _. f_equal. unfold run_job_begin.
    destruct (get_job r id') as [[ref job]|]; [| done].
    destruct (mkdir_error io).
    { pose proof (Hft ref e (handler_save_error io) (update ref (set_status RUNNING) r)) as H.
      destruct (fail_job _ _ _ _) as [[] ?]; simpl in *; by rewrite H, Hrt. }
    destruct (save_error io); simpl; [| by rewrite !Hrt].
    match goal with |- context [fail_job ref e ?we ?r1] =>
      pose proof (Hft ref e we r1) as H end.
    destruct (fail_job _ _ _ _) as [[] ?]; simpl in *; by rewrite H, !Hrt.
  - intros _. f_equal. unfold run_job_resume.
    repeat case_match; simpl; by rewrite ?Hft, ?Hrt.
  - intros _. f_equal. unfold cancel_job. by repeat case_match.
Qed.

(** X17.  No operation of the runner removes an id from the registry or
    from [running_tasks]: an id that has a job, or a task, still has one
    after any sequence of operations.  The job object registered under an
    id is replaced only by a [create_job] that produces the same id, and
    its task only by a further [start_job] for that id. *)
Theorem never_unregistered r ops id :
  (is_Some (job_status r id) → is_Some (job_status (steps r ops) id))
  ∧ (is_Some (running_tasks r !! id) → is_Some (running_tasks (steps r ops) !! id))
  ∧ (Forall (λ o, creates id o = false) ops → jobs (steps r ops) !! id = jobs r !! id)
  ∧ (Forall (λ o, starts id o = false) ops →
     running_tasks (steps r ops) !! id = running_tasks r !! id).
Proof.
  unfold steps. revert r. induction ops as [|o ops IH]; intros r; simpl; [done |].
  destruct (step_keeps_registered r o id) as [H1 H2].
  destruct (IH (step r o)) as (H3 & H4 & H5 & H6).
  split_and!; [auto | auto | |].
  - intros [Ho Hops]%Forall_cons. rewrite H5 by done. by apply step_jobs.
  - intros [Ho Hops]%Forall_cons. rewrite H6 by done. by apply step_tasks.
Qed.

Lemma never_unregistered_witness :
  is_Some (job_status (steps (steps (new_runner "results") one_completed) bystanders)
             "comp_judge_20240101_000000_000001").
Proof.
  apply (proj1 (never_unregistered (steps (new_runner "results") one_completed) bystanders
                  "comp_judge_20240101_000000_000001")).
  vm_compute. eauto.
Defined.

End registry_proofs.

(* ===================================================================== *)
(** * Running, cancelling and creating jobs *)
(* ===================================================================== *)

Section run_proofs.
Import PyStr JobRunner Scenarios Fences Combine Gather Cases.

Lemma update_heap ref f r job :
  heap r !! ref = Some job → heap (update ref f r) !! ref = Some (f job).
Proof. intros Hh. by apply update_lookup. Qed.

Lemma fail_job_failed ref e we r job :
  heap r !! ref = Some job →
  exn_cls e ≠ BaseOnly →
  ∃ job', heap (fail_job ref e we r).2 !! ref = Some job'
          ∧ status job' = FAILED ∧ p_status (progress job') = FAILED
          ∧ p_error (progress job') = Some (exn_str e)
          ∧ current (progress job') = current (progress job).
Proof.
  intros Hh Hc. unfold fail_job.
  destruct (exn_cls e) eqn:He; try done;
    (match goal with |- context [update ref ?f r] =>
       pose proof (update_heap ref f r job Hh) as Hu end;
     rewrite Hu; eexists; (split; [by destruct (_save_job_metadata _ _) | done])).
Qed.

(** X18.  After its [await], [run_job] on a registered job: without any
    failure it returns, the job is COMPLETED and its current count is the
    number of questions; if the first failure is an instance of [Exception],
    the job is FAILED with that exception's text as error; an exception
    thrown into the [await] that is not an instance of [Exception] (a
    cancellation) propagates and leaves the job as it was. *)
Theorem run_job_outcome ref io r job :
  heap r !! ref = Some job →
  (first_error io = None →
     (run_job_resume ref io r).1 = Ret ()
     ∧ ∃ job', heap (run_job_resume ref io r).2 !! ref = Some job'
               ∧ status job' = COMPLETED
               ∧ current (progress job') = length (question_ids job))
  ∧ (∀ e, first_error io = Some e → exn_cls e ≠ BaseOnly →
       ∃ job', heap (run_job_resume ref io r).2 !! ref = Some job'
               ∧ status job' = FAILED
               ∧ p_error (progress job') = Some (exn_str e))
  ∧ (∀ e, thrown io = Some e → exn_cls e = BaseOnly →
       run_job_resume ref io r = (Raise e, r)).
Proof.
  intros Hh. unfold first_error, run_job_resume.
  destruct (thrown io) as [e0|].
  { split_and!; [done | |].
    - intros e [= <-] Hc.
      destruct (fail_job_failed ref e0 (handler_save_error' io) r job Hh Hc)
        as (job' & ? & ? & ? & ? & ?). eauto.
    - intros e [= <-] Hc. unfold fail_job. by rewrite Hc. }
  match goal with |- context [leaderboard_error io] =>
    match goal with |- context [update ref ?f r] =>
      pose proof (update_heap ref f r job Hh) as H1; set (r1 := update ref f r) in * end end.
  destruct (leaderboard_error io) as [e1|].
  { split_and!; [done | | done].
    intros e [= <-] Hc.
    destruct (fail_job_failed ref e1 (handler_save_error' io) r1 _ H1 Hc)
      as (job' & ? & ? & ? & ? & ?). eauto. }
  pose proof (update_heap ref (set_status COMPLETED) r1 _ H1) as H2.
  set (r2 := update ref (set_status COMPLETED) r1) in *.
  destruct (final_save_error io) as [e2|].
  { split_and!; [done | | done].
    intros e [= <-] Hc.
    destruct (fail_job_failed ref e2 (handler_save_error' io) r2 _ H2 Hc)
      as (job' & ? & ? & ? & ? & ?). eauto. }
  split_and!; [| done..]. intros _. split; [done |]. simpl. eauto.
Qed.

Lemma run_job_outcome_witness :
  ∃ job', heap (run_job_resume 0 disk_full_at_leaderboard running_one).2 !! 0 = Some job'
          ∧ status job' = FAILED
          ∧ p_error (progress job') = Some "[Errno 28] No space left on device".
Proof.
  apply (proj1 (proj2 (run_job_outcome 0 disk_full_at_leaderboard running_one
                         (Job "comp_judge_20240101_000000_000001" ["r1"] ["q1"]
                            "2024-01-01T00:00:00" RUNNING (Progress 0 1 "" RUNNING None)
                            (Some "results/comparative_judge/comp_judge_20240101_000000_000001"))
                         ltac:(vm_compute; reflexivity)))
           (Exn OtherException "[Errno 28] No space left on device")).
  - reflexivity.
  - discriminate.
Defined.

(** X19.  For a RUNNING job whose metadata can be saved, [cancel_job]
    returns [True] exactly when a task is registered for it; then the task
    is asked to cancel, the job is CANCELLED, and the cancellation delivered
    to [run_job] propagates without changing that status. *)
Theorem cancel_needs_task id r ref job :
  get_job r id = Some (ref, job) →
  status job = RUNNING →
  ((cancel_job id None r).1 = Ret true ↔ is_Some (running_tasks r !! id))
  ∧ (∀ task, running_tasks r !! id = Some task →
       task ∈ cancel_requested (cancel_job id None r).2
       ∧ job_status (cancel_job id None r).2 id = Some CANCELLED
       ∧ ∀ io e, thrown io = Some e → exn_cls e = BaseOnly →
           run_job_resume ref io (cancel_job id None r).2
           = (Raise e, (cancel_job id None r).2)).
Proof.
  intros Hg Hst. unfold cancel_job. rewrite Hg, Hst.
  rewrite bool_decide_true by done. cbn [negb].
  apply get_job_Some in Hg as [Hj Hh].
  destruct (running_tasks r !! id) as [task|]; cbn [_save_job_metadata].
  - assert (Hsave : _save_job_metadata None (set_status CANCELLED job) = None).
    { unfold _save_job_metadata. by destruct (truthy_opt _). }
    rewrite Hsave. cbn [fst snd]. split; [split; [intros _; by eexists | intros _; reflexivity] |].
    intros task' [= <-]. split_and!.
    + set_solver.
    + apply job_status_Some. exists ref, (set_status CANCELLED job). simpl.
      split_and!; [done | | done].
      apply list_lookup_insert_eq. by eapply lookup_lt_Some.
    + intros io e Hth Hc. unfold run_job_resume, fail_job. by rewrite Hth, Hc.
  - cbn [fst]. split; [| done]. split; [done | by intros [? [=]]].
Qed.

Lemma cancel_needs_task_witness :
  job_status (cancel_job "comp_judge_20240101_000000_000001" None running_one).2
    "comp_judge_20240101_000000_000001" = Some CANCELLED.
Proof.
  refine (proj1 (proj2 (proj2 (cancel_needs_task "comp_judge_20240101_000000_000001"
                                  running_one 0 _ _ _) 0 _))).
  - vm_compute. reflexivity.
  - reflexivity.
  - vm_compute. reflexivity.
Defined.

(** X20.  In every reachable state, [create_job] returns the id
    [comp_judge_<stamp>]; [get_job] on it gives the new job, PENDING with
    progress 0 of the number of questions and no results path, and the jobs
    under other ids are as before. *)
Theorem create_then_get dir ops stamp iso run_ids question_ids :
  let r := steps (new_runner dir) ops in
  let '(id, r') := create_job stamp iso run_ids question_ids r in
  id = "comp_judge_" +:+ stamp
  ∧ get_job r' id
    = Some (length (heap r),
            Job id run_ids question_ids iso PENDING
              (Progress 0 (length question_ids) "" PENDING None) None)
  ∧ ∀ id', id' ≠ id → get_job r' id' = get_job r id'.
Proof.
  intros r. unfold create_job.
  assert (Hwf : wf r) by apply wf_steps, wf_new.
  split_and!; [done | |].
  - unfold get_job. simpl. rewrite lookup_insert_eq. simpl.
    rewrite lookup_app_r by done. by rewrite Nat.sub_diag.
  - intros id' Hne. unfold get_job. simpl. rewrite lookup_insert_ne by done.
    destruct (jobs r !! id') as [ref|] eqn:Hj; [| done]. simpl.
    rewrite lookup_app_l; [done |]. destruct Hwf as [Hlt _]. by eapply Hlt.
Qed.
End run_proofs.

(* ===================================================================== *)
(** * What the leaderboard can raise *)
(* ===================================================================== *)

Section board_proofs.
Import PyStr JobRunner Scenarios Fences Combine Gather Cases.

(** Every entry of the leaderboard belongs to a model with at least one
    result, and counts its results and its passes. *)
Lemma leaderboard_entries all_results lb e :
  _calculate_leaderboard all_results = Ret lb →
  e ∈ lb →
  ∃ m r rs, results_of m all_results = r :: rs
            ∧ total_questions e = length (r :: rs)
            ∧ e_passed_count e = passes (r :: rs).
Proof.
  unfold _calculate_leaderboard.
  destruct (build_entries (aggregate all_results)) as [es|?] eqn:Hes; [| done].
  intros [= <-] He. rewrite sort_desc_perm in He.
  destruct (build_entries_elem _ es e Hes He) as ([m md] & Hin & Hb).
  rewrite aggregate_flat in Hin.
  apply aggregate_elem in Hin as (r & rs & Hrs & ->).
  apply build_entry_fields in Hb as (_ & Ht & Hp & _).
  cbn [snd scores passed_count] in Ht, Hp. rewrite length_fmap in Ht.
  exists m, r, rs. done.
Qed.

Lemma build_entries_raise d e :
  build_entries d = Raise e → ∃ md, md ∈ d ∧ build_entry md = Raise e.
Proof.
  induction d as [|md d IH]; cbn [build_entries]; [done |].
  destruct (build_entry md) as [e'|e'] eqn:Hb.
  - destruct (build_entries d) as [es|e'']; [done |]. intros [= ->].
    destruct (IH eq_refl) as (md' & ? & ?).
    exists md'. split; [by apply list_elem_of_further | done].
  - intros [= ->]. exists md. split; [apply list_elem_of_here | done].
Qed.

(** X21.  Whatever the integer scores, [_calculate_leaderboard] raises
    nothing but the [OverflowError] of an average that is too large for a
    float: it never divides by zero, and the division of the pass rate
    never fails.  The error is the one [/] raises for the sum of the
    scores of some model and the number of its results. *)
Theorem leaderboard_raises_overflow all_results e :
  _calculate_leaderboard all_results = Raise e →
  e = Exn OtherException "integer division result too large for a float"
  ∧ ∃ m, results_of m all_results ≠ []
         ∧ true_div (sum_scores (r_score <$> results_of m all_results))
             (Z.of_nat (length (results_of m all_results)))
           = Raise e.
Proof.
  unfold _calculate_leaderboard.
  destruct (build_entries (aggregate all_results)) as [es|e'] eqn:Hes; [done |].
  intros [= ->]. apply build_entries_raise in Hes as ([m md] & Hin & Hb).
  rewrite aggregate_flat in Hin.
  apply aggregate_elem in Hin as (r & rs & Hrs & ->).
  change (by_model m (concat (all_results.*2))) with (results_of m all_results) in Hrs.
  unfold build_entry in Hb. cbn [snd scores passed_count] in Hb.
  rewrite length_fmap in Hb.
  assert (Hrate : ∃ v, over_len (Z.of_nat (passes (r :: rs))) (length (r :: rs)) = Ret v).
  { apply over_len_in_range. pose proof (passes_le (r :: rs)).
    assert (1 ≤ 2 ^ 1000)%Z by (apply Z.pow_le_mono_r with (b := 0%Z); lia). nia. }
  destruct Hrate as [v Hv]. rewrite Hv in Hb.
  destruct (over_len (sum_scores _) _) as [avg|e'] eqn:Havg; [done |].
  injection Hb as ->. unfold over_len in Havg. cbn [length Nat.ltb Nat.leb] in Havg.
  destruct (true_div _ _) as [f|e'] eqn:Hd; [done |]. injection Havg as ->.
  split.
  - unfold true_div in Hd. destruct (_ =? _)%Z eqn:Hz; [apply Z.eqb_eq in Hz; simpl in Hz; lia |].
    destruct (finite _); [done |]. by injection Hd as <-.
  - exists m. rewrite Hrs. split; [done |]. exact Hd.
Qed.

Lemma leaderboard_raises_overflow_witness :
  Exn OtherException "integer division result too large for a float"
  = Exn OtherException "integer division result too large for a float"
  ∧ ∃ m, results_of m huge_results ≠ []
         ∧ true_div (sum_scores (r_score <$> results_of m huge_results))
             (Z.of_nat (length (results_of m huge_results)))
           = Raise (Exn OtherException "integer division result too large for a float").
Proof.
  apply (leaderboard_raises_overflow huge_results). vm_compute. reflexivity.
Defined.

End board_proofs.

(* ===================================================================== *)
(** * Ties, counted questions and collected responses *)
(* ===================================================================== *)

Section tie_proofs.
Import PyStr JobRunner Scenarios Fences Combine Gather Cases.

(** Two averages equal to the same number are not in the order [<]. *)
Lemma num_eq_not_lt x y q :
  num_eq x q = true → num_eq y q = true → num_lt x y = false.
Proof.
  unfold num_eq, num_lt, num_compare.
  destruct (value x) as [|px| |], (value y) as [|py| |], (value q) as [|pq| |];
    try done.
  destruct (px ?= pq)%Q eqn:Hx; try done. destruct (py ?= pq)%Q eqn:Hy; try done.
  intros _ _. apply Qeq_alt in Hx, Hy.
  assert (Hxy : (px == py)%Q) by (by rewrite Hx, Hy).
  apply Qeq_alt in Hxy. by rewrite Hxy.
Qed.

Lemma insert_desc_tied q x l :
  tied q (insert_desc x l) = tied q (x :: l).
Proof.
  unfold tied. induction l as [|y l IH]; [done |]. cbn [insert_desc].
  destruct (num_lt (average_score x) (average_score y)) eqn:Hlt; [| done].
  cbn [List.filter] in *. rewrite IH.
  destruct (num_eq (average_score x) q) eqn:Hx; [| done].
  destruct (num_eq (average_score y) q) eqn:Hy; [| done].
  by rewrite (num_eq_not_lt _ _ q Hx Hy) in Hlt.
Qed.

Lemma sort_desc_tied q l : tied q (sort_desc l) = tied q l.
Proof.
  induction l as [|x l IH]; [done |]. cbn [sort_desc foldr].
  rewrite insert_desc_tied. unfold tied in *. cbn [List.filter].
  fold (sort_desc l). by rewrite IH.
Qed.

Lemma set_keys {V} k (v : V) d :
  Dict.keys (Dict.set k v d)
  = if decide (k ∈ Dict.keys d) then Dict.keys d else Dict.keys d ++ [k].
Proof.
  unfold Dict.keys. induction d as [|[k' v'] d IH].
  - cbn. destruct (decide (k ∈ [])) as [H|H]; [by apply elem_of_nil in H | done].
  - cbn [Dict.set]. destruct (decide (k = k')) as [->|Hne].
    + clear IH. cbn. destruct (decide (k' ∈ k' :: d.*1)) as [H|H]; [done |].
      exfalso. apply H, list_elem_of_here.
    + cbn [fmap list_fmap fst] in *. rewrite IH.
      destruct (decide (k ∈ d.*1)) as [Hin|Hin];
        destruct (decide (k ∈ k' :: d.*1)) as [H|H]; try done.
      * exfalso. by apply H, list_elem_of_further.
      * apply elem_of_cons in H as [?|?]; done.
Qed.

Lemma add_result_keys_order d mr :
  Dict.keys (add_result d mr)
  = if decide (mr.1 ∈ Dict.keys d) then Dict.keys d else Dict.keys d ++ [mr.1].
Proof.
  unfold add_result. destruct (Dict.mem mr.1 d) eqn:Hm.
  - pose proof (proj1 (mem_keys _ _) Hm) as Hin.
    destruct (Dict.get mr.1 d); rewrite ?set_keys;
      destruct (decide (mr.1 ∈ Dict.keys d)); done.
  - assert (Hn : mr.1 ∉ Dict.keys d).
    { intros H. apply mem_keys in H. congruence. }
    rewrite get_set_eq, !set_keys.
    destruct (decide (mr.1 ∈ Dict.keys d)); [done |].
    destruct (decide (mr.1 ∈ Dict.keys d ++ [mr.1])) as [|H]; [done |].
    exfalso. apply H, elem_of_app. right. apply list_elem_of_here.
Qed.

Lemma aggregate_first_seen all_results :
  Dict.keys (aggregate all_results) = first_seen all_results.
Proof.
  rewrite aggregate_flat. unfold first_seen.
  assert (H : ∀ flat d,
            Dict.keys (foldl add_result d flat)
            = foldl (λ seen (mr : string * result),
                       if decide (mr.1 ∈ seen) then seen else seen ++ [mr.1])
                (Dict.keys d) flat).
  { induction flat as [|mr flat IH]; intros d; [done |].
    cbn [foldl]. by rewrite IH, add_result_keys_order. }
  apply H.
Qed.

(** X22.  For integer scores, the leaderboard is a permutation of the
    entries of the models in the order in which the results first name
    them, and the entries whose average scores are equal floats keep that
    order. *)
Theorem ties_keep_first_seen_order all_results lb :
  _calculate_leaderboard all_results = Ret lb →
  ∃ entries,
    e_model_name <$> entries = first_seen all_results
    ∧ lb ≡ₚ entries
    ∧ ∀ q, tied q lb = tied q entries.
Proof.
  unfold _calculate_leaderboard.
  destruct (build_entries (aggregate all_results)) as [es|?] eqn:Hes; [| done].
  intros [= <-]. exists es. split_and!.
  - rewrite <- aggregate_first_seen. by apply build_entries_names.
  - apply sort_desc_perm.
  - intros q. apply sort_desc_tied.
Qed.

Lemma ties_keep_first_seen_order_witness :
  ∃ entries,
    e_model_name <$> entries = first_seen tied_results
    ∧ [Entry "b" (Float hundred) 1 1 (Float one);
       Entry "c" (Float fifty) 1 0 (Float (S754_zero false));
       Entry "a" (Float fifty) 1 1 (Float one)] ≡ₚ entries
    ∧ ∀ q, tied q [Entry "b" (Float hundred) 1 1 (Float one);
                   Entry "c" (Float fifty) 1 0 (Float (S754_zero false));
                   Entry "a" (Float fifty) 1 1 (Float one)] = tied q entries.
Proof.
  apply (ties_keep_first_seen_order tied_results).
  vm_compute. reflexivity.
Defined.

End tie_proofs.

Section question_proofs.
Import PyStr JobRunner Scenarios Fences Combine Gather Cases.

Lemma set_length {V} k (v : V) d : (length (Dict.set k v d) ≤ S (length d))%nat.
Proof.
  induction d as [|[k' v'] d IH]; simpl; [done |]. case_decide; simpl; lia.
Qed.

Lemma set_values {V} (P : V → Prop) k (v : V) d :
  P v → Forall P (Dict.values d) → Forall P (Dict.values (Dict.set k v d)).
Proof.
  unfold Dict.values. intros Hv. induction d as [|[k' v'] d IH]; simpl.
  - by repeat constructor.
  - intros [??]%Forall_cons. case_decide; simpl; constructor; auto.
Qed.

Lemma collect_results_facts (P : list (string * result) → Prop) qids results :
  (∀ rs, Gathered (Some rs) ∈ results → P rs) →
  (length (collect_results qids results) ≤ length qids)%nat
  ∧ Forall P (Dict.values (collect_results qids results)).
Proof.
  unfold collect_results. intros HP.
  assert (Hgen : ∀ l acc,
            (∀ qr, qr ∈ l → ∀ rs, qr.2 = Gathered (Some rs) → P rs) →
            Forall P (Dict.values acc) →
            (length (foldl (λ all_results qr,
                       match qr.2 with
                       | Gathered (Some results) => Dict.set qr.1 results all_results
                       | _ => all_results
                       end) acc l) ≤ length acc + length l)%nat
            ∧ Forall P (Dict.values (foldl (λ all_results qr,
                       match qr.2 with
                       | Gathered (Some results) => Dict.set qr.1 results all_results
                       | _ => all_results
                       end) acc l))).
  { induction l as [|qr l IH]; intros acc Hl Hacc; simpl; [split; [lia | done] |].
    destruct qr.2 as [[rs|]|e] eqn:Hq.
    - destruct (IH (Dict.set qr.1 rs acc)) as [H1 H2].
      + intros qr' Hin. apply Hl. by apply list_elem_of_further.
      + apply set_values; [| done]. eapply Hl; [apply list_elem_of_here | done].
      + split; [| done]. pose proof (set_length qr.1 rs acc). lia.
    - destruct (IH acc) as [H1 H2]; [| done |].
      + intros qr' Hin. apply Hl. by apply list_elem_of_further.
      + split; [lia | done].
    - destruct (IH acc) as [H1 H2]; [| done |].
      + intros qr' Hin. apply Hl. by apply list_elem_of_further.
      + split; [lia | done]. }
  destruct (Hgen (zip qids results) []) as [H1 H2].
  - intros [q g] Hin rs Hg. simpl in Hg. subst g. apply HP.
    by apply elem_of_zip_r in Hin.
  - constructor.
  - split; [| done]. cbn [length] in H1.
    assert (length (zip qids results) ≤ length qids)%nat; [| lia].
    clear. revert results. induction qids as [|q qids IH]; intros [|g results]; simpl; try lia.
    specialize (IH results). lia.
Qed.

Lemma by_model_unique m (rs : list (string * result)) :
  NoDup rs.*1 → (length (by_model m rs) ≤ 1)%nat.
Proof.
  unfold by_model. rewrite length_fmap.
  induction rs as [|[m' r] rs IH]; simpl; [lia |].
  intros [Hm Hrs]%NoDup_cons. rewrite filter_cons. case_decide as Heq; [| by apply IH].
  simpl in Heq. subst m'. simpl.
  assert (filter (λ mr : string * result, mr.1 = m) rs = []) as ->; [| simpl; lia].
  apply filter_nil_Forall, Forall_forall. intros [m' r'] Hin ?. simpl in *. subst m'.
  apply Hm. apply list_elem_of_fmap. by exists (m, r').
Qed.

Lemma by_model_concat m (ls : list (list (string * result))) :
  Forall (λ rs, NoDup rs.*1) ls → (length (by_model m (concat ls)) ≤ length ls)%nat.
Proof.
  induction 1 as [|rs ls Hrs _ IH]; simpl; [done |].
  unfold by_model in *. rewrite filter_app, fmap_app, length_app.
  pose proof (by_model_unique m rs Hrs) as H1. unfold by_model in H1. lia.
Qed.

(** X23.  For the results [run_job] collects from the gathered list (result
    maps with one result per model, skipped questions, failed tasks), no
    leaderboard entry counts more questions than the job has, nor more
    passes than questions. *)
Theorem questions_counted question_ids results_list lb :
  (∀ rs, Gathered (Some rs) ∈ results_list → NoDup rs.*1) →
  _calculate_leaderboard (collect_results question_ids results_list) = Ret lb →
  ∀ e, e ∈ lb →
    (e_passed_count e ≤ total_questions e)%nat
    ∧ (total_questions e ≤ length question_ids)%nat.
Proof.
  intros Hdict Hlb e He.
  destruct (collect_results_facts (λ rs, NoDup rs.*1) question_ids results_list Hdict)
    as [Hlen Hall].
  destruct (leaderboard_entries _ lb e Hlb He) as (m & r & rs & Hrs & -> & ->).
  split; [apply passes_le |].
  rewrite <- Hrs. unfold results_of.
  etrans; [apply by_model_concat; exact Hall |].
  unfold Dict.values in *. by rewrite length_fmap.
Qed.

Lemma questions_counted_witness :
  (e_passed_count (Entry "a" (Float twenty_five) 2 1 (Float half))
   ≤ total_questions (Entry "a" (Float twenty_five) 2 1 (Float half)))%nat
  ∧ (total_questions (Entry "a" (Float twenty_five) 2 1 (Float half))
     ≤ length two_questions)%nat.
Proof.
  apply (questions_counted two_questions two_gathered
           [Entry "b" (Float hundred) 1 1 (Float one);
            Entry "a" (Float twenty_five) 2 1 (Float half)]).
  - intros rs Hin. unfold two_gathered in Hin.
    repeat (apply elem_of_cons in Hin as [Hin|Hin];
            [try discriminate Hin; injection Hin as ->; simpl;
             repeat (apply NoDup_cons; split; [set_solver |]); apply NoDup_nil_2 |]).
    by apply elem_of_nil in Hin.
  - vm_compute. reflexivity.
  - apply list_elem_of_further, list_elem_of_here.
Defined.

End question_proofs.

Section response_proofs.
Import PyStr JobRunner Scenarios Fences Combine Gather Cases.
Context {R : Type}.
Implicit Types (rm : results_manager R).

Lemma collect_step_mem rm qid acc run_id m :
  (Dict.mem m acc.2 = true → Dict.mem m acc.1 = true) →
  Dict.mem m (collect_step rm qid acc run_id).2 = true →
  Dict.mem m (collect_step rm qid acc run_id).1 = true.
Proof.
  intros Hacc. unfold collect_step.
  destruct (get_run rm run_id) as [model|]; [| done].
  destruct (get_response rm run_id model qid) as [resp|]; [| done]. cbn [fst snd].
  destruct (decide (model = m)) as [->|Hne]; [intros _; apply mem_set |].
  intros Hm. apply set_keeps_mem, Hacc.
  destruct (get_evaluation _ _ _ _ _); [| done].
  unfold Dict.mem in *. by rewrite get_set_ne in Hm.
Qed.

Lemma collect_step_nil rm qid acc run_id :
  (collect_step rm qid acc run_id).1 = [] ↔ acc.1 = [] ∧ answered rm qid run_id = false.
Proof.
  unfold collect_step, answered.
  destruct (get_run rm run_id) as [model|]; [| naive_solver].
  destruct (get_response rm run_id model qid) as [resp|]; cbn [fst].
  - rewrite bool_decide_true by eauto. split; [| naive_solver].
    intros H. by apply set_not_nil in H.
  - rewrite bool_decide_false by by intros [? [=]]. naive_solver.
Qed.

(** X24.  In [_evaluate_question_with_semaphore], every model with a
    code-execution context also has a response, and the responses are empty
    (the question is skipped) exactly when no run of the job has a response
    for the question. *)
Theorem responses_collected rm run_ids qid :
  (∀ m, Dict.mem m (collect_responses rm run_ids qid).2 = true →
        Dict.mem m (collect_responses rm run_ids qid).1 = true)
  ∧ ((collect_responses rm run_ids qid).1 = []
     ↔ ∀ run_id, run_id ∈ run_ids → answered rm qid run_id = false).
Proof.
  unfold collect_responses.
  assert (Hgen : ∀ l acc,
    ((∀ m, Dict.mem m acc.2 = true → Dict.mem m acc.1 = true) →
     ∀ m, Dict.mem m (foldl (collect_step rm qid) acc l).2 = true →
          Dict.mem m (foldl (collect_step rm qid) acc l).1 = true)
    ∧ ((foldl (collect_step rm qid) acc l).1 = []
       ↔ acc.1 = [] ∧ ∀ run_id, run_id ∈ l → answered rm qid run_id = false)).
  { induction l as [|run_id l IH]; intros acc; simpl.
    - split; [done |]. split; [| naive_solver]. intros H. split; [done |].
      by intros ? ?%elem_of_nil.
    - destruct (IH (collect_step rm qid acc run_id)) as [IH1 IH2]. split.
      + intros Hacc. apply IH1. intros m. apply collect_step_mem, Hacc.
      + rewrite IH2, collect_step_nil. setoid_rewrite elem_of_cons. naive_solver. }
  destruct (Hgen run_ids ([], [])) as [H1 H2]. split; [by apply H1 |].
  rewrite H2. naive_solver.
Qed.

End response_proofs.
